(** * File redirection fixup: path redirection engine

    A shallow embedding of [fixups/FileRedirectionFixup/PathRedirection.cpp]
    of the MSIX Package Support Framework, and the properties of its
    normaliser, VFS mapping, rule engine, resolver and configuration; and,
    at the end of each part, of the launcher helpers of
    [PsfLauncher/StartProcessHelper.h].

    Conventions of the embedding.
    - A C string is a [list ascii] without the terminating NUL; reading the
      character at or past the end yields NUL, as reading the terminator does.
      The [char] and [wchar_t] overloads of every function are the same text;
      code units are modelled as bytes and [widen] is the identity.  The
      overloads compute the same as long as all code units are below 0x80;
      where they differ for larger ones ([UrlDecode]) the [char] overload
      is the one embedded.
    - [std::filesystem::path] is the string it stores ([native], [wstring]
      and [c_str] are the identity); only [operator/] has behaviour.
    - [normalized_path::drive_absolute_path] is a pointer into [full_path];
      it is modelled as an optional offset into [full_path].  The model
      thus follows the paths the pointers are meant to denote: it does not
      track whether a pointer survives the return or the move of the
      struct, which the string library guarantees only for strings it keeps
      on the heap.
    - The process globals written once by [InitializePaths] and
      [InitializeConfiguration] are the fields of a [Globals] record and
      the list of rules.
    - The operating system is a record [OS] of operations over an abstract
      [World]; functions with file-system effects pass the world explicitly.
    - The release build is modelled: [assert] and [#if _DEBUG] blocks are
      compiled out, [Log] has no observable effect. *)

From Stdlib Require Import Ascii String Bool Arith NArith ZArith Lia.
From Stdlib Require Import List.
From Equations Require Import Equations.
Import ListNotations.

Set Implicit Arguments.

Definition wstring := list ascii.
Coercion list_ascii_of_string : string >-> list.

#[local] Open Scope string_scope.
#[local] Open Scope list_scope.
#[local] Open Scope nat_scope.

(** ** Characters and C-string primitives *)

Definition NUL : ascii := "000"%char.

(** [path[i]]: the i-th code unit, NUL at the terminator. *)
Definition at_ (s : wstring) (i : nat) : ascii := nth i s NUL.

Definition ascii_eqb (a b : ascii) : bool := Ascii.eqb a b.

Fixpoint wstring_eqb (a b : wstring) : bool :=
  match a, b with
  | [], [] => true
  | x :: a', y :: b' => ascii_eqb x y && wstring_eqb a' b'
  | _, _ => false
  end.

(** [towlower] in the C locale: only A..Z are mapped. *)
Definition towlower (c : ascii) : ascii :=
  let n := N_of_ascii c in
  if ((65 <=? n) && (n <=? 90))%N then ascii_of_N (n + 32) else c.

(** [iswalpha] in the C locale. *)
Definition iswalpha (c : ascii) : bool :=
  let n := N_of_ascii c in
  (((65 <=? n) && (n <=? 90)) || ((97 <=? n) && (n <=? 122)))%N.

(** [transform(s.begin(), s.end(), s.begin(), towlower)]. *)
Definition lowercase (s : wstring) : wstring := map towlower s.

(** [_wcsicmp(a, b) == 0]. *)
Definition wcsicmp_eq (a b : wstring) : bool :=
  wstring_eqb (lowercase a) (lowercase b).

(** [std::equal(first1, last1, first2)] with an element predicate, where the
    second range is a C string: a NUL in the second range ends the comparison
    with [false] as soon as the first range has a further element. *)
Fixpoint std_equal (cmp : ascii -> ascii -> bool) (a : wstring) (p : wstring) : bool :=
  match a, p with
  | [], _ => true
  | x :: a', y :: p' => cmp x y && std_equal cmp a' p'
  | _ :: _, [] => false
  end.

(** [basic_string::find(needle, 0)]: offset of the first occurrence, [None]
    for [npos]. *)
Fixpoint find (hay needle : wstring) : option nat :=
  if std_equal ascii_eqb needle hay then Some 0
  else match hay with
       | [] => None
       | _ :: hay' => option_map S (find hay' needle)
       end.

Definition found_at_0 (r : option nat) : bool :=
  match r with Some 0 => true | _ => false end.

(** [basic_string::find_first_of(L"\\/", pos)]. *)
Fixpoint find_first_sep_from (is_sep : ascii -> bool) (s : wstring) (pos : nat) : option nat :=
  match pos, s with
  | _, [] => None
  | 0, c :: s' => if is_sep c then Some 0
                  else option_map S (find_first_sep_from is_sep s' 0)
  | S pos', _ :: s' => option_map S (find_first_sep_from is_sep s' pos')
  end.

(** ** Helpers of the framework headers

    [psf_utils.h] and [PathRedirection.h] are not part of the sources at
    hand; the helpers the engine calls are modelled here. *)

(** Modelled from the spec: [psf::is_path_separator], either slash. *)
Definition is_path_separator (c : ascii) : bool :=
  ascii_eqb c "\"%char || ascii_eqb c "/"%char.

(** Modelled from the spec: [psf::path_compare], the element predicate of
    every prefix test: case-insensitive, and the two separators are
    interchangeable. *)
Definition path_compare (lhs rhs : ascii) : bool :=
  ascii_eqb (towlower lhs) (towlower rhs)
  || (is_path_separator lhs && is_path_separator rhs).

(** Modelled from the spec: [psf::dos_path_type], the path kinds of 4.1. *)
Inductive dos_path_type : Type :=
| unknown
| unc_absolute
| drive_absolute
| drive_relative
| rooted
| relative
| local_device
| root_local_device.

Definition dos_path_type_eqb (a b : dos_path_type) : bool :=
  match a, b with
  | unknown, unknown | unc_absolute, unc_absolute
  | drive_absolute, drive_absolute | drive_relative, drive_relative
  | rooted, rooted | relative, relative
  | local_device, local_device | root_local_device, root_local_device => true
  | _, _ => false
  end.

(** Modelled from the spec: [psf::path_type], the classification by the
    leading characters.  The root-local-device prefix is matched literally
    (such paths are never normalised, so forward slashes do not count). *)
Definition path_type (path : wstring) : dos_path_type :=
  if std_equal ascii_eqb "\\?\" path then root_local_device
  else if std_equal path_compare "\\.\" path then local_device
  else if is_path_separator (at_ path 0) then
    if is_path_separator (at_ path 1) then unc_absolute else rooted
  else if iswalpha (at_ path 0) && ascii_eqb (at_ path 1) ":"%char then
    if is_path_separator (at_ path 2) then drive_absolute else drive_relative
  else relative.

(** Modelled from the spec: [psf::remove_trailing_path_separators]. *)
Fixpoint remove_trailing_path_separators (s : wstring) : wstring :=
  match s with
  | [] => []
  | c :: s' =>
      match remove_trailing_path_separators s' with
      | [] => if is_path_separator c then [] else [c]
      | r => c :: r
      end
  end.

(** Modelled from the spec: [struct normalized_path] of [PathRedirection.h]. *)
Record normalized_path : Type := mk_normalized_path {
  full_path : wstring;
  drive_absolute_path : option nat
}.

(** The default-constructed value, the empty sentinel. *)
Definition empty_normalized_path : normalized_path :=
  {| full_path := []; drive_absolute_path := None |}.

(** The C string [drive_absolute_path] points to. *)
Definition dap (p : normalized_path) : option wstring :=
  option_map (fun off => skipn off (full_path p)) (drive_absolute_path p).

(** Modelled from the spec: [struct path_redirect_info] of
    [PathRedirection.h], the RedirectDecision of section 3. *)
Record path_redirect_info : Type := mk_path_redirect_info {
  should_redirect : bool;
  redirect_path : wstring;
  shouldReadonly : bool
}.

Definition default_redirect_info : path_redirect_info :=
  {| should_redirect := false; redirect_path := []; shouldReadonly := false |}.

(** Modelled from the spec: [enum class redirect_flags], three independent
    bits. *)
Record redirect_flags : Type := mk_redirect_flags {
  ensure_directory_structure : bool;
  copy_file : bool;
  check_file_presence : bool
}.

(** ** std::filesystem::path::operator/

    The append of the C++ standard library in its Windows native format:
    an absolute right operand, or one with a different root name, replaces
    the left one; a rooted right operand replaces everything after the left
    root name; otherwise a preferred separator is inserted unless the left
    operand ends in one (or is a bare drive). *)

Definition has_drive_letter_prefix (s : wstring) : bool :=
  (2 <=? length s) && iswalpha (at_ s 0) && ascii_eqb (at_ s 1) ":"%char.

Fixpoint find_slash (s : wstring) : nat :=
  match s with
  | [] => 0
  | c :: s' => if is_path_separator c then 0 else S (find_slash s')
  end.

(** Length of the root name: [X:], [\\?], [\\.], [\??] before a slash, or
    [\\server]. *)
Definition root_name_length (s : wstring) : nat :=
  if length s <? 2 then 0
  else if has_drive_letter_prefix s then 2
  else if negb (is_path_separator (at_ s 0)) then 0
  else if (4 <=? length s) && is_path_separator (at_ s 3)
          && ((length s =? 4) || negb (is_path_separator (at_ s 4)))
          && ((is_path_separator (at_ s 1)
               && (ascii_eqb (at_ s 2) "?"%char || ascii_eqb (at_ s 2) "."%char))
              || (ascii_eqb (at_ s 1) "?"%char && ascii_eqb (at_ s 2) "?"%char))
       then 3
  else if (3 <=? length s) && is_path_separator (at_ s 1)
          && negb (is_path_separator (at_ s 2))
       then 3 + find_slash (skipn 3 s)
  else 0.

Definition fs_is_absolute (s : wstring) : bool :=
  if has_drive_letter_prefix s
  then (3 <=? length s) && is_path_separator (at_ s 2)
  else negb (root_name_length s =? 0).

Definition ends_with_slash (s : wstring) : bool :=
  match rev s with
  | c :: _ => is_path_separator c
  | [] => false
  end.

Definition path_append (a b : wstring) : wstring :=
  if fs_is_absolute b then b
  else
    let ra := root_name_length a in
    let rb := root_name_length b in
    if negb (rb =? 0) && negb (wstring_eqb (firstn ra a) (firstn rb b)) then b
    else
      let a' :=
        if is_path_separator (at_ b rb) then firstn ra a
        else if ra =? length a
             then (if 3 <=? ra then a ++ "\" else a)
             else (if ends_with_slash a then a else a ++ "\")
      in a' ++ skipn rb b.

Infix "</>" := path_append (at level 40, left associativity).

(** [path_relative_to]: [std::equal] of the base over the C string [path]. *)
Definition path_relative_toImpl (path : wstring) (basePath : wstring) : bool :=
  std_equal path_compare basePath path.

Definition path_relative_to := path_relative_toImpl.

(** ** Path normaliser *)

Definition IsColonColonGuid (path : wstring) : bool :=
  if 39 <? length path then
    if ascii_eqb (at_ path 0) ":"%char
       && ascii_eqb (at_ path 1) ":"%char
       && ascii_eqb (at_ path 2) "{"%char
    then true
    else false
  else false.

Definition IsBlobColon (path : wstring) : bool :=
  if found_at_0 (find path "blob:") then true
  else if found_at_0 (find path "BLOB:") then true
  else false.

Definition hex_digit (c : ascii) : option N :=
  let n := N_of_ascii c in
  if ((48 <=? n) && (n <=? 57))%N then Some (n - 48)%N
  else if ((97 <=? n) && (n <=? 102))%N then Some (n - 87)%N
  else if ((65 <=? n) && (n <=? 70))%N then Some (n - 55)%N
  else None.

(** [isspace] in the C locale. *)
Definition isspace (c : ascii) : bool :=
  let n := N_of_ascii c in
  (((9 <=? n) && (n <=? 13)) || (n =? 32))%N.

Fixpoint skip_space (s : wstring) : wstring :=
  match s with
  | c :: s' => if isspace c then skip_space s' else s
  | [] => []
  end.

(** The hexadecimal digits at the head of a string as a number, [acc] being
    what was read before them; [None] when no digit was read. *)
Fixpoint hex_value (acc : option N) (s : wstring) : option N :=
  match s with
  | c :: s' =>
      match hex_digit c with
      | Some d =>
          hex_value (Some (16 * (match acc with Some v => v | None => 0 end) + d)%N) s'
      | None => acc
      end
  | [] => acc
  end.

(** [sscanf_s(s, "%x", &ii)] on a string of at most two characters, as the
    C library converts: white space is skipped, a sign is accepted, and so
    is the prefix [0x]; the hexadecimal digits that follow are converted,
    negated for a minus sign, and stored in the [unsigned int]; when no
    digit follows, nothing is stored and [ii] keeps its previous value. *)
Definition scan_hex (s : wstring) (ii : N) : N :=
  let s := skip_space s in
  let negative :=
    match s with
    | c :: _ => ascii_eqb c "-"%char
    | [] => false
    end in
  let s :=
    match s with
    | c :: s' => if ascii_eqb c "-"%char || ascii_eqb c "+"%char then s' else s
    | [] => []
    end in
  let s :=
    match s with
    | z :: x :: s' =>
        if ascii_eqb z "0"%char && (ascii_eqb x "x"%char || ascii_eqb x "X"%char)
        then s' else s
    | _ => s
    end in
  match hex_value None s with
  | None => ii
  | Some v =>
      if negative then ((4294967296 - v mod 4294967296) mod 4294967296)%N
      else (v mod 4294967296)%N
  end.

(** The loop of [UrlDecode(std::string)]; [ii] is declared outside the loop
    and is only written by a successful conversion.  The decoded character
    is [static_cast<char>(ii)], the low byte.  (The [wchar_t] overload
    appends that [char] to a wide string, which widens it with its sign:
    the two overloads agree for decoded values below 0x80.) *)
Fixpoint UrlDecode_loop (ii : N) (str : wstring) : wstring :=
  match str with
  | [] => []
  | c :: rest =>
      if negb (ascii_eqb c "%"%char) then c :: UrlDecode_loop ii rest
      else
        match rest with
        | a :: b :: rest' =>
            let ii' := scan_hex [a; b] ii in
            ascii_of_N (ii' mod 256) :: UrlDecode_loop ii' rest'
        | [a] =>
            let ii' := scan_hex [a] ii in
            [ascii_of_N (ii' mod 256)]
        | [] =>
            let ii' := scan_hex [] ii in
            [ascii_of_N (ii' mod 256)]
        end
  end.

(** [s.c_str()] as a callee reads it: the characters before the first
    NUL. *)
Fixpoint c_str (s : wstring) : wstring :=
  match s with
  | [] => []
  | c :: s' => if ascii_eqb c NUL then [] else c :: c_str s'
  end.

(** [UrlDecode(path).c_str()]: the argument is a C string, so the decoded
    string has a NUL only where an escape decodes to one, and its C string
    is what the loop appends before the first such escape. *)
Fixpoint UrlDecode_c_str_loop (ii : N) (str : wstring) : wstring :=
  match str with
  | [] => []
  | c :: rest =>
      if negb (ascii_eqb c "%"%char) then c :: UrlDecode_c_str_loop ii rest
      else
        match rest with
        | a :: b :: rest' =>
            let ii' := scan_hex [a; b] ii in
            let ch := ascii_of_N (ii' mod 256) in
            if ascii_eqb ch NUL then [] else ch :: UrlDecode_c_str_loop ii' rest'
        | [a] =>
            let ii' := scan_hex [a] ii in
            let ch := ascii_of_N (ii' mod 256) in
            if ascii_eqb ch NUL then [] else [ch]
        | [] =>
            let ii' := scan_hex [] ii in
            let ch := ascii_of_N (ii' mod 256) in
            if ascii_eqb ch NUL then [] else [ch]
        end
  end.

Definition StripFileColonSlash (old_string : wstring) : wstring :=
  let found := find old_string "file:\" in
  let found := if negb (found_at_0 found) then find old_string "file:/" else found in
  let found := if negb (found_at_0 found) then find old_string "FILE:\" else found in
  let found := if negb (found_at_0 found) then find old_string "FILE:/" else found in
  if found_at_0 found then skipn 6 old_string else old_string.

(** ** The environment of the engine *)

(** The operating-system facilities the engine consumes as black boxes
    (section 6), over an abstract state of the file system.
    [psf_full_path] is [psf::full_path], the wrapper of the path
    canonicalisation facility; [uninit_ii] is the indeterminate value the
    uninitialised local [ii] of [UrlDecode] starts with. *)
Record OS : Type := mk_OS {
  World : Type;
  psf_full_path : wstring -> wstring;
  uninit_ii : N;
  PathExists : World -> wstring -> bool;
  GetFileAttributes : World -> wstring -> N;
  CreateDirectory : World -> wstring -> World * bool;
  CopyFileEx : World -> wstring -> wstring -> N -> World * bool;
  CreateDirectoryEx : World -> wstring -> wstring -> World * bool
}.

Definition FILE_ATTRIBUTE_DIRECTORY : N := 16.
Definition COPY_FILE_FAIL_IF_EXISTS : N := 1.
Definition COPY_FILE_NO_BUFFERING : N := 4096.

Inductive KNOWNFOLDERID : Type :=
| FOLDERID_SystemX86 | FOLDERID_System
| FOLDERID_ProgramFilesX86 | FOLDERID_ProgramFilesCommonX86
| FOLDERID_ProgramFilesX64 | FOLDERID_ProgramFilesCommonX64
| FOLDERID_Windows | FOLDERID_ProgramData
| FOLDERID_LocalAppData | FOLDERID_RoamingAppData
| FOLDERID_Fonts | FOLDERID_PublicDesktop | FOLDERID_CommonPrograms
| FOLDERID_LocalAppDataLow.

(** The identity facts queried from the runtime at start-up. *)
Record Identity : Type := mk_Identity {
  PSFQueryPackageRootPath : wstring;
  PSFQueryFinalPackageRootPath : wstring;
  known_folder : KNOWNFOLDERID -> wstring;
  query_package_family_name : wstring;
  M_IX86 : bool
}.

Record vfs_folder_mapping : Type := mk_vfs_folder_mapping {
  path : wstring;
  package_vfs_relative_path : wstring
}.

(** The path globals of the translation unit. *)
Record Globals : Type := mk_Globals {
  g_packageRootPath : wstring;
  g_packageVfsRootPath : wstring;
  g_redirectRootPath : wstring;
  g_writablePackageRootPath : wstring;
  g_finalPackageRootPath : wstring;
  g_vfsFolderMappings : list vfs_folder_mapping;
  current_package_family_name : wstring
}.

(** [InitializePaths], without the creation of the two writable roots.
    [packageRootPath] is a [std::wstring], so [+= 4] appends the code unit 4. *)
Definition InitializePaths (id : Identity) : Globals :=
  let packageRootPath := PSFQueryPackageRootPath id in
  let pathType := path_type packageRootPath in
  let packageRootPath :=
    if dos_path_type_eqb pathType root_local_device
       || dos_path_type_eqb pathType local_device
    then packageRootPath ++ [ascii_of_nat 4]
    else packageRootPath in
  let packageRootPath := lowercase packageRootPath in
  let root := remove_trailing_path_separators packageRootPath in
  let kf := known_folder id in
  let pkgs := kf FOLDERID_LocalAppData </> "Packages" </> query_package_family_name id in
  let m := mk_vfs_folder_mapping in
  {| g_packageRootPath := root;
     g_packageVfsRootPath := root </> "VFS";
     g_finalPackageRootPath :=
       remove_trailing_path_separators (PSFQueryFinalPackageRootPath id);
     g_redirectRootPath := pkgs </> "LocalCache\Local\VFS";
     g_writablePackageRootPath :=
       pkgs </> "LocalCache\Local\Microsoft\WritablePackageRoot";
     g_vfsFolderMappings :=
       [ m (kf FOLDERID_SystemX86) "SystemX86";
         m (kf FOLDERID_ProgramFilesX86) "ProgramFilesX86";
         m (kf FOLDERID_ProgramFilesCommonX86) "ProgramFilesCommonX86" ]
       ++ (if M_IX86 id then []
           else [ m (kf FOLDERID_System) "SystemX64";
                  m (kf FOLDERID_ProgramFilesX64) "ProgramFilesX64";
                  m (kf FOLDERID_ProgramFilesCommonX64) "ProgramFilesCommonX64" ])
       ++ [ m (kf FOLDERID_Windows) "Windows";
            m (kf FOLDERID_ProgramData) "Common AppData";
            m (kf FOLDERID_System) "System";
            m (kf FOLDERID_System </> "catroot") "AppVSystem32Catroot";
            m (kf FOLDERID_System </> "catroot2") "AppVSystem32Catroot2";
            m (kf FOLDERID_System </> "drivers\etc") "AppVSystem32DriversEtc";
            m (kf FOLDERID_System </> "driverstore") "AppVSystem32Driverstore";
            m (kf FOLDERID_System </> "logfiles") "AppVSystem32Logfiles";
            m (kf FOLDERID_System </> "spool") "AppVSystem32Spool";
            m (kf FOLDERID_LocalAppData) "Local AppData";
            m (kf FOLDERID_RoamingAppData) "AppData";
            m (kf FOLDERID_Fonts) "Fonts";
            m (kf FOLDERID_PublicDesktop) "Common Desktop";
            m (kf FOLDERID_CommonPrograms) "Common Programs";
            m (kf FOLDERID_LocalAppDataLow) "LOCALAPPDATALOW" ];
     current_package_family_name := query_package_family_name id |}.

(** One configured rule; the compiled [std::wregex] is kept abstract. *)
Record path_redirection_spec (pattern : Type) : Type := mk_path_redirection_spec {
  base_path : wstring;
  pattern_of : pattern;
  redirect_targetbase : wstring;
  isExclusion : bool;
  isReadOnly : bool
}.

(** What a call yields: a value, or one of the two ways the C++ function
    does not return one. *)
Inductive failure : Type :=
| out_of_range          (* thrown by [basic_string::substr] *)
| undefined_behaviour.  (* a null or too short [drive_absolute_path] is read *)

Inductive outcome (A : Type) : Type :=
| Returned (a : A)
| Failed (e : failure).

Arguments Failed {A} e.

Section Normalizer.

Variable os : OS.

Definition UrlDecode (str : wstring) : wstring :=
  UrlDecode_loop (uninit_ii os) str.

Definition UrlDecode_c_str (str : wstring) : wstring :=
  UrlDecode_c_str_loop (uninit_ii os) str.

(** The second chain of tests of [NormalizePathImpl]: where the
    drive-absolute form starts within the full path, by its kind. *)
Definition locate_drive_absolute (fp : wstring) (pathType : dos_path_type)
    : normalized_path :=
  match pathType with
  | drive_absolute =>
      {| full_path := fp; drive_absolute_path := Some 0 |}
  | local_device | root_local_device =>
      if dos_path_type_eqb (path_type (skipn 4 fp)) drive_absolute
      then {| full_path := fp; drive_absolute_path := Some 4 |}
      else {| full_path := fp; drive_absolute_path := None |}
  | unc_absolute =>
      {| full_path := fp; drive_absolute_path := None |}
  | _ => empty_normalized_path
  end.

Definition NormalizePathImpl (path : wstring) : normalized_path :=
  match path_type path with
  | root_local_device => locate_drive_absolute path root_local_device
  | unknown => empty_normalized_path
  | _ =>
      let fp := psf_full_path os path in
      locate_drive_absolute fp (path_type fp)
  end.

(** [NormalizePath]; [None] is the null pointer.  [NormalizePathImpl] is
    handed [new_string.c_str()] and so reads the decoded string up to its
    first NUL; [StripFileColonSlash] removes six characters that are not
    NUL or nothing, so the C string of its result is its result on the C
    string of the decoded string (lemma [NormalizePath_reads_c_str]). *)
Definition NormalizePath (path : option wstring) : normalized_path :=
  match path with
  | Some ((_ :: _) as p) =>
      if IsColonColonGuid p
      then {| full_path := p; drive_absolute_path := None |}
      else if IsBlobColon p
      then {| full_path := p; drive_absolute_path := None |}
      else
        let new_string := UrlDecode_c_str p in
        let new_string := StripFileColonSlash new_string in
        NormalizePathImpl new_string
  | _ => NormalizePathImpl "."
  end.

End Normalizer.

(** ** VFS mapping table *)

Section Vfs.

Variable gl : Globals.

Definition rewrite_to (base rel : wstring) : normalized_path :=
  {| full_path := base </> rel; drive_absolute_path := Some 0 |}.

(** The [for] loop of [DeVirtualizePath] over the remaining mappings. *)
Fixpoint DeVirtualize_loop (packageRelativePath : wstring)
    (mappings : list vfs_folder_mapping) (p : normalized_path) : normalized_path :=
  match mappings with
  | [] => p
  | mapping :: rest =>
      if path_relative_to packageRelativePath (package_vfs_relative_path mapping)
      then
        let vfsRelativePath :=
          skipn (length (package_vfs_relative_path mapping)) packageRelativePath in
        if is_path_separator (at_ vfsRelativePath 0)
        then rewrite_to (path mapping) (skipn 1 vfsRelativePath)
        else if negb (ascii_eqb (at_ vfsRelativePath 0) NUL)
        then DeVirtualize_loop packageRelativePath rest p
        else rewrite_to (path mapping) vfsRelativePath
      else DeVirtualize_loop packageRelativePath rest p
  end.

Definition DeVirtualizePath (p : normalized_path) : normalized_path :=
  match dap p with
  | Some d =>
      if path_relative_to d (g_packageVfsRootPath gl)
      then
        let packageRelativePath := skipn (length (g_packageVfsRootPath gl)) d in
        if is_path_separator (at_ packageRelativePath 0)
        then DeVirtualize_loop (skipn 1 packageRelativePath) (g_vfsFolderMappings gl) p
        else p
      else p
  | None => p
  end.

(** The [for] loop of [VirtualizePath]; it is run over the reversed table. *)
Fixpoint Virtualize_loop (mappings : list vfs_folder_mapping)
    (p : normalized_path) : normalized_path :=
  match mappings with
  | [] => p
  | mapping :: rest =>
      if path_relative_to (full_path p) (path mapping)
      then
        let vfsRelativePath := skipn (length (path mapping)) (full_path p) in
        let vfsRelativePath :=
          if is_path_separator (at_ vfsRelativePath 0)
          then skipn 1 vfsRelativePath else vfsRelativePath in
        {| full_path :=
             g_packageVfsRootPath gl </> package_vfs_relative_path mapping
               </> vfsRelativePath;
           drive_absolute_path := Some 0 |}
      else Virtualize_loop rest p
  end.

Definition in_package_root (p : normalized_path) : bool :=
  match dap p with
  | Some d => path_relative_to d (g_packageRootPath gl)
  | None => false
  end.

Definition VirtualizePath (p : normalized_path) : normalized_path :=
  if in_package_root p then p
  else Virtualize_loop (rev (g_vfsFolderMappings gl)) p.

End Vfs.

(** ** Redirection resolver *)

Definition inspect {A : Type} (a : A) : {b : A | a = b} := exist _ a eq_refl.

(** [basic_string::substr(pos)]: throws when [pos] is past the end. *)
Definition substr_from (s : wstring) (pos : nat) : outcome wstring :=
  if length s <? pos then Failed out_of_range else Returned (skipn pos s).

(** [basic_string_view::substr(pos, count)] for [pos] within the view. *)
Definition substr (s : wstring) (pos count : nat) : wstring :=
  firstn count (skipn pos s).

(** [relativePath.find_first_of(LR"(\/)", pos + 1)] followed by the test
    that turns a result equal to the length into [npos]. *)
Definition next_pos (relativePath : wstring) (pos : nat) : option nat :=
  match find_first_sep_from is_path_separator relativePath (pos + 1) with
  | Some nextPos =>
      if nextPos =? length relativePath then None else Some nextPos
  | None => None
  end.

Section Resolver.

Variable os : OS.
Variable gl : Globals.

(** The [for] loop of [GenerateRedirectedPath]: one [CreateDirectory] per
    round, whose result is ignored in the release build. *)
Equations? GenerateRedirectedPath_loop (w : World os) (relativePath : wstring)
    (pos : nat) (result : wstring) : wstring * World os
    by wf (length relativePath - pos) lt :=
  GenerateRedirectedPath_loop w relativePath pos result
    with Nat.ltb pos (length relativePath) => {
    | false := (result, w);
    | true with inspect (next_pos relativePath pos) => {
      | exist _ (Some nextPos) _ :=
          GenerateRedirectedPath_loop (fst (CreateDirectory os w result))
            relativePath nextPos
            (result ++ substr relativePath pos (nextPos - pos));
      | exist _ None _ :=
          (result ++ skipn pos relativePath, fst (CreateDirectory os w result)) } }.
Proof.
  assert (bounds : forall s p n,
             find_first_sep_from is_path_separator s p = Some n ->
             p <= n < length s).
  { induction s as [|c s IH]; intros [|p] n H; simpl in H; try discriminate.
    - destruct (is_path_separator c).
      + injection H as <-. simpl. lia.
      + destruct (find_first_sep_from is_path_separator s 0) eqn:E;
          try discriminate.
        injection H as <-. apply IH in E. simpl. lia.
    - destruct (find_first_sep_from is_path_separator s p) eqn:E;
        try discriminate.
      injection H as <-. apply IH in E. simpl. lia. }
  unfold next_pos in e.
  destruct (find_first_sep_from is_path_separator relativePath (pos + 1)) eqn:E;
    try discriminate.
  destruct (n =? length relativePath); try discriminate.
  injection e as <-. apply bounds in E. lia.
Qed.

Definition GenerateRedirectedPath (w : World os) (relativePath : wstring)
    (ensureDirectoryStructure : bool) (result : wstring) : wstring * World os :=
  if ensureDirectoryStructure
  then GenerateRedirectedPath_loop w relativePath 0 result
  else (result ++ relativePath, w).

(** The test [deVirtualizedFullPath.find(g_packageRootPath) != npos] on the
    lower-cased full path that selects the in-package case. *)
Definition target_in_package (deVirtualizedPath : normalized_path) : bool :=
  match find (lowercase (full_path deVirtualizedPath)) (g_packageRootPath gl) with
  | Some _ => true
  | None => false
  end.

Definition redirect_basePath (destinationTargetBase : wstring) : wstring :=
  if wcsicmp_eq destinationTargetBase (g_writablePackageRootPath gl)
  then "\\?\" ++ g_writablePackageRootPath gl
  else "\\?\" ++ remove_trailing_path_separators destinationTargetBase.

(** The computation of [relativePath] in [RedirectedPath]. *)
Definition redirect_relativePath (deVirtualizedPath : normalized_path)
    (destinationTargetBase : wstring) : outcome wstring :=
  let deVirtualizedFullPath := lowercase (full_path deVirtualizedPath) in
  if target_in_package deVirtualizedPath
  then
    let pathType := path_type deVirtualizedFullPath in
    let lengthPackageRootPath :=
      if dos_path_type_eqb pathType drive_absolute
      then length (g_packageRootPath gl)
      else length (g_finalPackageRootPath gl) in
    if wcsicmp_eq destinationTargetBase (g_writablePackageRootPath gl)
    then substr_from (full_path deVirtualizedPath) lengthPackageRootPath
    else
      match substr_from (full_path deVirtualizedPath) lengthPackageRootPath with
      | Returned tail =>
          Returned ("\PackageCache\" ++ current_package_family_name gl ++ tail)
      | Failed e => Failed e
      end
  else
    let relativePath :=
      if wcsicmp_eq destinationTargetBase (g_redirectRootPath gl)
      then "\" : wstring
      else "\PackageCache\" ++ current_package_family_name gl ++ "\VFS\PackageDrive" in
    match dap deVirtualizedPath with
    | Some (drive :: _ :: remaining) =>
        Returned (relativePath ++ ["\"%char; drive; "$"%char] ++ remaining)
    | _ => Failed undefined_behaviour
    end.

Definition RedirectedPath (w : World os) (deVirtualizedPath : normalized_path)
    (ensureDirectoryStructure : bool) (destinationTargetBase : wstring)
    : outcome (wstring * World os) :=
  let basePath := redirect_basePath destinationTargetBase in
  match redirect_relativePath deVirtualizedPath destinationTargetBase with
  | Failed e => Failed e
  | Returned relativePath =>
      if PathExists os w (basePath ++ relativePath)
      then Returned (basePath ++ relativePath, w)
      else Returned (GenerateRedirectedPath w relativePath
                       ensureDirectoryStructure basePath)
  end.

(** ** Redirection rule engine and [ShouldRedirect] *)

Variable pattern : Type.
Variable regex_match : wstring -> pattern -> bool.
Variable g_redirectionSpecs : list (path_redirection_spec pattern).

(** The [for] loop of [ShouldRedirectImpl] over the remaining specs; a
    [break] returns, a [continue] recurses. *)
Fixpoint redirectSpec_loop (w : World os) (vfspath : normalized_path)
    (flags : redirect_flags) (specs : list (path_redirection_spec pattern))
    (result : path_redirect_info) : outcome (path_redirect_info * World os) :=
  match specs with
  | [] => Returned (result, w)
  | redirectSpec :: rest =>
      match dap vfspath with
      | None => Failed undefined_behaviour
      | Some d =>
          if path_relative_to d (base_path redirectSpec)
          then
            let relativePath := skipn (length (base_path redirectSpec)) d in
            let try_pattern (relativePath : wstring) :=
              if regex_match relativePath (pattern_of redirectSpec)
              then
                if isExclusion redirectSpec
                then Returned ({| should_redirect := false;
                                  redirect_path := redirect_path result;
                                  shouldReadonly := shouldReadonly result |}, w)
                else
                  (* both branches of the test [PathExists(vfspath)] make
                     the same call *)
                  match RedirectedPath w vfspath
                          (ensure_directory_structure flags)
                          (redirect_targetbase redirectSpec) with
                  | Returned (redirected, w') =>
                      Returned ({| should_redirect := true;
                                   redirect_path := redirected;
                                   shouldReadonly := isReadOnly redirectSpec |}, w')
                  | Failed e => Failed e
                  end
              else redirectSpec_loop w vfspath flags rest result in
            if is_path_separator (at_ relativePath 0)
            then try_pattern (skipn 1 relativePath)
            else if negb (ascii_eqb (at_ relativePath 0) NUL)
            then redirectSpec_loop w vfspath flags rest result
            else try_pattern relativePath
          else redirectSpec_loop w vfspath flags rest result
      end
  end.

(** The materialisation step of [ShouldRedirectImpl] under [copy_file]. *)
Definition copy_to_redirected (w : World os) (normalizedPath vfspath : wstring)
    (redirected : wstring) : World os :=
  if PathExists os w redirected then w
  else
    let CopySource :=
      if PathExists os w vfspath then vfspath else normalizedPath in
    let attr := GetFileAttributes os w CopySource in
    if negb (N.eqb (N.land attr FILE_ATTRIBUTE_DIRECTORY) FILE_ATTRIBUTE_DIRECTORY)
    then fst (CopyFileEx os w CopySource redirected
                (N.lor COPY_FILE_FAIL_IF_EXISTS COPY_FILE_NO_BUFFERING))
    else fst (CreateDirectoryEx os w CopySource redirected).

Definition ShouldRedirectImpl (w : World os) (path_arg : option wstring)
    (flags : redirect_flags) : outcome (path_redirect_info * World os) :=
  let result := default_redirect_info in
  match path_arg with
  | None => Returned (result, w)
  | Some _ =>
      let normalizedPath := NormalizePath os path_arg in
      match dap normalizedPath with
      | None => Returned (result, w)
      | Some _ =>
          let normalizedPath := DeVirtualizePath gl normalizedPath in
          let vfspath := NormalizePath os path_arg in
          let vfspath := VirtualizePath gl vfspath in
          match redirectSpec_loop w vfspath flags g_redirectionSpecs result with
          | Failed e => Failed e
          | Returned (result, w) =>
              if negb (should_redirect result) then Returned (result, w)
              else
                match dap vfspath, dap normalizedPath with
                | Some vfs_dap, Some norm_dap =>
                    if check_file_presence flags
                       && (negb (PathExists os w (redirect_path result))
                           && negb (PathExists os w vfs_dap)
                           && negb (PathExists os w norm_dap))
                    then Returned ({| should_redirect := false;
                                      redirect_path := [];
                                      shouldReadonly := shouldReadonly result |}, w)
                    else if copy_file flags
                    then Returned (result,
                           copy_to_redirected w norm_dap vfs_dap (redirect_path result))
                    else Returned (result, w)
                | _, _ => Failed undefined_behaviour (* both are non-null here *)
                end
          end
      end
  end.

Definition ShouldRedirect := ShouldRedirectImpl.

End Resolver.

(** ** The rule of section 4.3, in the words of the specification *)

(** Two paths of the same length that agree case-insensitively. *)
Fixpoint path_equal (a b : wstring) : bool :=
  match a, b with
  | [], [] => true
  | x :: a', y :: b' => path_compare x y && path_equal a' b'
  | _, _ => false
  end.

(** [base] is a path-prefix of [candidate] ending at a directory boundary:
    the candidate is the base itself, or continues with a separator.  The
    value is the remainder after the boundary separator. *)
Definition remainder_after_boundary (base candidate : wstring) : option wstring :=
  if path_equal base (firstn (length base) candidate)
  then match skipn (length base) candidate with
       | [] => Some []
       | c :: tail => if is_path_separator c then Some tail else None
       end
  else None.

(** [candidate] lies under the directory [base]. *)
Definition lies_under (base candidate : wstring) : bool :=
  match remainder_after_boundary base candidate with
  | Some _ => true
  | None => false
  end.

Section RuleSpec.

Variable pattern : Type.
Variable regex_match : wstring -> pattern -> bool.

(** A rule matches when its prefix test passes and its pattern matches the
    whole remainder. *)
Definition rule_matches (vfsPath : wstring) (spec : path_redirection_spec pattern) : bool :=
  match remainder_after_boundary (base_path spec) vfsPath with
  | Some tail => regex_match tail (pattern_of spec)
  | None => false
  end.

(** The first matching rule in configured order. *)
Definition Match (vfsPath : wstring) (specs : list (path_redirection_spec pattern))
    : option (path_redirection_spec pattern) :=
  List.find (rule_matches vfsPath) specs.

End RuleSpec.

(** ** A concrete environment for worked examples *)

(** Regular expressions as syntax trees, matched with derivatives; the
    match is of the whole input, as [std::regex_match] is. *)
Inductive regex : Type :=
| REmpty
| REps
| RChr (c : ascii)
| RAny
| RSeq (r1 r2 : regex)
| RAlt (r1 r2 : regex)
| RStar (r : regex).

Fixpoint nullable (r : regex) : bool :=
  match r with
  | REmpty => false
  | REps => true
  | RChr _ => false
  | RAny => false
  | RSeq r1 r2 => nullable r1 && nullable r2
  | RAlt r1 r2 => nullable r1 || nullable r2
  | RStar _ => true
  end.

Fixpoint deriv (c : ascii) (r : regex) : regex :=
  match r with
  | REmpty => REmpty
  | REps => REmpty
  | RChr d => if ascii_eqb c d then REps else REmpty
  | RAny => REps
  | RSeq r1 r2 =>
      if nullable r1
      then RAlt (RSeq (deriv c r1) r2) (deriv c r2)
      else RSeq (deriv c r1) r2
  | RAlt r1 r2 => RAlt (deriv c r1) (deriv c r2)
  | RStar r1 => RSeq (deriv c r1) (RStar r1)
  end.

Fixpoint demo_regex_match (s : wstring) (r : regex) : bool :=
  match s with
  | [] => nullable r
  | c :: s' => demo_regex_match s' (deriv c r)
  end.

Fixpoint RLit (s : wstring) : regex :=
  match s with
  | [] => REps
  | c :: s' => RSeq (RChr c) (RLit s')
  end.

(** The pattern [.*]. *)
Definition any_path : regex := RStar RAny.

(** A file system as the list of the paths that exist, each marked as a
    directory or a file. *)
Definition demo_world : Type := list (wstring * bool).

Definition demo_lookup (w : demo_world) (p : wstring) : option bool :=
  option_map snd (List.find (fun e => wstring_eqb (fst e) p) w).

Definition demo_exists (w : demo_world) (p : wstring) : bool :=
  match demo_lookup w p with Some _ => true | None => false end.

Definition demo_attributes (w : demo_world) (p : wstring) : N :=
  match demo_lookup w p with
  | Some true => FILE_ATTRIBUTE_DIRECTORY
  | Some false => 128
  | None => 4294967295
  end.

Definition demo_create (w : demo_world) (p : wstring) : demo_world * bool :=
  if demo_exists w p then (w, false) else ((p, true) :: w, true).

Definition demo_copy (w : demo_world) (src dst : wstring) (flags : N)
    : demo_world * bool :=
  match demo_lookup w src with
  | Some false =>
      if demo_exists w dst && N.testbit flags 0 then (w, false)
      else ((dst, false) :: w, true)
  | _ => (w, false)
  end.

Definition demo_create_ex (w : demo_world) (template new : wstring)
    : demo_world * bool :=
  match demo_lookup w template with
  | Some true => demo_create w new
  | _ => (w, false)
  end.

(** Splitting at separators, and the resolution of [.] and [..]. *)
Fixpoint split_components (s : wstring) (cur : wstring) : list wstring :=
  match s with
  | [] => [rev cur]
  | c :: s' =>
      if is_path_separator c then rev cur :: split_components s' []
      else split_components s' (c :: cur)
  end.

Fixpoint resolve_dots (comps : list wstring) (acc : list wstring) : list wstring :=
  match comps with
  | [] => rev acc
  | c :: comps' =>
      if wstring_eqb c [] || wstring_eqb c "." then resolve_dots comps' acc
      else if wstring_eqb c ".." then resolve_dots comps' (tl acc)
      else resolve_dots comps' (c :: acc)
  end.

Fixpoint join_components (comps : list wstring) : wstring :=
  match comps with
  | [] => []
  | [c] => c
  | c :: comps' => c ++ "\" ++ join_components comps'
  end.

Definition canonical_tail (s : wstring) : wstring :=
  let comps := resolve_dots (split_components s []) [] in
  join_components comps
    ++ (if ends_with_slash s && negb (length comps =? 0) then "\" else []).

(** Modelled from the spec: the path canonicalisation facility behind
    [psf::full_path], for a process whose current directory is [cwd]: it
    resolves [.] and [..], relative segments and relative-to-cwd references
    and writes every separator as a backslash. *)
Definition demo_full_path (cwd : wstring) (p : wstring) : wstring :=
  match path_type p with
  | drive_absolute => firstn 2 p ++ "\" ++ canonical_tail (skipn 3 p)
  | drive_relative => firstn 2 p ++ "\" ++ canonical_tail (skipn 2 p)
  | rooted => firstn 2 cwd ++ "\" ++ canonical_tail (skipn 1 p)
  | relative => firstn 2 cwd ++ "\" ++ canonical_tail (skipn 3 cwd ++ "\" ++ p)
  | unc_absolute =>
      match split_components (skipn 2 p) [] with
      | server :: share :: rest =>
          "\\" ++ server ++ "\" ++ share
            ++ (match resolve_dots rest [] with
                | [] => []
                | comps => "\" ++ join_components comps
                end)
      | comps => "\\" ++ join_components comps
      end
  | local_device => "\\.\" ++ canonical_tail (skipn 4 p)
  | _ => p
  end.

Definition demo_os (cwd : wstring) : OS :=
  {| World := demo_world;
     psf_full_path := demo_full_path cwd;
     uninit_ii := 0%N;
     PathExists := demo_exists;
     GetFileAttributes := demo_attributes;
     CreateDirectory := demo_create;
     CopyFileEx := demo_copy;
     CreateDirectoryEx := demo_create_ex |}.

(** The identity facts of a package installed at
    [C:\Program Files\WindowsApps\App] on a 64-bit host. *)
Definition demo_known_folder (id : KNOWNFOLDERID) : wstring :=
  match id with
  | FOLDERID_SystemX86 => "C:\Windows\SysWOW64"
  | FOLDERID_System => "C:\Windows\System32"
  | FOLDERID_ProgramFilesX86 => "C:\Program Files (x86)"
  | FOLDERID_ProgramFilesCommonX86 => "C:\Program Files (x86)\Common Files"
  | FOLDERID_ProgramFilesX64 => "C:\Program Files"
  | FOLDERID_ProgramFilesCommonX64 => "C:\Program Files\Common Files"
  | FOLDERID_Windows => "C:\Windows"
  | FOLDERID_ProgramData => "C:\ProgramData"
  | FOLDERID_LocalAppData => "C:\Users\me\AppData\Local"
  | FOLDERID_RoamingAppData => "C:\Users\me\AppData\Roaming"
  | FOLDERID_Fonts => "C:\Windows\Fonts"
  | FOLDERID_PublicDesktop => "C:\Users\Public\Desktop"
  | FOLDERID_CommonPrograms => "C:\ProgramData\Microsoft\Windows\Start Menu\Programs"
  | FOLDERID_LocalAppDataLow => "C:\Users\me\AppData\LocalLow"
  end.

Definition demo_identity : Identity :=
  {| PSFQueryPackageRootPath := "C:\Program Files\WindowsApps\App";
     PSFQueryFinalPackageRootPath := "\\?\C:\Program Files\WindowsApps\App";
     known_folder := demo_known_folder;
     query_package_family_name := "App_pfn";
     M_IX86 := false |}.

(** The globals [InitializePaths] sets for it. *)
Definition demo_globals : Globals := InitializePaths demo_identity.

(** Two rules under [C:\X], the first an exclusion of [a\...\.tmp]. *)
Definition demo_specs : list (path_redirection_spec regex) :=
  [ mk_path_redirection_spec "C:\X"
      (RSeq (RLit "a\") (RSeq any_path (RLit ".tmp")))
      "C:\Users\me\AppData\Local\Packages\App_pfn\LocalCache\Local\VFS" true false;
    mk_path_redirection_spec "C:\X" any_path
      "C:\Users\me\AppData\Local\Packages\App_pfn\LocalCache\Local\VFS" false false ].

Definition no_flags : redirect_flags :=
  {| ensure_directory_structure := false; copy_file := false;
     check_file_presence := false |}.

(** ** Auxiliary notions of the statements *)

Section Decision.

Variable os : OS.
Variable gl : Globals.
Variable pattern : Type.

(** What the winning rule decides. *)
Definition decision_of (w : World os) (vfspath : normalized_path)
    (flags : redirect_flags) (winner : option (path_redirection_spec pattern))
    : outcome (path_redirect_info * World os) :=
  match winner with
  | None => Returned (default_redirect_info, w)
  | Some spec =>
      if isExclusion spec then Returned (default_redirect_info, w)
      else
        match RedirectedPath os gl w vfspath (ensure_directory_structure flags)
                (redirect_targetbase spec) with
        | Returned (redirected, w') =>
            Returned ({| should_redirect := true;
                         redirect_path := redirected;
                         shouldReadonly := isReadOnly spec |}, w')
        | Failed e => Failed e
        end
  end.

End Decision.

(** The kinds that [NormalizePathImpl] keeps. *)
Definition absolute_kind (t : dos_path_type) : bool :=
  match t with
  | drive_absolute | local_device | root_local_device | unc_absolute => true
  | _ => false
  end.

(** The shapes of the operands of [operator/] for which it concatenates
    with one backslash: a drive-absolute directory without a trailing
    separator on the left, a relative path without a drive on the right. *)
Definition drive_dir (a : wstring) : bool :=
  has_drive_letter_prefix a && (3 <=? length a) && negb (ends_with_slash a).

Definition plain_relative (b : wstring) : bool :=
  negb (has_drive_letter_prefix b) && negb (is_path_separator (at_ b 0)).

(** A name of one path component: not empty, no separator, no NUL. *)
Definition component_name (s : wstring) : bool :=
  negb (length s =? 0)
  && forallb (fun c => negb (is_path_separator c) && negb (ascii_eqb c NUL)) s.

(** The table invariants of section 3, as far as the round trip needs them:
    the package root and every real path are drive-absolute directories, the
    VFS root is the [VFS] directory of the package root, every shadow name is
    one component without a drive, and entries that share a shadow name
    (case-insensitively) share the real path. *)
Definition vfs_table_wf (gl : Globals) : bool :=
  drive_dir (g_packageRootPath gl)
  && wstring_eqb (g_packageVfsRootPath gl) (g_packageRootPath gl </> "VFS")
  && forallb (fun m =>
       drive_dir (path m)
       && component_name (package_vfs_relative_path m)
       && plain_relative (package_vfs_relative_path m)
       && forallb (fun m' =>
            implb (path_equal (package_vfs_relative_path m')
                     (package_vfs_relative_path m))
                  (wstring_eqb (path m') (path m)))
            (g_vfsFolderMappings gl))
       (g_vfsFolderMappings gl).

(** The entry [VirtualizePath] selects: the last one of the table whose real
    path is a prefix of the full path. *)
Definition virtualize_choice (gl : Globals) (full : wstring) : option vfs_folder_mapping :=
  List.find (fun m => path_relative_to full (path m)) (rev (g_vfsFolderMappings gl)).

(** A sibling of the package root of [demo_globals], and two rules for it:
    one with the default writable-root target, one with the redirect root. *)
Definition sibling_file : wstring := "C:\Program Files\WindowsApps\App2\data.txt".

Definition sibling_spec_writable : path_redirection_spec regex :=
  mk_path_redirection_spec "C:\Program Files\WindowsApps\App2" any_path
    (g_writablePackageRootPath demo_globals) false false.

Definition sibling_spec_redirect : path_redirection_spec regex :=
  mk_path_redirection_spec "C:\Program Files\WindowsApps\App2" any_path
    (g_redirectRootPath demo_globals) false false.

(** A rule for [D:\Users] with the redirect root as its target. *)
Definition users_spec : path_redirection_spec regex :=
  mk_path_redirection_spec "D:\Users" any_path
    (g_redirectRootPath demo_globals) false false.

(** The three existence tests of the presence check, in the world the
    computation of the destination leaves behind. *)
Definition nowhere_present (os : OS) (w : World os)
    (redirected vfs_dap norm_dap : wstring) : bool :=
  negb (PathExists os w redirected)
  && negb (PathExists os w vfs_dap)
  && negb (PathExists os w norm_dap).

(** Flag sets and the destination of [C:\X\b\data.txt] under [demo_specs]. *)
Definition check_only : redirect_flags :=
  {| ensure_directory_structure := false; copy_file := false;
     check_file_presence := true |}.

Definition copy_and_check : redirect_flags :=
  {| ensure_directory_structure := false; copy_file := true;
     check_file_presence := true |}.

Definition copy_only : redirect_flags :=
  {| ensure_directory_structure := false; copy_file := true;
     check_file_presence := false |}.

Definition demo_destination : wstring :=
  "\\?\C:\Users\me\AppData\Local\Packages\App_pfn\LocalCache\Local\VFS\\C$\X\b\data.txt".

(** ** Notions of the further properties *)

(** Percent-encoding of every code unit as [%XY], with upper-case or
    lower-case hexadecimal digits: the strings [UrlDecode] is meant to
    undo. *)
Definition hex_char (upper : bool) (n : N) : ascii :=
  if (n <? 10)%N then ascii_of_N (48 + n)
  else ascii_of_N ((if upper then 55 else 87) + n).

Definition percent_encode (upper : bool) (s : wstring) : wstring :=
  flat_map (fun c => [ "%"%char;
                       hex_char upper (N_of_ascii c / 16);
                       hex_char upper (N_of_ascii c mod 16) ]) s.


(** The remainder [VirtualizePath] keeps of a full path after the real
    path of the entry it selected: what follows that prefix, without one
    leading separator. *)
Definition vfs_relative_remainder (m : vfs_folder_mapping) (full : wstring) : wstring :=
  let vfsRelativePath := skipn (length (path m)) full in
  if is_path_separator (at_ vfsRelativePath 0)
  then skipn 1 vfsRelativePath else vfsRelativePath.




(** The globals of a package whose final root is on another mount than
    its package root. *)
Definition alternate_mount_globals : Globals :=
  {| g_packageRootPath := g_packageRootPath demo_globals;
     g_packageVfsRootPath := g_packageVfsRootPath demo_globals;
     g_redirectRootPath := g_redirectRootPath demo_globals;
     g_writablePackageRootPath := g_writablePackageRootPath demo_globals;
     g_finalPackageRootPath :=
       "\\?\Volume{01234567-89ab-cdef-0123-456789abcdef}\WindowsApps\App";
     g_vfsFolderMappings := g_vfsFolderMappings demo_globals;
     current_package_family_name := current_package_family_name demo_globals |}.

(** A rule for everything under the package root of [demo_globals]. *)
Definition package_spec : path_redirection_spec regex :=
  mk_path_redirection_spec "c:\program files\windowsapps\app" any_path
    (g_writablePackageRootPath demo_globals) false true.

Definition ensure_and_check : redirect_flags :=
  {| ensure_directory_structure := true; copy_file := false;
     check_file_presence := true |}.



(** An operating system under observation: [os] itself, with a log of the
    arguments of [CreateDirectory], latest first, beside its state. *)
Definition recording (os : OS) : OS :=
  {| World := World os * list wstring;
     psf_full_path := psf_full_path os;
     uninit_ii := uninit_ii os;
     PathExists := fun w p => PathExists os (fst w) p;
     GetFileAttributes := fun w p => GetFileAttributes os (fst w) p;
     CreateDirectory := fun w p =>
       ((fst (CreateDirectory os (fst w) p), p :: snd w),
        snd (CreateDirectory os (fst w) p));
     CopyFileEx := fun w a b f =>
       ((fst (CopyFileEx os (fst w) a b f), snd w),
        snd (CopyFileEx os (fst w) a b f));
     CreateDirectoryEx := fun w a b =>
       ((fst (CreateDirectoryEx os (fst w) a b), snd w),
        snd (CreateDirectoryEx os (fst w) a b)) |}.

(** ** The package shadow of the user's application data *)

(** [wcslen]: the code units before the first NUL. *)
Fixpoint wcslen (s : wstring) : nat :=
  match s with
  | [] => 0
  | c :: s' => if ascii_eqb c NUL then 0 else S (wcslen s')
  end.

(** [IsUnderUserAppDataLocalImpl] and [IsUnderUserAppDataRoamingImpl], for a
    file name that is not null. *)
Definition IsUnderUserAppDataLocal (id : Identity) (fileName : wstring) : bool :=
  path_relative_to fileName (known_folder id FOLDERID_LocalAppData).

Definition IsUnderUserAppDataRoaming (id : Identity) (fileName : wstring) : bool :=
  path_relative_to fileName (known_folder id FOLDERID_RoamingAppData).

(** [GetPackageVFSPathImpl]; [foo.wstring().substr(n)] throws when [n] is
    past the end of the file name. *)
Definition GetPackageVFSPathImpl (id : Identity) (gl : Globals)
    (fileName : wstring) : outcome wstring :=
  if IsUnderUserAppDataLocal id fileName then
    let lad := known_folder id FOLDERID_LocalAppData in
    let foo := fileName in
    match substr_from foo (wcslen lad + 1) with
    | Returned rest =>
        Returned (g_packageVfsRootPath gl </> "Local AppData" </> rest)
    | Failed e => Failed e
    end
  else if IsUnderUserAppDataRoaming id fileName then
    let rad := known_folder id FOLDERID_RoamingAppData in
    let foo := fileName in
    match substr_from foo (wcslen rad + 1) with
    | Returned rest =>
        Returned (g_packageVfsRootPath gl </> "AppData" </> rest)
    | Failed e => Failed e
    end
  else Returned [].

Definition GetPackageVFSPath := GetPackageVFSPathImpl.


(** The identity of a package whose root is queried in the device form. *)
Definition device_identity : Identity :=
  {| PSFQueryPackageRootPath := "\\?\C:\Program Files\WindowsApps\App";
     PSFQueryFinalPackageRootPath := "\\?\C:\Program Files\WindowsApps\App";
     known_folder := demo_known_folder;
     query_package_family_name := "App_pfn";
     M_IX86 := false |}.


(** ** The configuration of the fixup

    [PSFQueryCurrentDllConfig] hands out the JSON object of the fixup.  The
    configurations modelled are the ones of the documented shape, in which
    every accessor finds the kind of value it asks for: a required key is a
    field, an optional key an option.  [None] as a result says that an
    exception left the function. *)

Record spec_object : Type := mk_spec_object {
  spec_base : wstring;
  spec_redirectTargetBase : option wstring;
  spec_isExclusion : option bool;
  spec_isReadOnly : option bool;
  spec_patterns : list wstring
}.

Record known_folder_object : Type := mk_known_folder_object {
  kf_id : wstring;
  kf_relativePaths : list spec_object
}.

Record redirected_paths_object : Type := mk_redirected_paths_object {
  packageRelative : option (list spec_object);
  packageDriveRelative : option (list spec_object);
  knownFolders : option (list known_folder_object)
}.

Record root_object : Type := mk_root_object {
  redirectedPaths : option redirected_paths_object
}.

(** What [IIDFromString] and then [psf::known_folder] make of a string in
    the form of a GUID: the conversion fails, the folder look-up throws, or
    the folder has a path. *)
Inductive guid_lookup : Type :=
| iid_failed
| folder_failed
| folder_path (p : wstring).

(** [std::filesystem::path::root_name]. *)
Definition root_name (p : wstring) : wstring := firstn (root_name_length p) p.

Section Configuration.

Variable id : Identity.
Variable gl : Globals.
Variable pattern : Type.

(** [std::wregex::assign]: the compiled pattern, [None] when it throws
    [std::regex_error]. *)
Variable regex_assign : wstring -> option pattern.
Variable known_folder_of_guid : wstring -> guid_lookup.

Definition path_from_known_folder_string (str : wstring) : option wstring :=
  let kf := known_folder id in
  if wstring_eqb str "SystemX86" then Some (kf FOLDERID_SystemX86)
  else if wstring_eqb str "System" then Some (kf FOLDERID_System)
  else if wstring_eqb str "ProgramFilesX86" then Some (kf FOLDERID_ProgramFilesX86)
  else if wstring_eqb str "ProgramFilesCommonX86"
       then Some (kf FOLDERID_ProgramFilesCommonX86)
  else if M_IX86 id
          && (wstring_eqb str "ProgramFilesX64"
              || wstring_eqb str "ProgramFilesCommonX64")
       then Some []
  else if negb (M_IX86 id) && wstring_eqb str "ProgramFilesX64"
       then Some (kf FOLDERID_ProgramFilesX64)
  else if negb (M_IX86 id) && wstring_eqb str "ProgramFilesCommonX64"
       then Some (kf FOLDERID_ProgramFilesCommonX64)
  else if wstring_eqb str "Windows" then Some (kf FOLDERID_Windows)
  else if wstring_eqb str "ProgramData" then Some (kf FOLDERID_ProgramData)
  else if wstring_eqb str "LocalAppData" then Some (kf FOLDERID_LocalAppData)
  else if wstring_eqb str "RoamingAppData" then Some (kf FOLDERID_RoamingAppData)
  else if (38 <=? length str) && ascii_eqb (at_ str 0) "{"%char
       then match known_folder_of_guid str with
            | iid_failed => Some []
            | folder_failed => None
            | folder_path p => Some p
            end
  else Some [].

(** The loop over the patterns of one entry: one rule per pattern, at the
    back of the list. *)
Fixpoint add_patterns (path redirectTargetBaseValue : wstring)
    (IsExclusionValue IsReadOnlyValue traceOnly : bool)
    (patterns : list wstring)
    (g_redirectionSpecs : list (path_redirection_spec pattern))
  : option (list (path_redirection_spec pattern)) :=
  match patterns with
  | [] => Some g_redirectionSpecs
  | patternString :: rest =>
      if negb traceOnly then
        match regex_assign patternString with
        | Some compiled =>
            add_patterns path redirectTargetBaseValue IsExclusionValue
              IsReadOnlyValue traceOnly rest
              (g_redirectionSpecs
                 ++ [ mk_path_redirection_spec path compiled
                        redirectTargetBaseValue IsExclusionValue
                        IsReadOnlyValue ])
        | None => None
        end
      else
        add_patterns path redirectTargetBaseValue IsExclusionValue
          IsReadOnlyValue traceOnly rest g_redirectionSpecs
  end.

(** The lambda [initializeRedirection]. *)
Fixpoint initializeRedirection (basePath : wstring) (specs : list spec_object)
    (traceOnly : bool)
    (g_redirectionSpecs : list (path_redirection_spec pattern))
  : option (list (path_redirection_spec pattern)) :=
  match specs with
  | [] => Some g_redirectionSpecs
  | specObject :: rest =>
      let path :=
        remove_trailing_path_separators (basePath </> spec_base specObject) in
      let redirectTargetBaseValue :=
        match spec_redirectTargetBase specObject with
        | Some t => t
        | None => g_writablePackageRootPath gl
        end in
      let IsExclusionValue :=
        match spec_isExclusion specObject with Some b => b | None => false end in
      let IsReadOnlyValue :=
        match spec_isReadOnly specObject with Some b => b | None => false end in
      match add_patterns path redirectTargetBaseValue IsExclusionValue
              IsReadOnlyValue traceOnly (spec_patterns specObject)
              g_redirectionSpecs with
      | Some g => initializeRedirection basePath rest traceOnly g
      | None => None
      end
  end.

(** The loop over the [knownFolders] array. *)
Fixpoint initializeKnownFolders (knownFoldersValue : list known_folder_object)
    (g_redirectionSpecs : list (path_redirection_spec pattern))
  : option (list (path_redirection_spec pattern)) :=
  match knownFoldersValue with
  | [] => Some g_redirectionSpecs
  | knownFolderObject :: rest =>
      match path_from_known_folder_string (kf_id knownFolderObject) with
      | Some path =>
          match initializeRedirection path (kf_relativePaths knownFolderObject)
                  (match path with [] => true | _ => false end)
                  g_redirectionSpecs with
          | Some g => initializeKnownFolders rest g
          | None => None
          end
      | None => None
      end
  end.

Definition InitializeConfiguration (rootConfig : option root_object)
    (g_redirectionSpecs : list (path_redirection_spec pattern))
  : option (list (path_redirection_spec pattern)) :=
  match rootConfig with
  | None => Some g_redirectionSpecs
  | Some rootObject =>
      match redirectedPaths rootObject with
      | None => Some g_redirectionSpecs
      | Some redirectedPathsObject =>
          let after_packageRelative :=
            match packageRelative redirectedPathsObject with
            | Some packageRelativeValue =>
                initializeRedirection (g_packageRootPath gl)
                  packageRelativeValue false g_redirectionSpecs
            | None => Some g_redirectionSpecs
            end in
          match after_packageRelative with
          | None => None
          | Some g1 =>
              let after_packageDriveRelative :=
                match packageDriveRelative redirectedPathsObject with
                | Some packageDriveRelativeValue =>
                    initializeRedirection (root_name (g_packageRootPath gl))
                      packageDriveRelativeValue false g1
                | None => Some g1
                end in
              match after_packageDriveRelative with
              | None => None
              | Some g2 =>
                  match knownFolders redirectedPathsObject with
                  | Some knownFoldersValue =>
                      initializeKnownFolders knownFoldersValue g2
                  | None => Some g2
                  end
              end
          end
      end
  end.

End Configuration.

(** The identifiers [path_from_known_folder_string] knows by name. *)
Definition known_folder_names : list wstring :=
  [ "SystemX86" : wstring; "System" : wstring; "ProgramFilesX86" : wstring;
    "ProgramFilesCommonX86" : wstring; "ProgramFilesX64" : wstring;
    "ProgramFilesCommonX64" : wstring; "Windows" : wstring;
    "ProgramData" : wstring; "LocalAppData" : wstring;
    "RoamingAppData" : wstring ].

(** An identifier that is none of these names and cannot be a GUID. *)
Definition unknown_folder_id (str : wstring) : bool :=
  negb (existsb (wstring_eqb str) known_folder_names)
  && negb ((38 <=? length str) && ascii_eqb (at_ str 0) "{"%char).

(** A configuration with nothing but known-folder entries, and one with
    nothing but drive-relative entries. *)
Definition known_folders_only (kfs : list known_folder_object) : option root_object :=
  Some {| redirectedPaths :=
            Some {| packageRelative := None; packageDriveRelative := None;
                    knownFolders := Some kfs |} |}.

Definition drive_relative_only (entries : list spec_object) : option root_object :=
  Some {| redirectedPaths :=
            Some {| packageRelative := None;
                    packageDriveRelative := Some entries;
                    knownFolders := None |} |}.

(** The patterns of the worked examples: [.*] is [any_path], everything
    else is rejected by the compiler. *)
Definition demo_regex_assign (patternString : wstring) : option regex :=
  if wstring_eqb patternString ".*" then Some any_path else None.


(** A rule base whose third character is no separator. *)
Definition base_without_root_directory (pattern : Type)
    (spec : path_redirection_spec pattern) : Prop :=
  exists a0 a1 c r,
    base_path spec = a0 :: a1 :: c :: r /\ is_path_separator c = false.

(** ** The process launcher

    A shallow embedding of [PsfLauncher/StartProcessHelper.h].  Each
    operating-system function is called at most once in a run, so the
    operating system is a record of the answers it gives, and a run yields
    its result and the calls it made, in order.  The macros of the Windows
    Implementation Library are modelled with their library meaning:
    [RETURN_LAST_ERROR_IF] and [THROW_LAST_ERROR_IF] report the last error,
    replaced by [ERROR_ASSERTION_FAILURE] when it is zero;
    [THROW_IF_WIN32_ERROR] throws when its argument is not zero. *)

Definition HANDLE := Z.
Definition INVALID_HANDLE_VALUE : HANDLE := (-1)%Z.

(** A [DWORD] or [HRESULT] is its 32-bit pattern. *)
Definition DWORD (n : N) : N := (n mod 4294967296)%N.

Definition WAIT_OBJECT_0 : N := 0.
Definition S_OK : N := 0.
Definition ERROR_INVALID_HANDLE : N := 6.
Definition ERROR_ASSERTION_FAILURE : N := 668.
Definition FACILITY_WIN32 : N := 7.
Definition TRUE : N := 1.

(** [FAILED(hr)]: the sign bit. *)
Definition FAILED (hr : N) : bool := N.testbit hr 31.

(** [HRESULT_FROM_WIN32]: a value that is zero or negative as an [HRESULT]
    is kept, another one gets the facility and the failure bit. *)
Definition HRESULT_FROM_WIN32 (x : N) : N :=
  let x := DWORD x in
  if (x =? 0)%N || FAILED x then x
  else N.lor (N.lor (N.land x 65535) (N.shiftl FACILITY_WIN32 16)) 2147483648.

Record launch_answers : Type := mk_launch_answers {
  (** the second call of [InitializeProcThreadAttributeList] succeeds *)
  InitializeProcThreadAttributeList_ok : bool;
  (** [CreateProcessW]: the process and thread handles, [None] on failure *)
  CreateProcessW_result : option (HANDLE * HANDLE);
  WaitForSingleObject_result : N;
  (** [ShellExecuteEx]: the process handle, [None] on failure *)
  ShellExecuteEx_result : option HANDLE;
  (** [GetExitCodeProcess]: the exit code, [None] on failure *)
  GetExitCodeProcess_result : option N;
  GetLastError : N
}.

Inductive api_call : Type :=
| call_InitializeProcThreadAttributeList (sizeOnly : bool)
| call_DeleteProcThreadAttributeList
| call_CreateProcessW (applicationName : option wstring) (commandLine : option wstring)
    (currentDirectory : option wstring) (cmdShow : N)
| call_WaitForSingleObject (h : HANDLE) (timeout : N)
| call_CloseHandle (h : HANDLE)
| call_ShellExecuteEx (lpFile lpParameters : wstring) (lpDirectory : option wstring)
    (nShow : N)
| call_GetExitCodeProcess (h : HANDLE).

(** The error a [..._LAST_ERROR_IF] macro reports. *)
Definition GetLastErrorFailHr (a : launch_answers) : N :=
  let err := DWORD (GetLastError a) in
  HRESULT_FROM_WIN32 (if (err =? 0)%N then ERROR_ASSERTION_FAILURE else err).

(** [StartProcess]; [attributeList] says whether the caller passed a list.
    The scope guard [deleteAttrList] runs on every return behind its
    declaration. *)
Definition StartProcess (a : launch_answers)
    (applicationName commandLine currentDirectory : option wstring)
    (cmdShow timeout : N) (attributeList : bool) : N * list api_call :=
  let prepare :=
    if attributeList then []
    else [ call_InitializeProcThreadAttributeList true;
           call_InitializeProcThreadAttributeList false ] in
  if negb attributeList && negb (InitializeProcThreadAttributeList_ok a)
  then (GetLastErrorFailHr a, prepare)
  else
    let deleteAttrList :=
      if attributeList then [] else [ call_DeleteProcThreadAttributeList ] in
    let create :=
      prepare ++ [ call_CreateProcessW applicationName commandLine
                     currentDirectory cmdShow ] in
    match CreateProcessW_result a with
    | None => (GetLastErrorFailHr a, create ++ deleteAttrList)
    | Some (hProcess, hThread) =>
        if (hProcess =? INVALID_HANDLE_VALUE)%Z
        then (HRESULT_FROM_WIN32 ERROR_INVALID_HANDLE, create ++ deleteAttrList)
        else
          let waitResult := DWORD (WaitForSingleObject_result a) in
          let wait := create ++ [ call_WaitForSingleObject hProcess timeout ] in
          if negb (waitResult =? WAIT_OBJECT_0)%N
          then (GetLastErrorFailHr a, wait ++ deleteAttrList)
          else (S_OK,
                wait ++ [ call_CloseHandle hProcess; call_CloseHandle hThread ]
                  ++ deleteAttrList)
    end.

(** How a function of type [void] ends. *)
Inductive completion : Type :=
| returned
| thrown (hr : N).

(** [StartWithShellExecute].  [lpDirectory] is the [c_str] of a temporary
    path that is gone when [ShellExecuteEx] is called; the answer of the
    call is taken as it comes. *)
Definition StartWithShellExecute (a : launch_answers)
    (packageRoot exeName exeArgString : wstring) (dirStr : option wstring)
    (cmdShow timeout : N) : completion * list api_call :=
  let nonExePath := packageRoot </> exeName in
  let lpDirectory :=
    match dirStr with
    | Some d => Some (packageRoot </> d)
    | None => None
    end in
  let shell := [ call_ShellExecuteEx nonExePath exeArgString lpDirectory cmdShow ] in
  match ShellExecuteEx_result a with
  | None => (thrown (GetLastErrorFailHr a), shell)
  | Some hProcess =>
      if (hProcess =? INVALID_HANDLE_VALUE)%Z
      then (thrown (GetLastErrorFailHr a), shell)
      else
        let exitCode := DWORD (WaitForSingleObject_result a) in
        let queried :=
          shell ++ [ call_WaitForSingleObject hProcess timeout;
                     call_GetExitCodeProcess hProcess ] in
        match GetExitCodeProcess_result a with
        | Some code =>
            (* the call answers [TRUE] and has stored the exit code *)
            (thrown (HRESULT_FROM_WIN32 TRUE), queried)
        | None =>
            (* the call answers [FALSE]; [exitCode] is the result of the wait *)
            if negb (exitCode =? 0)%N
            then (thrown (HRESULT_FROM_WIN32 exitCode), queried)
            else (returned, queried ++ [ call_CloseHandle hProcess ])
        end
  end.

(** The answers of a launch that goes well, and of one that times out. *)
Definition launched : launch_answers :=
  {| InitializeProcThreadAttributeList_ok := true;
     CreateProcessW_result := Some (100, 104)%Z;
     WaitForSingleObject_result := 0;
     ShellExecuteEx_result := Some 100%Z;
     GetExitCodeProcess_result := Some 0%N;
     GetLastError := 0 |}.

Definition timed_out : launch_answers :=
  {| InitializeProcThreadAttributeList_ok := true;
     CreateProcessW_result := Some (100, 104)%Z;
     WaitForSingleObject_result := 258;
     ShellExecuteEx_result := Some 100%Z;
     GetExitCodeProcess_result := Some 259%N;
     GetLastError := 0 |}.




(** * Properties *)

(** ** Characters and prefixes *)

Lemma ascii_eqb_eq (a b : ascii) : ascii_eqb a b = true <-> a = b.
Proof. apply Ascii.eqb_eq. Qed.

Lemma ascii_eqb_refl (a : ascii) : ascii_eqb a a = true.
Proof. apply Ascii.eqb_refl. Qed.

Lemma wstring_eqb_eq (a b : wstring) : wstring_eqb a b = true <-> a = b.
Proof.
  revert b. induction a as [|x a IH]; intros [|y b]; simpl; split;
    try congruence; try reflexivity.
  - rewrite andb_true_iff, ascii_eqb_eq, IH. intros [-> ->]. reflexivity.
  - intros H. injection H as -> ->. rewrite ascii_eqb_refl. simpl.
    apply IH. reflexivity.
Qed.

Lemma path_compare_refl (c : ascii) : path_compare c c = true.
Proof. unfold path_compare. rewrite ascii_eqb_refl. reflexivity. Qed.

Lemma path_equal_refl (a : wstring) : path_equal a a = true.
Proof.
  induction a as [|x a IH]; simpl; [reflexivity|].
  rewrite path_compare_refl, IH. reflexivity.
Qed.

Lemma path_equal_length (a b : wstring) :
  path_equal a b = true -> length a = length b.
Proof.
  revert b. induction a as [|x a IH]; intros [|y b]; simpl; try congruence.
  rewrite andb_true_iff. intros [_ H]. f_equal. apply IH, H.
Qed.

(** The prefix test of the code is the comparison of the base with the
    leading characters of the path. *)
Lemma path_relative_to_firstn (p base : wstring) :
  path_relative_to p base = path_equal base (firstn (length base) p).
Proof.
  unfold path_relative_to, path_relative_toImpl.
  revert p. induction base as [|x base IH]; intros [|y p]; simpl;
    try reflexivity.
  rewrite IH. reflexivity.
Qed.

Lemma path_relative_to_app (base rest : wstring) :
  path_relative_to (base ++ rest) base = true.
Proof.
  rewrite path_relative_to_firstn.
  rewrite firstn_app, Nat.sub_diag, firstn_all. simpl. rewrite app_nil_r.
  apply path_equal_refl.
Qed.

Lemma std_equal_eqb_prefix (needle hay : wstring) :
  std_equal ascii_eqb needle hay = true <-> exists rest, hay = needle ++ rest.
Proof.
  revert hay. induction needle as [|x needle IH]; intros hay; simpl.
  - split; [intros _; exists hay; reflexivity | reflexivity].
  - destruct hay as [|y hay].
    + split; [discriminate | intros [rest H]; discriminate].
    + rewrite andb_true_iff, ascii_eqb_eq, IH. split.
      * intros [-> [rest ->]]. exists rest. reflexivity.
      * intros [rest H]. injection H as -> ->. split; [reflexivity|].
        exists rest. reflexivity.
Qed.

Lemma found_at_0_find (hay needle : wstring) :
  found_at_0 (find hay needle) = std_equal ascii_eqb needle hay.
Proof.
  destruct hay as [|c hay]; simpl;
    destruct (std_equal ascii_eqb needle _) eqn:E; try reflexivity.
  destruct (find hay needle); reflexivity.
Qed.

Lemma In_skipn (A : Type) (x : A) (n : nat) (l : list A) :
  In x (skipn n l) -> In x l.
Proof.
  revert n. induction l as [|y l IH]; intros [|n] H; simpl in *; auto.
  right. apply (IH n), H.
Qed.

(** ** The example environment *)

(** What [InitializePaths] sets for [demo_identity]: the package root in
    lower case, the two writable roots under the local application data,
    and a table of 21 entries that satisfies the invariants. *)
Example demo_globals_values :
  g_packageRootPath demo_globals = "c:\program files\windowsapps\app"
  /\ g_packageVfsRootPath demo_globals = "c:\program files\windowsapps\app\VFS"
  /\ g_finalPackageRootPath demo_globals = "\\?\C:\Program Files\WindowsApps\App"
  /\ g_redirectRootPath demo_globals
     = "C:\Users\me\AppData\Local\Packages\App_pfn\LocalCache\Local\VFS"
  /\ g_writablePackageRootPath demo_globals
     = "C:\Users\me\AppData\Local\Packages\App_pfn\LocalCache\Local\Microsoft\WritablePackageRoot"
  /\ length (g_vfsFolderMappings demo_globals) = 21
  /\ vfs_table_wf demo_globals = true.
Proof. repeat split; reflexivity. Qed.

(** ** C1: the rule engine *)

Section RuleEngine.

Variable os : OS.
Variable gl : Globals.
Variable pattern : Type.
Variable regex_match : wstring -> pattern -> bool.

Lemma redirectSpec_loop_first_match (w : World os) (full : wstring) (off : nat)
    (flags : redirect_flags) (specs : list (path_redirection_spec pattern)) :
  let vfspath := {| full_path := full; drive_absolute_path := Some off |} in
  ~ In NUL (skipn off full) ->
  redirectSpec_loop os gl regex_match w vfspath flags specs default_redirect_info
  = decision_of os gl w vfspath flags (Match regex_match (skipn off full) specs).
Proof.
  intros vfspath Hnul. unfold Match.
  induction specs as [|spec rest IH]; [reflexivity|].
  cbn [redirectSpec_loop List.find]. unfold dap. cbn [drive_absolute_path full_path vfspath option_map].
  fold vfspath. unfold rule_matches, remainder_after_boundary.
  rewrite path_relative_to_firstn.
  destruct (path_equal (base_path spec) _); [|exact IH].
  destruct (skipn (length (base_path spec)) (skipn off full))
    as [|c tail] eqn:E.
  - cbn. destruct (regex_match [] (pattern_of spec)); [|exact IH].
    reflexivity.
  - cbn [at_ nth]. destruct (is_path_separator c) eqn:Hsep.
    + cbn [skipn]. destruct (regex_match tail (pattern_of spec)); [|exact IH].
      reflexivity.
    + destruct (ascii_eqb c NUL) eqn:Hc; [|exact IH].
      exfalso. apply Hnul. apply ascii_eqb_eq in Hc. subst c.
      apply In_skipn with (n := length (base_path spec)).
      rewrite E. left. reflexivity.
Qed.

End RuleEngine.

Lemma DeVirtualize_loop_keeps_dap (gl : Globals) (rel : wstring)
    (mappings : list vfs_folder_mapping) (p : normalized_path) :
  dap p <> None -> dap (DeVirtualize_loop rel mappings p) <> None.
Proof.
  intros H. induction mappings as [|m rest IH]; [exact H|].
  cbn [DeVirtualize_loop].
  destruct (path_relative_to rel (package_vfs_relative_path m)); [|exact IH].
  destruct (is_path_separator _); [discriminate|].
  destruct (negb _); [exact IH | discriminate].
Qed.

Lemma DeVirtualizePath_keeps_dap (gl : Globals) (p : normalized_path) :
  dap p <> None -> dap (DeVirtualizePath gl p) <> None.
Proof.
  intros H. unfold DeVirtualizePath. destruct (dap p) as [d|] eqn:E; [|congruence].
  destruct (path_relative_to d (g_packageVfsRootPath gl)); [|congruence].
  destruct (is_path_separator _); [|congruence].
  apply (DeVirtualize_loop_keeps_dap gl). congruence.
Qed.

Section Decided.

Variable os : OS.
Variable gl : Globals.
Variable pattern : Type.
Variable regex_match : wstring -> pattern -> bool.
Variable g_redirectionSpecs : list (path_redirection_spec pattern).

(** Without the presence check, the answer of [ShouldRedirectImpl] is the
    decision of the rule loop on the virtualised path. *)
Lemma ShouldRedirectImpl_decided_by_loop (w : World os) (p : wstring)
    (flags : redirect_flags) (vfs_dap : wstring) :
  dap (NormalizePath os (Some p)) <> None ->
  dap (VirtualizePath gl (NormalizePath os (Some p))) = Some vfs_dap ->
  ~ In NUL vfs_dap ->
  check_file_presence flags = false ->
  match decision_of os gl w (VirtualizePath gl (NormalizePath os (Some p))) flags
          (Match regex_match vfs_dap g_redirectionSpecs) with
  | Failed e =>
      ShouldRedirectImpl os gl regex_match g_redirectionSpecs w (Some p) flags
      = Failed e
  | Returned (info, w1) =>
      exists w2,
        ShouldRedirectImpl os gl regex_match g_redirectionSpecs w (Some p) flags
        = Returned (info, w2)
        /\ (should_redirect info = false -> w2 = w1)
  end.
Proof.
  intros Hd Hv Hnul Hc.
  pose proof (DeVirtualizePath_keeps_dap gl _ Hd) as Hn.
  unfold ShouldRedirectImpl.
  destruct (dap (NormalizePath os (Some p))) as [d0|] eqn:E0; [|congruence].
  destruct (dap (DeVirtualizePath gl (NormalizePath os (Some p)))) as [nd|]
    eqn:En; [|congruence].
  rewrite Hv.
  assert (L : redirectSpec_loop os gl regex_match w
                (VirtualizePath gl (NormalizePath os (Some p))) flags
                g_redirectionSpecs default_redirect_info
              = decision_of os gl w
                  (VirtualizePath gl (NormalizePath os (Some p))) flags
                  (Match regex_match vfs_dap g_redirectionSpecs)).
  { revert Hv. destruct (VirtualizePath gl (NormalizePath os (Some p)))
      as [full [off|]]; [|discriminate].
    unfold dap. cbn [drive_absolute_path full_path option_map].
    intros Hv. injection Hv as <-.
    apply redirectSpec_loop_first_match. exact Hnul. }
  rewrite L.
  destruct (decision_of os gl w (VirtualizePath gl (NormalizePath os (Some p)))
              flags (Match regex_match vfs_dap g_redirectionSpecs))
    as [[info w1] | e]; [|reflexivity].
  rewrite Hc. cbn [andb].
  destruct (should_redirect info); cbn [negb];
    [destruct (copy_file flags)|]; eexists; (split; [reflexivity|]);
    try discriminate; reflexivity.
Qed.

End Decided.

(** C1: the redirect decision is that of the first configured spec whose
    base is a path-prefix of the virtualised path at a directory boundary and
    whose pattern matches the whole remainder after the boundary separator:
    an exclusion yields no redirect, an inclusion yields a redirect to the
    path computed from its target base and carries its read-only flag, no
    matching spec yields no redirect, and later specs are not consulted.
    This holds of the rule loop, and of [ShouldRedirect] for every input path
    that has a drive-absolute form (the presence check, when requested, may
    still retract a redirect).  A base [C:\Foo] matches no path under
    [C:\Foobar], whatever its pattern. *)
Theorem rule_engine_first_match_wins :
  forall (os : OS) (gl : Globals) (pattern : Type)
         (regex_match : wstring -> pattern -> bool),
    (forall (w : World os) (full : wstring) (off : nat) (flags : redirect_flags)
            (specs : list (path_redirection_spec pattern)),
        let vfspath := {| full_path := full; drive_absolute_path := Some off |} in
        ~ In NUL (skipn off full) ->
        redirectSpec_loop os gl regex_match w vfspath flags specs
          default_redirect_info
        = match Match regex_match (skipn off full) specs with
          | None => Returned (default_redirect_info, w)
          | Some spec =>
              if isExclusion spec then Returned (default_redirect_info, w)
              else
                match RedirectedPath os gl w vfspath
                        (ensure_directory_structure flags)
                        (redirect_targetbase spec) with
                | Returned (redirected, w') =>
                    Returned ({| should_redirect := true;
                                 redirect_path := redirected;
                                 shouldReadonly := isReadOnly spec |}, w')
                | Failed e => Failed e
                end
          end)
    /\ (forall (w : World os) (p : wstring) (flags : redirect_flags)
               (specs : list (path_redirection_spec pattern)) (vfs_dap : wstring),
           dap (NormalizePath os (Some p)) <> None ->
           dap (VirtualizePath gl (NormalizePath os (Some p))) = Some vfs_dap ->
           ~ In NUL vfs_dap ->
           check_file_presence flags = false ->
           match Match regex_match vfs_dap specs with
           | None =>
               ShouldRedirect os gl regex_match specs w (Some p) flags
               = Returned (default_redirect_info, w)
           | Some spec =>
               if isExclusion spec
               then ShouldRedirect os gl regex_match specs w (Some p) flags
                    = Returned (default_redirect_info, w)
               else
                 forall redirected w',
                   RedirectedPath os gl w
                     (VirtualizePath gl (NormalizePath os (Some p)))
                     (ensure_directory_structure flags)
                     (redirect_targetbase spec)
                   = Returned (redirected, w') ->
                   exists w2,
                     ShouldRedirect os gl regex_match specs w (Some p) flags
                     = Returned ({| should_redirect := true;
                                    redirect_path := redirected;
                                    shouldReadonly := isReadOnly spec |}, w2)
           end)
    /\ (forall (w : World os) (flags : redirect_flags) (pat : pattern)
               (target : wstring) (exclusion readonly : bool),
           lies_under "C:\Foo" "C:\Foobar\x" = false
           /\ redirectSpec_loop os gl regex_match w
                {| full_path := "C:\Foobar\x"; drive_absolute_path := Some 0 |}
                flags
                [mk_path_redirection_spec "C:\Foo" pat target exclusion readonly]
                default_redirect_info
              = Returned (default_redirect_info, w)).
Proof.
  intros os gl pattern regex_match. split; [|split].
  - intros w full off flags specs vfspath Hnul.
    exact (redirectSpec_loop_first_match os gl regex_match w full off flags specs Hnul).
  - intros w p flags specs vfs_dap Hd Hv Hnul Hc.
    pose proof (@ShouldRedirectImpl_decided_by_loop os gl pattern regex_match
                  specs w p flags vfs_dap Hd Hv Hnul Hc) as D.
    unfold decision_of in D. unfold ShouldRedirect.
    destruct (Match regex_match vfs_dap specs) as [spec|].
    + destruct (isExclusion spec).
      * destruct D as (w2 & D & E). rewrite D, (E eq_refl). reflexivity.
      * intros redirected w' HR. rewrite HR in D.
        destruct D as (w2 & D & _). exists w2. exact D.
    + destruct D as (w2 & D & E). rewrite D, (E eq_refl). reflexivity.
  - intros w flags pat target exclusion readonly. split; reflexivity.
Qed.

Lemma rule_engine_first_match_wins_witness :
  ~ In NUL (skipn 0 ("C:\X\a\cache.tmp" : wstring))
  /\ redirectSpec_loop (demo_os "C:\work") demo_globals demo_regex_match []
       {| full_path := "C:\X\a\cache.tmp"; drive_absolute_path := Some 0 |}
       no_flags demo_specs default_redirect_info
     = Returned (default_redirect_info, []).
Proof.
  assert (H : ~ In NUL (skipn 0 ("C:\X\a\cache.tmp" : wstring))).
  { vm_compute. intuition discriminate. }
  split; [exact H|].
  rewrite (proj1 (rule_engine_first_match_wins (demo_os "C:\work") demo_globals
                    demo_regex_match)
             [] ("C:\X\a\cache.tmp" : wstring) 0 no_flags demo_specs H).
  reflexivity.
Defined.

(** The two paths of the first-match-wins scenario of section 8. *)
Example first_match_wins_scenario :
  Match demo_regex_match "C:\X\a\cache.tmp" demo_specs = nth_error demo_specs 0
  /\ Match demo_regex_match "C:\X\b\data.txt" demo_specs = nth_error demo_specs 1.
Proof. split; reflexivity. Qed.

(** ** C8, C10: inputs that bypass the engine *)

Lemma IsColonColonGuid_prefix (p : wstring) :
  IsColonColonGuid p = true <-> 39 < length p /\ exists rest, p = "::{" ++ rest.
Proof.
  unfold IsColonColonGuid. split.
  - destruct (39 <? length p) eqn:L; [|discriminate].
    apply Nat.ltb_lt in L.
    destruct p as [|a [|b [|c rest]]]; simpl in L; try lia.
    cbn [at_ nth].
    destruct (ascii_eqb a ":") eqn:Ea; [|discriminate].
    destruct (ascii_eqb b ":") eqn:Eb; [|discriminate].
    destruct (ascii_eqb c "{") eqn:Ec; [|discriminate].
    apply ascii_eqb_eq in Ea, Eb, Ec. subst. intros _. split; [simpl; lia|].
    exists rest. reflexivity.
  - intros [L [rest ->]]. apply Nat.ltb_lt in L. rewrite L. reflexivity.
Qed.

Lemma IsBlobColon_prefix (p : wstring) :
  IsBlobColon p = true
  <-> (exists rest, p = "blob:" ++ rest) \/ (exists rest, p = "BLOB:" ++ rest).
Proof.
  unfold IsBlobColon. rewrite !found_at_0_find.
  rewrite <- !std_equal_eqb_prefix.
  destruct (std_equal ascii_eqb "blob:" p);
    destruct (std_equal ascii_eqb "BLOB:" p); intuition congruence.
Qed.

Section Bypass.

Variable os : OS.
Variable gl : Globals.
Variable pattern : Type.
Variable regex_match : wstring -> pattern -> bool.
Variable g_redirectionSpecs : list (path_redirection_spec pattern).

Lemma ShouldRedirectImpl_without_drive_form (w : World os) (p : wstring)
    (flags : redirect_flags) :
  dap (NormalizePath os (Some p)) = None ->
  ShouldRedirectImpl os gl regex_match g_redirectionSpecs w (Some p) flags
  = Returned (default_redirect_info, w).
Proof.
  intros H. unfold ShouldRedirectImpl. rewrite H. reflexivity.
Qed.

Lemma NormalizePath_verbatim (p : wstring) :
  IsColonColonGuid p = true \/ IsBlobColon p = true ->
  NormalizePath os (Some p) = {| full_path := p; drive_absolute_path := None |}.
Proof.
  intros H. destruct p as [|c p].
  - destruct H as [H | H]; discriminate.
  - unfold NormalizePath.
    destruct (IsColonColonGuid (c :: p)); [reflexivity|].
    destruct H as [H | H]; [discriminate|]. rewrite H. reflexivity.
Qed.

End Bypass.

(** C8: an input that begins with [::{] and is longer than 39 characters,
    and an input that begins with [blob:] or [BLOB:], is returned verbatim as
    the full path, without a drive-absolute form; [ShouldRedirect] answers
    no redirect for it under every configuration, and leaves the file system
    as it was. *)
Theorem guid_and_blob_pass_through :
  forall (os : OS) (gl : Globals) (pattern : Type)
         (regex_match : wstring -> pattern -> bool)
         (specs : list (path_redirection_spec pattern))
         (w : World os) (flags : redirect_flags) (p : wstring),
    (39 < length p /\ exists rest, p = "::{" ++ rest)
    \/ (exists rest, p = "blob:" ++ rest)
    \/ (exists rest, p = "BLOB:" ++ rest) ->
    NormalizePath os (Some p) = {| full_path := p; drive_absolute_path := None |}
    /\ ShouldRedirect os gl regex_match specs w (Some p) flags
       = Returned (default_redirect_info, w).
Proof.
  intros os gl pattern regex_match specs w flags p H.
  assert (V : NormalizePath os (Some p)
              = {| full_path := p; drive_absolute_path := None |}).
  { apply NormalizePath_verbatim.
    destruct H as [H | H].
    - left. exact (proj2 (IsColonColonGuid_prefix p) H).
    - right. exact (proj2 (IsBlobColon_prefix p) H). }
  split; [exact V|].
  apply ShouldRedirectImpl_without_drive_form. rewrite V. reflexivity.
Qed.

Lemma guid_and_blob_pass_through_witness :
  NormalizePath (demo_os "C:\work")
    (Some ("::{20D04FE0-3AEA-1069-A2D8-08002B30309D}" : wstring))
  = {| full_path := "::{20D04FE0-3AEA-1069-A2D8-08002B30309D}";
       drive_absolute_path := None |}
  /\ ShouldRedirect (demo_os "C:\work") demo_globals demo_regex_match
       demo_specs [] (Some ("::{20D04FE0-3AEA-1069-A2D8-08002B30309D}" : wstring))
       no_flags
     = Returned (default_redirect_info, []).
Proof.
  apply (guid_and_blob_pass_through (demo_os "C:\work") demo_globals
           demo_regex_match demo_specs [] no_flags).
  left. split.
  - simpl. lia.
  - exists ("20D04FE0-3AEA-1069-A2D8-08002B30309D}" : wstring). reflexivity.
Defined.

(** C10: a null path pointer is answered with no redirect at once, under
    every configuration and with the file system untouched; an empty
    string is normalised as [.] and goes through the whole pipeline exactly
    as [.] does, so the two inputs can be answered differently. *)
Theorem null_and_empty_paths_differ :
  (forall (os : OS) (gl : Globals) (pattern : Type)
          (regex_match : wstring -> pattern -> bool)
          (specs : list (path_redirection_spec pattern))
          (w : World os) (flags : redirect_flags),
      ShouldRedirect os gl regex_match specs w None flags
      = Returned (default_redirect_info, w)
      /\ NormalizePath os (Some []) = NormalizePathImpl os "."
      /\ ShouldRedirect os gl regex_match specs w (Some []) flags
         = ShouldRedirect os gl regex_match specs w (Some ("." : wstring)) flags)
  /\ (exists (info : path_redirect_info) (w' : demo_world),
         ShouldRedirect (demo_os "C:\X") demo_globals demo_regex_match
           demo_specs [] (Some []) no_flags
         = Returned (info, w')
         /\ should_redirect info = true
         /\ ShouldRedirect (demo_os "C:\X") demo_globals demo_regex_match
              demo_specs [] None no_flags
            = Returned (default_redirect_info, [])).
Proof.
  split.
  - intros os gl pattern regex_match specs w flags.
    split; [reflexivity|]. split; [reflexivity|]. reflexivity.
  - eexists. eexists. split; [vm_compute; reflexivity|].
    split; reflexivity.
Qed.

(** ** C3, C9: the normaliser *)

Lemma path_compare_backslash (c : ascii) :
  path_compare "\" c = true -> is_path_separator c = true.
Proof.
  destruct c as [[] [] [] [] [] [] [] []]; vm_compute; congruence.
Qed.

(** A path of an absolute kind starts with a separator or with a drive. *)
Lemma absolute_kind_start (s : wstring) :
  absolute_kind (path_type s) = true ->
  is_path_separator (at_ s 0) = true
  \/ iswalpha (at_ s 0) && ascii_eqb (at_ s 1) ":" = true.
Proof.
  unfold path_type.
  destruct (std_equal ascii_eqb "\\?\" s) eqn:E1.
  { apply std_equal_eqb_prefix in E1. destruct E1 as [rest ->]. left. reflexivity. }
  destruct (std_equal path_compare "\\.\" s) eqn:E2.
  { destruct s as [|c s]; [discriminate|]. simpl in E2.
    apply andb_true_iff in E2. destruct E2 as [E2 _].
    left. apply path_compare_backslash, E2. }
  destruct (is_path_separator (at_ s 0)); [left; reflexivity|].
  destruct (iswalpha (at_ s 0) && ascii_eqb (at_ s 1) ":"); [right; reflexivity|].
  discriminate.
Qed.

Lemma StripFileColonSlash_prefixes (s : wstring) :
  StripFileColonSlash s
  = if std_equal ascii_eqb "file:\" s || std_equal ascii_eqb "file:/" s
       || std_equal ascii_eqb "FILE:\" s || std_equal ascii_eqb "FILE:/" s
    then skipn 6 s else s.
Proof.
  unfold StripFileColonSlash.
  rewrite <- !found_at_0_find.
  generalize (find s "file:\") (find s "file:/") (find s "FILE:\") (find s "FILE:/").
  intros f1 f2 f3 f4. cbv zeta.
  destruct (found_at_0 f1) eqn:E1; simpl.
  { rewrite E1. simpl. rewrite E1. simpl. rewrite E1. reflexivity. }
  destruct (found_at_0 f2) eqn:E2; simpl.
  { rewrite E2. simpl. rewrite E2. reflexivity. }
  destruct (found_at_0 f3) eqn:E3; simpl.
  { rewrite E3. reflexivity. }
  reflexivity.
Qed.

(** Neither the GUID marker, nor the blob scheme, nor a [file:] prefix
    starts a path of an absolute kind. *)
Lemma absolute_kind_not_special (s : wstring) :
  absolute_kind (path_type s) = true ->
  IsColonColonGuid s = false /\ IsBlobColon s = false
  /\ StripFileColonSlash s = s.
Proof.
  intros H. apply absolute_kind_start in H.
  assert (G : forall pre rest, s = pre ++ rest ->
              is_path_separator (at_ pre 0) = false ->
              iswalpha (at_ pre 0) && ascii_eqb (at_ pre 1) ":" = false ->
              2 <= length pre -> False).
  { intros pre rest -> H0 H1 L.
    destruct pre as [|a [|b pre]]; simpl in L; try lia.
    cbn [app at_ nth] in *. destruct H as [H | H]; congruence. }
  split; [|split].
  - destruct (IsColonColonGuid s) eqn:E; [|reflexivity]. exfalso.
    apply IsColonColonGuid_prefix in E. destruct E as [_ [rest E]].
    apply (G _ _ E); try reflexivity. simpl. lia.
  - destruct (IsBlobColon s) eqn:E; [|reflexivity]. exfalso.
    apply IsBlobColon_prefix in E. destruct E as [[rest E] | [rest E]];
      apply (G _ _ E); try reflexivity; simpl; lia.
  - rewrite StripFileColonSlash_prefixes.
    destruct (std_equal ascii_eqb "file:\" s) eqn:E1.
    { exfalso. apply std_equal_eqb_prefix in E1. destruct E1 as [rest E].
      apply (G _ _ E); try reflexivity. simpl. lia. }
    destruct (std_equal ascii_eqb "file:/" s) eqn:E2.
    { exfalso. apply std_equal_eqb_prefix in E2. destruct E2 as [rest E].
      apply (G _ _ E); try reflexivity. simpl. lia. }
    destruct (std_equal ascii_eqb "FILE:\" s) eqn:E3.
    { exfalso. apply std_equal_eqb_prefix in E3. destruct E3 as [rest E].
      apply (G _ _ E); try reflexivity. simpl. lia. }
    destruct (std_equal ascii_eqb "FILE:/" s) eqn:E4; [|reflexivity].
    exfalso. apply std_equal_eqb_prefix in E4. destruct E4 as [rest E].
    apply (G _ _ E); try reflexivity. simpl. lia.
Qed.

Lemma UrlDecode_loop_plain (ii : N) (s : wstring) :
  ~ In "%"%char s -> UrlDecode_loop ii s = s.
Proof.
  induction s as [|c s IH]; intros H; [reflexivity|].
  cbn [UrlDecode_loop].
  destruct (ascii_eqb c "%") eqn:E.
  - exfalso. apply H. left. apply ascii_eqb_eq in E. congruence.
  - cbn [negb]. rewrite IH; [reflexivity|]. intros Hin. apply H. right. exact Hin.
Qed.

Lemma UrlDecode_loop_head (ii : N) (c : ascii) (s : wstring) :
  ascii_eqb c "%" = false ->
  UrlDecode_loop ii (c :: s) = c :: UrlDecode_loop ii s.
Proof. intros E. cbn [UrlDecode_loop]. rewrite E. reflexivity. Qed.

Lemma UrlDecode_c_str_loop_plain (ii : N) (s : wstring) :
  ~ In "%"%char s -> UrlDecode_c_str_loop ii s = s.
Proof.
  induction s as [|c s IH]; intros H; [reflexivity|].
  cbn [UrlDecode_c_str_loop].
  destruct (ascii_eqb c "%") eqn:E.
  - exfalso. apply H. left. apply ascii_eqb_eq in E. congruence.
  - cbn [negb]. rewrite IH; [reflexivity|]. intros Hin. apply H. right. exact Hin.
Qed.

Lemma UrlDecode_c_str_loop_head (ii : N) (c : ascii) (s : wstring) :
  ascii_eqb c "%" = false ->
  UrlDecode_c_str_loop ii (c :: s) = c :: UrlDecode_c_str_loop ii s.
Proof. intros E. cbn [UrlDecode_c_str_loop]. rewrite E. reflexivity. Qed.

Section NormalizerProperties.

Variable os : OS.

(** A result of [NormalizePathImpl] other than the empty sentinel is
    located by the kind of its own full path, which is an absolute kind. *)
Lemma NormalizePathImpl_located (q : wstring) :
  full_path (NormalizePathImpl os q) <> [] ->
  absolute_kind (path_type (full_path (NormalizePathImpl os q))) = true
  /\ NormalizePathImpl os q
     = locate_drive_absolute (full_path (NormalizePathImpl os q))
         (path_type (full_path (NormalizePathImpl os q))).
Proof.
  unfold NormalizePathImpl.
  assert (K : forall fp,
             full_path (locate_drive_absolute fp (path_type fp)) <> [] ->
             absolute_kind (path_type (full_path (locate_drive_absolute fp (path_type fp)))) = true
             /\ locate_drive_absolute fp (path_type fp)
                = locate_drive_absolute
                    (full_path (locate_drive_absolute fp (path_type fp)))
                    (path_type (full_path (locate_drive_absolute fp (path_type fp))))).
  { intros fp.
    destruct (path_type fp) eqn:T;
      cbn [locate_drive_absolute full_path empty_normalized_path];
      try congruence.
    - intros _. rewrite T. split; reflexivity.
    - intros _. rewrite T. split; reflexivity.
    - destruct (dos_path_type_eqb (path_type (skipn 4 fp)) drive_absolute) eqn:D;
        cbn [full_path]; intros _; rewrite T;
        cbn [locate_drive_absolute]; rewrite D; split; reflexivity.
    - destruct (dos_path_type_eqb (path_type (skipn 4 fp)) drive_absolute) eqn:D;
        cbn [full_path]; intros _; rewrite T;
        cbn [locate_drive_absolute]; rewrite D; split; reflexivity. }
  destruct (path_type q) eqn:T; cbn [full_path empty_normalized_path];
    try congruence; try (apply K).
  rewrite <- T. apply K.
Qed.

Lemma NormalizePathImpl_fixed (fp : wstring) :
  absolute_kind (path_type fp) = true ->
  (path_type fp <> root_local_device -> psf_full_path os fp = fp) ->
  NormalizePathImpl os fp = locate_drive_absolute fp (path_type fp).
Proof.
  intros A F. unfold NormalizePathImpl.
  destruct (path_type fp) eqn:T; try discriminate; try reflexivity;
    rewrite F by congruence; rewrite T; reflexivity.
Qed.

Lemma NormalizePath_of_absolute_kind (fp : wstring) :
  absolute_kind (path_type fp) = true ->
  ~ In "%"%char fp ->
  NormalizePath os (Some fp) = NormalizePathImpl os fp.
Proof.
  intros A P. destruct (absolute_kind_not_special fp A) as (G & B & S).
  destruct fp as [|c fp]; [discriminate|].
  unfold NormalizePath. rewrite G, B. unfold UrlDecode_c_str.
  rewrite UrlDecode_c_str_loop_plain by exact P. rewrite S. reflexivity.
Qed.

Lemma NormalizePath_is_Impl_or_verbatim (p : wstring) :
  (exists q, NormalizePath os (Some p) = NormalizePathImpl os q)
  \/ NormalizePath os (Some p) = {| full_path := p; drive_absolute_path := None |}.
Proof.
  destruct p as [|c p]; [left; exists ("." : wstring); reflexivity|].
  unfold NormalizePath.
  destruct (IsColonColonGuid (c :: p)) eqn:G; [right; reflexivity|].
  destruct (IsBlobColon (c :: p)) eqn:B; [right; reflexivity|].
  left. eexists. reflexivity.
Qed.

End NormalizerProperties.

(** C3 (amended): normalising the full path of a normalised path gives the
    same normalised path whenever that full path is not empty, holds no
    percent sign, and is left alone by the canonicalisation facility (which
    is only consulted when the path is not a root-local-device path). *)
Theorem normalization_idempotent_without_escapes :
  forall (os : OS) (p : wstring),
    full_path (NormalizePath os (Some p)) <> [] ->
    ~ In "%"%char (full_path (NormalizePath os (Some p))) ->
    (path_type (full_path (NormalizePath os (Some p))) <> root_local_device ->
     psf_full_path os (full_path (NormalizePath os (Some p)))
     = full_path (NormalizePath os (Some p))) ->
    NormalizePath os (Some (full_path (NormalizePath os (Some p))))
    = NormalizePath os (Some p).
Proof.
  intros os p Hne Hpct Hfix.
  destruct (NormalizePath_is_Impl_or_verbatim os p) as [[q E] | E].
  - rewrite E in *.
    destruct (NormalizePathImpl_located os q Hne) as [A L].
    rewrite NormalizePath_of_absolute_kind by assumption.
    rewrite NormalizePathImpl_fixed by assumption.
    symmetry. exact L.
  - rewrite E. cbn [full_path]. exact E.
Qed.

Lemma normalization_idempotent_without_escapes_witness :
  NormalizePath (demo_os "C:\work")
    (Some (full_path (NormalizePath (demo_os "C:\work")
                        (Some ("file:/C:/foo/../bar/x.txt" : wstring)))))
  = NormalizePath (demo_os "C:\work") (Some ("file:/C:/foo/../bar/x.txt" : wstring)).
Proof.
  apply (normalization_idempotent_without_escapes (demo_os "C:\work")
           ("file:/C:/foo/../bar/x.txt" : wstring)).
  - vm_compute. discriminate.
  - vm_compute. intuition discriminate.
  - intros _. vm_compute. reflexivity.
Defined.

(** C3 as stated fails: [C:\a%2541] normalises to [C:\a%41], whose
    normalisation decodes once more, to [C:\aA]. *)
Lemma normalization_not_idempotent :
  NormalizePath (demo_os "C:\work") (Some ("C:\a%2541" : wstring))
  = {| full_path := "C:\a%41"; drive_absolute_path := Some 0 |}
  /\ NormalizePath (demo_os "C:\work")
       (Some (full_path (NormalizePath (demo_os "C:\work")
                           (Some ("C:\a%2541" : wstring)))))
     = {| full_path := "C:\aA"; drive_absolute_path := Some 0 |}
  /\ NormalizePath (demo_os "C:\work")
       (Some (full_path (NormalizePath (demo_os "C:\work")
                           (Some ("C:\a%2541" : wstring)))))
     <> NormalizePath (demo_os "C:\work") (Some ("C:\a%2541" : wstring)).
Proof.
  split; [reflexivity|]. split; [reflexivity|]. vm_compute. discriminate.
Qed.

Lemma path_type_empty : path_type [] = relative.
Proof. reflexivity. Qed.

(** What [NormalizePath] classifies after decoding and stripping decides
    whether the input was one of the verbatim forms. *)
Lemma unc_after_decoding_not_special (ii : N) (p : wstring) :
  path_type (StripFileColonSlash (UrlDecode_c_str_loop ii p)) = unc_absolute ->
  p <> [] /\ IsColonColonGuid p = false /\ IsBlobColon p = false.
Proof.
  intros T. split; [|split].
  - intros ->. discriminate.
  - destruct (IsColonColonGuid p) eqn:G; [|reflexivity]. exfalso.
    apply IsColonColonGuid_prefix in G. destruct G as [_ [rest ->]].
    cbn [app list_ascii_of_string] in T.
    rewrite !UrlDecode_c_str_loop_head in T by reflexivity.
    rewrite StripFileColonSlash_prefixes in T. discriminate.
  - destruct (IsBlobColon p) eqn:B; [|reflexivity]. exfalso.
    apply IsBlobColon_prefix in B. destruct B as [[rest ->] | [rest ->]];
      cbn [app list_ascii_of_string] in T;
      rewrite !UrlDecode_c_str_loop_head in T by reflexivity;
      rewrite StripFileColonSlash_prefixes in T; discriminate.
Qed.

(** C9 (amended): when the path the normaliser classifies (the input,
    percent-decoded, read as a C string and without its [file:] prefix) is
    UNC-absolute, and the canonicalised path is a UNC path as well, the
    result is the canonicalised full path without a drive-absolute form,
    and [ShouldRedirect] answers no redirect under every configuration. *)
Theorem unc_paths_never_redirected :
  forall (os : OS) (gl : Globals) (pattern : Type)
         (regex_match : wstring -> pattern -> bool)
         (specs : list (path_redirection_spec pattern))
         (w : World os) (flags : redirect_flags) (p : wstring),
    path_type (StripFileColonSlash (UrlDecode_c_str os p)) = unc_absolute ->
    path_type (psf_full_path os (StripFileColonSlash (UrlDecode_c_str os p)))
    = unc_absolute ->
    NormalizePath os (Some p)
    = {| full_path := psf_full_path os (StripFileColonSlash (UrlDecode_c_str os p));
         drive_absolute_path := None |}
    /\ ShouldRedirect os gl regex_match specs w (Some p) flags
       = Returned (default_redirect_info, w).
Proof.
  intros os gl pattern regex_match specs w flags p T T'.
  destruct (unc_after_decoding_not_special (uninit_ii os) p T) as (Hne & G & B).
  assert (V : NormalizePath os (Some p)
              = {| full_path :=
                     psf_full_path os (StripFileColonSlash (UrlDecode_c_str os p));
                   drive_absolute_path := None |}).
  { destruct p as [|c p]; [congruence|].
    unfold NormalizePath. rewrite G, B.
    unfold NormalizePathImpl. rewrite T, T'. reflexivity. }
  split; [exact V|].
  apply ShouldRedirectImpl_without_drive_form. rewrite V. reflexivity.
Qed.

Lemma unc_paths_never_redirected_witness :
  NormalizePath (demo_os "C:\work") (Some ("\\localhost\C$/X/.\a.txt" : wstring))
  = {| full_path :=
         psf_full_path (demo_os "C:\work")
           (StripFileColonSlash
              (UrlDecode_c_str (demo_os "C:\work")
                 ("\\localhost\C$/X/.\a.txt" : wstring)));
       drive_absolute_path := None |}
  /\ ShouldRedirect (demo_os "C:\work") demo_globals demo_regex_match
       demo_specs [] (Some ("\\localhost\C$/X/.\a.txt" : wstring)) no_flags
     = Returned (default_redirect_info, []).
Proof.
  apply (unc_paths_never_redirected (demo_os "C:\work") demo_globals
           demo_regex_match demo_specs [] no_flags
           ("\\localhost\C$/X/.\a.txt" : wstring)); reflexivity.
Defined.

(** C9 as stated fails: [\\%3f\C:\X\a.txt] and [//?/C:/X/a.txt] are
    UNC-absolute as they are written, but the first is decoded and the
    second is canonicalised to the device path [\\?\C:\X\a.txt]; that path
    has a drive-absolute form, and both inputs are redirected as
    [C:\X\a.txt] is. *)
Lemma unc_spelling_of_device_path_redirected :
  path_type ("\\%3f\C:\X\a.txt" : wstring) = unc_absolute
  /\ NormalizePath (demo_os "C:\work") (Some ("\\%3f\C:\X\a.txt" : wstring))
     = {| full_path := "\\?\C:\X\a.txt"; drive_absolute_path := Some 4 |}
  /\ ShouldRedirect (demo_os "C:\work") demo_globals demo_regex_match
       demo_specs [] (Some ("\\%3f\C:\X\a.txt" : wstring)) no_flags
     = Returned
         ({| should_redirect := true;
             redirect_path :=
               "\\?\C:\Users\me\AppData\Local\Packages\App_pfn\LocalCache\Local\VFS\\C$\X\a.txt";
             shouldReadonly := false |}, [])
  /\ path_type ("//?/C:/X/a.txt" : wstring) = unc_absolute
  /\ NormalizePath (demo_os "C:\work") (Some ("//?/C:/X/a.txt" : wstring))
     = {| full_path := "\\?\C:\X\a.txt"; drive_absolute_path := Some 4 |}
  /\ ShouldRedirect (demo_os "C:\work") demo_globals demo_regex_match
       demo_specs [] (Some ("//?/C:/X/a.txt" : wstring)) no_flags
     = Returned
         ({| should_redirect := true;
             redirect_path :=
               "\\?\C:\Users\me\AppData\Local\Packages\App_pfn\LocalCache\Local\VFS\\C$\X\a.txt";
             shouldReadonly := false |}, []).
Proof. repeat split; vm_compute; reflexivity. Qed.

(** The administrative share that names [C:\X\a.txt], a path the rules
    would redirect, is canonicalised and left alone. *)
Example administrative_share_not_redirected :
  full_path (NormalizePath (demo_os "C:\work")
               (Some ("\\localhost\C$/X/.\a.txt" : wstring)))
  = "\\localhost\C$\X\a.txt"
  /\ (exists info w',
         ShouldRedirect (demo_os "C:\work") demo_globals demo_regex_match
           demo_specs [] (Some ("C:\X\a.txt" : wstring)) no_flags
         = Returned (info, w')
         /\ should_redirect info = true).
Proof.
  split; [reflexivity|]. eexists. eexists. split; [vm_compute; reflexivity|].
  reflexivity.
Qed.

(** ** C2: the VFS mapping *)

Lemma path_compare_sep_r (c : ascii) :
  path_compare c "\" = true -> is_path_separator c = true.
Proof.
  destruct c as [[] [] [] [] [] [] [] []]; vm_compute; congruence.
Qed.

Lemma skipn_app_length (A : Type) (a b : list A) : skipn (length a) (a ++ b) = b.
Proof. induction a as [|x a IH]; simpl; auto. Qed.

Lemma firstn_app_length (A : Type) (a b : list A) : firstn (length a) (a ++ b) = a.
Proof. induction a as [|x a IH]; simpl; [reflexivity | rewrite IH; reflexivity]. Qed.

Lemma std_equal_app_l (cmp : ascii -> ascii -> bool) (a b p : wstring) :
  std_equal cmp (a ++ b) p = true -> std_equal cmp a p = true.
Proof.
  revert p. induction a as [|x a IH]; intros [|y p]; simpl; try congruence.
  rewrite !andb_true_iff. intros [H1 H2]. split; [exact H1 | apply IH, H2].
Qed.

Lemma has_drive_letter_prefix_app (a b : wstring) :
  has_drive_letter_prefix a = true -> has_drive_letter_prefix (a ++ b) = true.
Proof.
  destruct a as [|x [|y a]]; try discriminate. intros H. exact H.
Qed.

Lemma ends_with_slash_app (a b : wstring) :
  b <> [] -> ends_with_slash (a ++ b) = ends_with_slash b.
Proof.
  intros Hb. unfold ends_with_slash. rewrite rev_app_distr.
  destruct (rev b) as [|c r] eqn:E; [|reflexivity].
  exfalso. apply Hb. rewrite <- (rev_involutive b), E. reflexivity.
Qed.

Lemma component_name_spec (s : wstring) :
  component_name s = true ->
  s <> []
  /\ (forall c, In c s -> is_path_separator c = false /\ ascii_eqb c NUL = false)
  /\ ends_with_slash s = false.
Proof.
  unfold component_name. rewrite andb_true_iff, forallb_forall.
  intros [L F].
  assert (Hne : s <> []) by (intros ->; discriminate).
  assert (Hc : forall c, In c s ->
                 is_path_separator c = false /\ ascii_eqb c NUL = false).
  { intros c Hin. specialize (F c Hin). apply andb_true_iff in F.
    destruct F as [F1 F2]. split; apply negb_true_iff; assumption. }
  split; [exact Hne|]. split; [exact Hc|].
  unfold ends_with_slash. destruct (rev s) as [|c r] eqn:E; [reflexivity|].
  apply Hc. apply in_rev. rewrite E. left. reflexivity.
Qed.

Lemma drive_dir_spec (a : wstring) :
  drive_dir a = true ->
  has_drive_letter_prefix a = true /\ 3 <= length a /\ ends_with_slash a = false.
Proof.
  unfold drive_dir. rewrite !andb_true_iff, Nat.leb_le, negb_true_iff. tauto.
Qed.

Lemma drive_dir_app (a b : wstring) :
  drive_dir a = true -> b <> [] -> ends_with_slash b = false ->
  drive_dir (a ++ b) = true.
Proof.
  intros Ha Hb He. apply drive_dir_spec in Ha. destruct Ha as (D & L & _).
  unfold drive_dir. rewrite has_drive_letter_prefix_app by exact D.
  rewrite ends_with_slash_app by exact Hb. rewrite He.
  rewrite length_app. cbn [andb negb]. rewrite andb_true_r.
  apply Nat.leb_le. lia.
Qed.

Lemma plain_relative_spec (b : wstring) :
  plain_relative b = true ->
  fs_is_absolute b = false /\ root_name_length b = 0
  /\ is_path_separator (at_ b 0) = false.
Proof.
  unfold plain_relative. rewrite andb_true_iff, !negb_true_iff. intros [D S].
  assert (R : root_name_length b = 0).
  { unfold root_name_length. destruct (length b <? 2); [reflexivity|].
    rewrite D, S. reflexivity. }
  split; [|split; assumption].
  unfold fs_is_absolute. rewrite D, R. reflexivity.
Qed.

(** [operator/] on a drive-absolute directory and a plain relative path. *)
Lemma path_append_drive_dir (a b : wstring) :
  drive_dir a = true -> plain_relative b = true ->
  a </> b = a ++ "\" ++ b.
Proof.
  intros Ha Hb. apply drive_dir_spec in Ha. destruct Ha as (D & L & E).
  apply plain_relative_spec in Hb. destruct Hb as (A & R & S).
  unfold path_append. rewrite A, R. cbn [Nat.eqb negb andb]. rewrite S.
  assert (Ra : root_name_length a = 2).
  { unfold root_name_length.
    destruct (length a <? 2) eqn:L2; [apply Nat.ltb_lt in L2; lia|].
    rewrite D. reflexivity. }
  rewrite Ra.
  destruct (2 =? length a) eqn:L2; [apply Nat.eqb_eq in L2; lia|].
  rewrite E. cbn [skipn]. rewrite <- app_assoc. reflexivity.
Qed.

(** A base that continues with a backslash is only a prefix of what lies
    under it. *)
Lemma path_relative_to_below (d base rest : wstring) :
  path_relative_to d (base ++ "\" ++ rest) = true -> lies_under base d = true.
Proof.
  unfold path_relative_to, path_relative_toImpl, lies_under,
    remainder_after_boundary.
  revert d. induction base as [|x base IH]; intros d H.
  - cbn in *. destruct d as [|c d]; [discriminate|].
    apply andb_true_iff in H. destruct H as [H _].
    rewrite (path_compare_backslash _ H). reflexivity.
  - destruct d as [|y d]; [discriminate|]. cbn in H.
    apply andb_true_iff in H. destruct H as [H1 H2].
    specialize (IH d H2). cbn [length firstn skipn path_equal]. rewrite H1.
    cbn [andb]. exact IH.
Qed.

Lemma lies_under_relative (d base : wstring) :
  lies_under base d = true -> path_relative_to d base = true.
Proof.
  unfold lies_under, remainder_after_boundary. rewrite path_relative_to_firstn.
  destruct (path_equal base (firstn (length base) d)); [reflexivity|discriminate].
Qed.

(** A component name is a prefix of a name followed by a backslash only as
    the whole name; otherwise the prefix ends inside the name. *)
Lemma component_prefix_cases (a b rest : wstring) :
  (forall c, In c a -> is_path_separator c = false /\ ascii_eqb c NUL = false) ->
  (forall c, In c b -> is_path_separator c = false /\ ascii_eqb c NUL = false) ->
  std_equal path_compare a (b ++ "\" ++ rest) = true ->
  (path_equal a b = true /\ skipn (length a) (b ++ "\" ++ rest) = "\" ++ rest)
  \/ (exists c tail, skipn (length a) (b ++ "\" ++ rest) = c :: tail
                     /\ is_path_separator c = false /\ ascii_eqb c NUL = false).
Proof.
  revert b. induction a as [|x a IH]; intros b Ha Hb H.
  - destruct b as [|y b].
    + left. split; reflexivity.
    + right. exists y, (b ++ "\" ++ rest). split; [reflexivity|].
      apply Hb. left. reflexivity.
  - destruct b as [|y b].
    + exfalso. cbn in H. apply andb_true_iff in H. destruct H as [H _].
      apply path_compare_sep_r in H.
      destruct (Ha x (or_introl eq_refl)) as [Hx _]. congruence.
    + cbn in H. apply andb_true_iff in H. destruct H as [H1 H2].
      destruct (IH b) as [[PE SK] | (c & tail & SK & S & N)].
      * intros c Hc. apply Ha. right. exact Hc.
      * intros c Hc. apply Hb. right. exact Hc.
      * exact H2.
      * left. split; [cbn; rewrite H1; exact PE | exact SK].
      * right. exists c, tail. split; [exact SK|]. split; assumption.
Qed.

Section VfsProperties.

Variable gl : Globals.

Lemma Virtualize_loop_find (mappings : list vfs_folder_mapping) (p : normalized_path) :
  Virtualize_loop gl mappings p
  = match List.find (fun m => path_relative_to (full_path p) (path m)) mappings with
    | None => p
    | Some mapping =>
        let vfsRelativePath := skipn (length (path mapping)) (full_path p) in
        let vfsRelativePath :=
          if is_path_separator (at_ vfsRelativePath 0)
          then skipn 1 vfsRelativePath else vfsRelativePath in
        {| full_path :=
             g_packageVfsRootPath gl </> package_vfs_relative_path mapping
               </> vfsRelativePath;
           drive_absolute_path := Some 0 |}
    end.
Proof.
  induction mappings as [|m rest IH]; [reflexivity|].
  cbn [Virtualize_loop List.find].
  destruct (path_relative_to (full_path p) (path m)); [reflexivity | exact IH].
Qed.

Lemma DeVirtualize_loop_finds (m : vfs_folder_mapping) (rest : wstring)
    (p0 : normalized_path) (table : list vfs_folder_mapping) :
  (forall m', In m' table -> component_name (package_vfs_relative_path m') = true) ->
  (forall m', In m' table ->
     path_equal (package_vfs_relative_path m') (package_vfs_relative_path m) = true ->
     path m' = path m) ->
  In m table ->
  DeVirtualize_loop (package_vfs_relative_path m ++ "\" ++ rest) table p0
  = rewrite_to (path m) rest.
Proof.
  induction table as [|m' tl IH]; intros Hc Hu Hin; [destruct Hin|].
  assert (Cm : component_name (package_vfs_relative_path m) = true)
    by (apply Hc, Hin).
  assert (Cm' : component_name (package_vfs_relative_path m') = true)
    by (apply Hc; left; reflexivity).
  apply component_name_spec in Cm, Cm'.
  destruct Cm as (_ & Fm & _). destruct Cm' as (_ & Fm' & _).
  assert (Htl : m <> m' -> DeVirtualize_loop
                   (package_vfs_relative_path m ++ "\" ++ rest) tl p0
                 = rewrite_to (path m) rest).
  { intros Hneq. apply IH.
    - intros x Hx. apply Hc. right. exact Hx.
    - intros x Hx. apply Hu. right. exact Hx.
    - destruct Hin as [E | Hin]; [congruence | exact Hin]. }
  cbn [DeVirtualize_loop].
  destruct (path_relative_to (package_vfs_relative_path m ++ "\" ++ rest)
              (package_vfs_relative_path m')) eqn:R.
  - destruct (component_prefix_cases _ _ rest Fm' Fm R)
      as [[PE SK] | (c & tail & SK & S & N)]; rewrite SK.
    + cbn. rewrite (Hu m' (or_introl eq_refl) PE). reflexivity.
    + cbn [at_ nth]. rewrite S, N. cbn [negb]. apply Htl.
      intros <-. rewrite skipn_app_length in SK. injection SK as <- _.
      discriminate.
  - apply Htl. intros <-. rewrite path_relative_to_app in R. discriminate.
Qed.

Hypothesis wf : vfs_table_wf gl = true.

Lemma vfs_table_wf_spec :
  drive_dir (g_packageRootPath gl) = true
  /\ g_packageVfsRootPath gl = g_packageRootPath gl ++ "\VFS"
  /\ (forall m, In m (g_vfsFolderMappings gl) ->
        drive_dir (path m) = true
        /\ component_name (package_vfs_relative_path m) = true
        /\ plain_relative (package_vfs_relative_path m) = true)
  /\ (forall m m', In m (g_vfsFolderMappings gl) -> In m' (g_vfsFolderMappings gl) ->
        path_equal (package_vfs_relative_path m') (package_vfs_relative_path m) = true ->
        path m' = path m).
Proof.
  unfold vfs_table_wf in wf. rewrite !andb_true_iff in wf.
  destruct wf as [[R V] T]. rewrite forallb_forall in T.
  split; [exact R|]. split.
  - apply wstring_eqb_eq in V. rewrite V.
    apply (path_append_drive_dir (g_packageRootPath gl) "VFS" R). reflexivity.
  - split.
    + intros m Hm. specialize (T m Hm). rewrite !andb_true_iff in T. tauto.
    + intros m m' Hm Hm' PE. specialize (T m Hm). rewrite !andb_true_iff in T.
      destruct T as [_ U]. rewrite forallb_forall in U. specialize (U m' Hm').
      rewrite PE in U. apply wstring_eqb_eq. exact U.
Qed.

(** Outside the package root, [DeVirtualizePath] changes nothing. *)
Lemma DeVirtualizePath_outside (p : normalized_path) :
  (forall d, dap p = Some d -> lies_under (g_packageRootPath gl) d = false) ->
  DeVirtualizePath gl p = p.
Proof.
  intros H. unfold DeVirtualizePath. destruct (dap p) as [d|] eqn:E; [|reflexivity].
  destruct vfs_table_wf_spec as (_ & V & _). rewrite V.
  destruct (path_relative_to d (g_packageRootPath gl ++ "\VFS")) eqn:R;
    [|reflexivity].
  apply (path_relative_to_below d (g_packageRootPath gl) "VFS") in R.
  rewrite (H d eq_refl) in R. discriminate.
Qed.

(** The round trip through the entry that [VirtualizePath] selects. *)
Lemma round_trip_through_mapping (p : normalized_path) (m : vfs_folder_mapping)
    (s : ascii) (rest : wstring) :
  in_package_root gl p = false ->
  virtualize_choice gl (full_path p) = Some m ->
  skipn (length (path m)) (full_path p) = s :: rest ->
  is_path_separator s = true ->
  plain_relative rest = true ->
  DeVirtualizePath gl (VirtualizePath gl p)
  = {| full_path := path m ++ "\" ++ rest; drive_absolute_path := Some 0 |}.
Proof.
  intros Hout Hch Hsk Hs Hrest.
  destruct vfs_table_wf_spec as (R & V & T & U).
  assert (Hin : In m (g_vfsFolderMappings gl)).
  { apply in_rev. unfold virtualize_choice in Hch.
    apply find_some in Hch. tauto. }
  destruct (T m Hin) as (Dm & Cm & Pm).
  destruct (component_name_spec _ Cm) as (Nm & _ & Em).
  assert (DV : drive_dir (g_packageRootPath gl ++ "\VFS") = true)
    by (apply drive_dir_app; [exact R | discriminate | reflexivity]).
  unfold VirtualizePath. rewrite Hout, Virtualize_loop_find.
  unfold virtualize_choice in Hch. rewrite Hch. cbv zeta.
  rewrite Hsk. cbn [at_ nth]. rewrite Hs. cbn [skipn].
  unfold DeVirtualizePath. rewrite V.
  remember (g_packageRootPath gl ++ "\VFS") as Vr eqn:EVr.
  rewrite (path_append_drive_dir _ _ DV Pm).
  rewrite path_append_drive_dir;
    [| apply drive_dir_app;
       [exact DV | discriminate
        | rewrite ends_with_slash_app by exact Nm; exact Em]
     | exact Hrest].
  unfold dap. cbn [drive_absolute_path full_path option_map skipn].
  rewrite <- !app_assoc.
  rewrite path_relative_to_app, skipn_app_length.
  cbn [app list_ascii_of_string at_ nth is_path_separator skipn].
  replace (is_path_separator "\") with true by reflexivity.
  rewrite (DeVirtualize_loop_finds m rest _ (g_vfsFolderMappings gl)).
  - unfold rewrite_to. rewrite (path_append_drive_dir _ _ Dm Hrest). reflexivity.
  - intros m' Hm'. apply (T m' Hm').
  - intros m' Hm'. apply (U m m' Hin Hm').
  - exact Hin.
Qed.

End VfsProperties.

Lemma path_equal_app (a a' b b' : wstring) :
  path_equal a a' = true -> path_equal b b' = true ->
  path_equal (a ++ b) (a' ++ b') = true.
Proof.
  revert a'. induction a as [|x a IH]; intros [|y a']; simpl; try congruence.
  rewrite !andb_true_iff. intros [H1 H2] Hb. split; [exact H1 | apply IH; assumption].
Qed.

(** C2 (amended): for a table that satisfies its invariants,
    (a) a path whose drive-absolute form lies under the package root is its
    own virtualisation;
    (b) a path that does not lie under the package root survives the round
    trip when no real path of the table is a prefix of it, and when it is the
    real path of the selected entry, spelled as in the table, followed by a
    backslash and a relative remainder;
    (c) in general, when the selected real path ends at a separator of the
    path, the round trip yields that real path, a backslash and the
    remainder, which equals the input up to case and the kind of slash. *)
Theorem vfs_round_trip :
  forall gl : Globals,
    vfs_table_wf gl = true ->
    (forall (p : normalized_path) (d : wstring),
        dap p = Some d -> lies_under (g_packageRootPath gl) d = true ->
        VirtualizePath gl p = p)
    /\ (forall p : normalized_path,
           (forall d, dap p = Some d ->
                      lies_under (g_packageRootPath gl) d = false) ->
           match virtualize_choice gl (full_path p) with
           | None => DeVirtualizePath gl (VirtualizePath gl p) = p
           | Some m =>
               forall rest : wstring,
                 p = {| full_path := path m ++ "\" ++ rest;
                        drive_absolute_path := Some 0 |} ->
                 plain_relative rest = true ->
                 DeVirtualizePath gl (VirtualizePath gl p) = p
           end)
    /\ (forall (p : normalized_path) (m : vfs_folder_mapping) (s : ascii)
               (rest : wstring),
           in_package_root gl p = false ->
           virtualize_choice gl (full_path p) = Some m ->
           skipn (length (path m)) (full_path p) = s :: rest ->
           is_path_separator s = true ->
           plain_relative rest = true ->
           DeVirtualizePath gl (VirtualizePath gl p)
           = {| full_path := path m ++ "\" ++ rest; drive_absolute_path := Some 0 |}
           /\ path_equal (path m ++ "\" ++ rest) (full_path p) = true).
Proof.
  intros gl wf. split; [|split].
  - intros p d Hd Hu. unfold VirtualizePath, in_package_root. rewrite Hd.
    rewrite (lies_under_relative _ _ Hu). reflexivity.
  - intros p Hout.
    assert (Hdv : DeVirtualizePath gl p = p)
      by (apply DeVirtualizePath_outside; assumption).
    destruct (in_package_root gl p) eqn:Hin.
    + unfold VirtualizePath. rewrite Hin.
      destruct (virtualize_choice gl (full_path p)); [intros rest _ _|]; exact Hdv.
    + destruct (virtualize_choice gl (full_path p)) as [m|] eqn:Hch.
      * intros rest Hp Hrest.
        rewrite (@round_trip_through_mapping gl wf p m "\" rest Hin Hch);
          [symmetry; exact Hp | | reflexivity | exact Hrest].
        rewrite Hp. cbn [full_path]. apply skipn_app_length.
      * unfold VirtualizePath. rewrite Hin, Virtualize_loop_find.
        unfold virtualize_choice in Hch. rewrite Hch. exact Hdv.
  - intros p m s rest Hin Hch Hsk Hs Hrest. split.
    + apply (@round_trip_through_mapping gl wf p m s rest); assumption.
    + rewrite <- (firstn_skipn (length (path m)) (full_path p)), Hsk.
      apply path_equal_app.
      * rewrite <- path_relative_to_firstn.
        unfold virtualize_choice in Hch. apply find_some in Hch. tauto.
      * cbn. unfold path_compare. rewrite Hs. cbn. rewrite orb_true_r.
        apply path_equal_refl.
Qed.

Lemma vfs_round_trip_witness :
  vfs_table_wf demo_globals = true
  /\ DeVirtualizePath demo_globals
       (VirtualizePath demo_globals
          {| full_path := "C:\Windows\settings.ini"; drive_absolute_path := Some 0 |})
     = {| full_path := "C:\Windows\settings.ini"; drive_absolute_path := Some 0 |}.
Proof.
  split; [reflexivity|].
  exact (proj1 (proj2 (vfs_round_trip demo_globals eq_refl))
           {| full_path := "C:\Windows\settings.ini"; drive_absolute_path := Some 0 |}
           (fun d Hd => match Hd in (_ = o) return
                           match o with
                           | Some d' => lies_under (g_packageRootPath demo_globals) d' = false
                           | None => True
                           end
                        with eq_refl => eq_refl end)
           ("settings.ini" : wstring) eq_refl eq_refl).
Defined.

(** C2 as stated fails: [c:\windows\x.ini] is a normalised path outside
    the package root; the prefix test ignores case, and the way back writes
    the real path as the table spells it, [C:\Windows\x.ini]. *)
Lemma vfs_round_trip_respells :
  NormalizePath (demo_os "C:\work") (Some ("c:\windows\x.ini" : wstring))
  = {| full_path := "c:\windows\x.ini"; drive_absolute_path := Some 0 |}
  /\ lies_under (g_packageRootPath demo_globals) "c:\windows\x.ini" = false
  /\ DeVirtualizePath demo_globals
       (VirtualizePath demo_globals
          {| full_path := "c:\windows\x.ini"; drive_absolute_path := Some 0 |})
     = {| full_path := "C:\Windows\x.ini"; drive_absolute_path := Some 0 |}
  /\ DeVirtualizePath demo_globals
       (VirtualizePath demo_globals
          {| full_path := "c:\windows\x.ini"; drive_absolute_path := Some 0 |})
     <> {| full_path := "c:\windows\x.ini"; drive_absolute_path := Some 0 |}.
Proof.
  split; [reflexivity|]. split; [reflexivity|]. split; [reflexivity|].
  vm_compute. discriminate.
Qed.

(** Two more paths that do not come back: the mapped directory itself
    returns with a trailing backslash, and [C:\WindowsOld\settings.ini],
    of which [C:\Windows] is a prefix that does not end at a separator,
    returns as [C:\Windows\Old\settings.ini]; [DeVirtualizePath] rejects
    such a prefix of a shadow name, [VirtualizePath] has no such test. *)
Example vfs_round_trip_other_failures :
  DeVirtualizePath demo_globals
    (VirtualizePath demo_globals
       {| full_path := "C:\Windows"; drive_absolute_path := Some 0 |})
  = {| full_path := "C:\Windows\"; drive_absolute_path := Some 0 |}
  /\ VirtualizePath demo_globals
       {| full_path := "C:\WindowsOld\settings.ini"; drive_absolute_path := Some 0 |}
     = {| full_path := "c:\program files\windowsapps\app\VFS\Windows\Old\settings.ini";
          drive_absolute_path := Some 0 |}
  /\ DeVirtualizePath demo_globals
       (VirtualizePath demo_globals
          {| full_path := "C:\WindowsOld\settings.ini"; drive_absolute_path := Some 0 |})
     = {| full_path := "C:\Windows\Old\settings.ini"; drive_absolute_path := Some 0 |}.
Proof. split; [reflexivity|]. split; reflexivity. Qed.

(** ** C4, C5, C7: the resolver *)

Lemma find_first_sep_from_bounds (s : wstring) :
  forall pos n, find_first_sep_from is_path_separator s pos = Some n ->
                pos <= n < length s.
Proof.
  induction s as [|c s IH]; intros [|pos] n H; simpl in H; try discriminate.
  - destruct (is_path_separator c).
    + injection H as <-. simpl. lia.
    + destruct (find_first_sep_from is_path_separator s 0) eqn:E; try discriminate.
      injection H as <-. apply IH in E. simpl. lia.
  - destruct (find_first_sep_from is_path_separator s pos) eqn:E; try discriminate.
    injection H as <-. apply IH in E. simpl. lia.
Qed.

Lemma next_pos_bounds (s : wstring) (pos n : nat) :
  next_pos s pos = Some n -> pos < n < length s.
Proof.
  unfold next_pos.
  destruct (find_first_sep_from is_path_separator s (pos + 1)) eqn:E; try discriminate.
  destruct (n0 =? length s); try discriminate.
  intros H. injection H as <-. apply find_first_sep_from_bounds in E. lia.
Qed.

Lemma substr_then_rest (s : wstring) (pos n : nat) :
  pos <= n -> substr s pos (n - pos) ++ skipn n s = skipn pos s.
Proof.
  intros L. unfold substr.
  replace (skipn n s) with (skipn (n - pos) (skipn pos s)).
  - apply firstn_skipn.
  - rewrite skipn_skipn. f_equal. lia.
Qed.

Section ResolverProperties.

Variable os : OS.
Variable gl : Globals.

(** The loop appends the whole rest of the relative path, whatever
    [CreateDirectory] answers. *)
Lemma GenerateRedirectedPath_loop_value (w : World os) (relativePath : wstring)
    (pos : nat) (result : wstring) :
  fst (GenerateRedirectedPath_loop os w relativePath pos result)
  = result ++ skipn pos relativePath.
Proof.
  funelim (GenerateRedirectedPath_loop os w relativePath pos result).
  - cbn [fst]. apply Nat.ltb_ge in Heq. rewrite skipn_all2 by exact Heq.
    rewrite app_nil_r. reflexivity.
  - rewrite H.
    rewrite <- app_assoc. rewrite substr_then_rest; [reflexivity|].
    pose proof (next_pos_bounds _ _ e) as B. lia.
  - reflexivity.
Qed.

Lemma GenerateRedirectedPath_value (w : World os) (relativePath : wstring)
    (ensure : bool) (result : wstring) :
  fst (GenerateRedirectedPath os w relativePath ensure result)
  = result ++ relativePath.
Proof.
  unfold GenerateRedirectedPath. destruct ensure; [|reflexivity].
  apply GenerateRedirectedPath_loop_value.
Qed.

(** [RedirectedPath] returns the base followed by the relative path; the
    file system decides only which directories get created on the way. *)
Lemma RedirectedPath_value (w : World os) (p : normalized_path) (ensure : bool)
    (target relativePath : wstring) :
  redirect_relativePath gl p target = Returned relativePath ->
  exists w', RedirectedPath os gl w p ensure target
             = Returned (redirect_basePath gl target ++ relativePath, w').
Proof.
  intros H. unfold RedirectedPath. rewrite H.
  destruct (PathExists os w (redirect_basePath gl target ++ relativePath)).
  - exists w. reflexivity.
  - exists (snd (GenerateRedirectedPath os w relativePath ensure
                   (redirect_basePath gl target))).
    rewrite <- (GenerateRedirectedPath_value w relativePath ensure
                  (redirect_basePath gl target)).
    destruct (GenerateRedirectedPath os w relativePath ensure
                (redirect_basePath gl target)). reflexivity.
Qed.

Lemma RedirectedPath_no_ensure (w : World os) (p : normalized_path)
    (target relativePath : wstring) :
  redirect_relativePath gl p target = Returned relativePath ->
  RedirectedPath os gl w p false target
  = Returned (redirect_basePath gl target ++ relativePath, w).
Proof.
  intros H. unfold RedirectedPath. rewrite H.
  destruct (PathExists os w (redirect_basePath gl target ++ relativePath));
    reflexivity.
Qed.

(** The in-package case: the tail is what follows the first characters of
    the full path, as many as the package root has for a drive-absolute
    source and as the final package root has otherwise. *)
Lemma redirect_relativePath_in_package (p : normalized_path) (target : wstring)
    (pre tail : wstring) :
  target_in_package gl p = true ->
  full_path p = pre ++ tail ->
  length pre
  = (if dos_path_type_eqb (path_type (lowercase (full_path p))) drive_absolute
     then length (g_packageRootPath gl)
     else length (g_finalPackageRootPath gl)) ->
  redirect_relativePath gl p target
  = Returned (if wcsicmp_eq target (g_writablePackageRootPath gl)
              then tail
              else "\PackageCache\" ++ current_package_family_name gl ++ tail).
Proof.
  intros Hin Hfull Hlen. unfold redirect_relativePath. rewrite Hin, <- Hlen.
  unfold substr_from. rewrite Hfull, length_app.
  destruct (length pre + length tail <? length pre) eqn:L;
    [apply Nat.ltb_lt in L; lia|].
  rewrite skipn_app_length.
  destruct (wcsicmp_eq target (g_writablePackageRootPath gl)); reflexivity.
Qed.

(** The out-of-package case: the drive letter is kept and its colon becomes
    a dollar sign. *)
Lemma redirect_relativePath_outside (p : normalized_path) (target : wstring)
    (drive colon : ascii) (remaining : wstring) :
  target_in_package gl p = false ->
  dap p = Some (drive :: colon :: remaining) ->
  redirect_relativePath gl p target
  = Returned ("\" ++ (if wcsicmp_eq target (g_redirectRootPath gl)
                      then "\" ++ [drive] ++ "$" ++ remaining
                      else "PackageCache\" ++ current_package_family_name gl
                             ++ "\VFS\PackageDrive\" ++ [drive] ++ "$" ++ remaining)).
Proof.
  intros Hout Hd. unfold redirect_relativePath. rewrite Hout, Hd.
  destruct (wcsicmp_eq target (g_redirectRootPath gl)); [reflexivity|].
  cbn [app list_ascii_of_string]. rewrite <- !app_assoc. reflexivity.
Qed.

End ResolverProperties.

(** The drive-letter escaping scenario of section 8. *)
Example drive_letter_escaping :
  ShouldRedirect (demo_os "C:\work") demo_globals demo_regex_match [users_spec] []
    (Some ("D:\Users\me\file.txt" : wstring)) no_flags
  = Returned
      ({| should_redirect := true;
          redirect_path :=
            "\\?\C:\Users\me\AppData\Local\Packages\App_pfn\LocalCache\Local\VFS"
              ++ "\" ++ "\D$\Users\me\file.txt";
          shouldReadonly := false |}, []).
Proof. vm_compute. reflexivity. Qed.

(** The two in-package mappings: a drive-absolute source with the default
    target, and a root-local-device source with a configured target. *)
Example in_package_mapping :
  RedirectedPath (demo_os "C:\work") demo_globals []
    {| full_path := "C:\Program Files\WindowsApps\App\data\x.txt";
       drive_absolute_path := Some 0 |}
    false (g_writablePackageRootPath demo_globals)
  = Returned ("\\?\" ++ g_writablePackageRootPath demo_globals ++ "\data\x.txt", [])
  /\ RedirectedPath (demo_os "C:\work") demo_globals []
       {| full_path := "\\?\C:\Program Files\WindowsApps\App\data\x.txt";
          drive_absolute_path := Some 4 |}
       false "H:\Home\"
     = Returned ("\\?\H:\Home" ++ "\PackageCache\App_pfn" ++ "\data\x.txt", []).
Proof. split; vm_compute; reflexivity. Qed.

(** C4: the in-package test is a substring search for the package root, so
    the sibling directory [App2] of the package root [App] is taken for a
    source inside the package although it does not lie under the package
    root, and the tail cut after the length of the package root is
    [2\data.txt]: the destination leaves the writable root. *)
Theorem in_package_case_taken_for_sibling :
  lies_under (g_packageRootPath demo_globals) sibling_file = false
  /\ target_in_package demo_globals
       {| full_path := sibling_file; drive_absolute_path := Some 0 |} = true
  /\ ShouldRedirect (demo_os "C:\work") demo_globals demo_regex_match
       [sibling_spec_writable] [] (Some sibling_file) no_flags
     = Returned
         ({| should_redirect := true;
             redirect_path :=
               "\\?\" ++ g_writablePackageRootPath demo_globals ++ "2\data.txt";
             shouldReadonly := false |}, []).
Proof.
  split; [reflexivity|]. split; [reflexivity|]. vm_compute. reflexivity.
Qed.

(** C5: a source in the sibling directory [App2] is outside the package
    root and matched by an inclusion rule whose target is the redirect root,
    yet its destination is not built from the drive letter: the in-package
    test finds the package root as a substring, and the tail is
    [\PackageCache\App_pfn2\data.txt]. *)
Theorem sibling_source_loses_drive_letter :
  lies_under (g_packageRootPath demo_globals) sibling_file = false
  /\ ShouldRedirect (demo_os "C:\work") demo_globals demo_regex_match
       [sibling_spec_redirect] [] (Some sibling_file) no_flags
     = Returned
         ({| should_redirect := true;
             redirect_path :=
               "\\?\" ++ g_redirectRootPath demo_globals
                 ++ "\PackageCache\App_pfn2\data.txt";
             shouldReadonly := false |}, [])
  /\ "\\?\" ++ g_redirectRootPath demo_globals ++ "\PackageCache\App_pfn2\data.txt"
     <> "\\?\" ++ g_redirectRootPath demo_globals ++ "\"
          ++ "\C$\Program Files\WindowsApps\App2\data.txt".
Proof.
  split; [reflexivity|]. split; [vm_compute; reflexivity|].
  vm_compute. discriminate.
Qed.

(** ** C6, C7: presence check and copy on redirect *)

Section AfterMatch.

Variable os : OS.
Variable gl : Globals.
Variable pattern : Type.
Variable regex_match : wstring -> pattern -> bool.
Variable g_redirectionSpecs : list (path_redirection_spec pattern).

(** What [ShouldRedirectImpl] does once the rule loop has returned a
    redirect: [info] and [w1] are the result and the world the loop leaves,
    [vfs_dap] and [norm_dap] the drive-absolute forms of the virtualised and
    of the devirtualised path. *)
Lemma ShouldRedirectImpl_after_match (w w1 : World os) (p : wstring)
    (flags : redirect_flags) (info : path_redirect_info)
    (d0 vfs_dap norm_dap : wstring) :
  dap (NormalizePath os (Some p)) = Some d0 ->
  redirectSpec_loop os gl regex_match w
    (VirtualizePath gl (NormalizePath os (Some p))) flags g_redirectionSpecs
    default_redirect_info
  = Returned (info, w1) ->
  should_redirect info = true ->
  dap (VirtualizePath gl (NormalizePath os (Some p))) = Some vfs_dap ->
  dap (DeVirtualizePath gl (NormalizePath os (Some p))) = Some norm_dap ->
  ShouldRedirectImpl os gl regex_match g_redirectionSpecs w (Some p) flags
  = if check_file_presence flags
       && nowhere_present os w1 (redirect_path info) vfs_dap norm_dap
    then Returned ({| should_redirect := false; redirect_path := [];
                      shouldReadonly := shouldReadonly info |}, w1)
    else if copy_file flags
    then Returned (info, copy_to_redirected os w1 norm_dap vfs_dap (redirect_path info))
    else Returned (info, w1).
Proof.
  intros Hd Hloop Hred Hv Hn. unfold ShouldRedirectImpl.
  rewrite Hd, Hloop, Hred, Hv, Hn. reflexivity.
Qed.

End AfterMatch.

(** C6: with the presence check requested and an inclusion rule matched,
    the decision is retracted (no redirect, empty redirect path) exactly
    when none of the computed destination, the virtualised path and the
    devirtualised path exists; otherwise the computed decision is
    returned. *)
Theorem presence_check_retracts :
  forall (os : OS) (gl : Globals) (pattern : Type)
         (regex_match : wstring -> pattern -> bool)
         (specs : list (path_redirection_spec pattern))
         (w w1 : World os) (p : wstring) (flags : redirect_flags)
         (info : path_redirect_info) (d0 vfs_dap norm_dap : wstring),
    dap (NormalizePath os (Some p)) = Some d0 ->
    redirectSpec_loop os gl regex_match w
      (VirtualizePath gl (NormalizePath os (Some p))) flags specs
      default_redirect_info
    = Returned (info, w1) ->
    should_redirect info = true ->
    dap (VirtualizePath gl (NormalizePath os (Some p))) = Some vfs_dap ->
    dap (DeVirtualizePath gl (NormalizePath os (Some p))) = Some norm_dap ->
    check_file_presence flags = true ->
    exists (result : path_redirect_info) (w2 : World os),
      ShouldRedirect os gl regex_match specs w (Some p) flags = Returned (result, w2)
      /\ (should_redirect result = false
          <-> nowhere_present os w1 (redirect_path info) vfs_dap norm_dap = true)
      /\ (nowhere_present os w1 (redirect_path info) vfs_dap norm_dap = true ->
          should_redirect result = false /\ redirect_path result = [] /\ w2 = w1)
      /\ (nowhere_present os w1 (redirect_path info) vfs_dap norm_dap = false ->
          result = info).
Proof.
  intros os gl pattern regex_match specs w w1 p flags info d0 vfs_dap norm_dap
    Hd Hloop Hred Hv Hn Hc.
  unfold ShouldRedirect.
  rewrite (@ShouldRedirectImpl_after_match os gl pattern regex_match specs
             w w1 p flags info d0 vfs_dap norm_dap Hd Hloop Hred Hv Hn).
  rewrite Hc. cbn [andb].
  destruct (nowhere_present os w1 (redirect_path info) vfs_dap norm_dap).
  - eexists. eexists. split; [reflexivity|]. cbn.
    split; [tauto|]. split; [intros _; repeat split | discriminate].
  - destruct (copy_file flags); eexists; eexists; (split; [reflexivity|]);
      rewrite Hred; (split; [split; discriminate|]);
      (split; [discriminate | reflexivity]).
Qed.

Lemma presence_check_retracts_witness :
  exists (result : path_redirect_info) (w2 : demo_world),
    ShouldRedirect (demo_os "C:\work") demo_globals demo_regex_match demo_specs
      [] (Some ("C:\X\b\data.txt" : wstring)) check_only
    = Returned (result, w2)
    /\ (should_redirect result = false
        <-> nowhere_present (demo_os "C:\work") [] demo_destination
              "C:\X\b\data.txt" "C:\X\b\data.txt" = true)
    /\ (nowhere_present (demo_os "C:\work") [] demo_destination
          "C:\X\b\data.txt" "C:\X\b\data.txt" = true ->
        should_redirect result = false /\ redirect_path result = [] /\ w2 = [])
    /\ (nowhere_present (demo_os "C:\work") [] demo_destination
          "C:\X\b\data.txt" "C:\X\b\data.txt" = false ->
        result = {| should_redirect := true; redirect_path := demo_destination;
                    shouldReadonly := false |}).
Proof.
  apply (@presence_check_retracts (demo_os "C:\work") demo_globals regex
           demo_regex_match demo_specs [] []
           ("C:\X\b\data.txt" : wstring) check_only
           {| should_redirect := true; redirect_path := demo_destination;
              shouldReadonly := false |}
           ("C:\X\b\data.txt" : wstring) ("C:\X\b\data.txt" : wstring)
           ("C:\X\b\data.txt" : wstring));
    vm_compute; reflexivity.
Defined.

(** C7: with copy-on-redirect requested and the decision not retracted, the
    caller receives the computed decision and destination whatever the copy
    answers.  When the destination does not exist, the source is the
    virtualised path if that exists and the devirtualised path otherwise; a
    source that is not a directory is copied with the fail-if-exists flag, a
    directory is created from the source as template; an existing
    destination is left alone.  The destination itself is the base followed
    by the relative path whatever the directory creation answers. *)
Theorem copy_on_redirect_keeps_decision :
  forall (os : OS) (gl : Globals) (pattern : Type)
         (regex_match : wstring -> pattern -> bool)
         (specs : list (path_redirection_spec pattern))
         (w w1 : World os) (p : wstring) (flags : redirect_flags)
         (info : path_redirect_info) (d0 vfs_dap norm_dap : wstring),
    dap (NormalizePath os (Some p)) = Some d0 ->
    redirectSpec_loop os gl regex_match w
      (VirtualizePath gl (NormalizePath os (Some p))) flags specs
      default_redirect_info
    = Returned (info, w1) ->
    should_redirect info = true ->
    dap (VirtualizePath gl (NormalizePath os (Some p))) = Some vfs_dap ->
    dap (DeVirtualizePath gl (NormalizePath os (Some p))) = Some norm_dap ->
    copy_file flags = true ->
    check_file_presence flags
    && nowhere_present os w1 (redirect_path info) vfs_dap norm_dap = false ->
    ShouldRedirect os gl regex_match specs w (Some p) flags
    = Returned (info,
        if PathExists os w1 (redirect_path info) then w1
        else
          let source := if PathExists os w1 vfs_dap then vfs_dap else norm_dap in
          if negb (N.eqb (N.land (GetFileAttributes os w1 source)
                            FILE_ATTRIBUTE_DIRECTORY)
                     FILE_ATTRIBUTE_DIRECTORY)
          then fst (CopyFileEx os w1 source (redirect_path info)
                      (N.lor COPY_FILE_FAIL_IF_EXISTS COPY_FILE_NO_BUFFERING))
          else fst (CreateDirectoryEx os w1 source (redirect_path info)))
    /\ N.testbit (N.lor COPY_FILE_FAIL_IF_EXISTS COPY_FILE_NO_BUFFERING) 0 = true
    /\ (forall (w0 : World os) (vfspath : normalized_path) (ensure : bool)
               (target relativePath : wstring),
           redirect_relativePath gl vfspath target = Returned relativePath ->
           exists w', RedirectedPath os gl w0 vfspath ensure target
                      = Returned (redirect_basePath gl target ++ relativePath, w')).
Proof.
  intros os gl pattern regex_match specs w w1 p flags info d0 vfs_dap norm_dap
    Hd Hloop Hred Hv Hn Hc Hkeep.
  split; [|split].
  - unfold ShouldRedirect.
    rewrite (@ShouldRedirectImpl_after_match os gl pattern regex_match specs
               w w1 p flags info d0 vfs_dap norm_dap Hd Hloop Hred Hv Hn).
    rewrite Hkeep, Hc. reflexivity.
  - reflexivity.
  - intros w0 vfspath ensure target relativePath H.
    apply RedirectedPath_value. exact H.
Qed.

Lemma copy_on_redirect_keeps_decision_witness :
  ShouldRedirect (demo_os "C:\work") demo_globals demo_regex_match demo_specs
    [("C:\X\b\data.txt" : wstring, false)] (Some ("C:\X\b\data.txt" : wstring))
    copy_and_check
  = Returned ({| should_redirect := true; redirect_path := demo_destination;
                 shouldReadonly := false |},
              [(demo_destination, false); ("C:\X\b\data.txt" : wstring, false)]).
Proof.
  exact (proj1 (@copy_on_redirect_keeps_decision (demo_os "C:\work") demo_globals
                  regex demo_regex_match demo_specs
                  [("C:\X\b\data.txt" : wstring, false)]
                  [("C:\X\b\data.txt" : wstring, false)]
                  ("C:\X\b\data.txt" : wstring) copy_and_check
                  {| should_redirect := true; redirect_path := demo_destination;
                     shouldReadonly := false |}
                  ("C:\X\b\data.txt" : wstring) ("C:\X\b\data.txt" : wstring)
                  ("C:\X\b\data.txt" : wstring)
                  eq_refl eq_refl eq_refl eq_refl eq_refl eq_refl eq_refl)).
Defined.

(** A copy that fails changes nothing in what the caller receives: nothing
    exists, so the source has no attributes, the creation of the destination
    from it fails and leaves the file system as it was, and the decision and
    the destination are those of the successful case. *)
Example failed_copy_still_redirects :
  ShouldRedirect (demo_os "C:\work") demo_globals demo_regex_match demo_specs
    [] (Some ("C:\X\b\data.txt" : wstring)) copy_only
  = Returned ({| should_redirect := true; redirect_path := demo_destination;
                 shouldReadonly := false |}, []).
Proof. vm_compute. reflexivity. Qed.

(** * Further properties of the engine *)

(** ** The normaliser *)

Lemma dos_path_type_eqb_eq (a b : dos_path_type) :
  dos_path_type_eqb a b = true -> a = b.
Proof. destruct a, b; simpl; congruence. Qed.

Lemma c_str_id (s : wstring) : ~ In NUL s -> c_str s = s.
Proof.
  induction s as [|c s IH]; intros H; [reflexivity|]. cbn [c_str].
  destruct (ascii_eqb c NUL) eqn:E.
  - exfalso. apply H. left. apply ascii_eqb_eq in E. congruence.
  - rewrite IH; [reflexivity|]. intros Hin. apply H. right. exact Hin.
Qed.

(** On a C string, [UrlDecode_c_str_loop] is [c_str] of [UrlDecode_loop]. *)
Lemma UrlDecode_c_str_loop_spec (n : nat) :
  forall (s : wstring) (ii : N),
    length s <= n -> ~ In NUL s ->
    UrlDecode_c_str_loop ii s = c_str (UrlDecode_loop ii s).
Proof.
  induction n as [|n IH]; intros s ii L H.
  - destruct s; [reflexivity | simpl in L; lia].
  - destruct s as [|c s]; [reflexivity|].
    cbn [UrlDecode_c_str_loop UrlDecode_loop].
    destruct (negb (ascii_eqb c "%")) eqn:P.
    + cbn [c_str].
      destruct (ascii_eqb c NUL) eqn:E.
      { exfalso. apply H. left. apply ascii_eqb_eq in E. congruence. }
      f_equal. apply IH; [simpl in L; lia|].
      intros Hin. apply H. right. exact Hin.
    + destruct s as [|a [|b s]]; cbv zeta; cbn [c_str];
        try (destruct (ascii_eqb _ NUL); reflexivity).
      destruct (ascii_eqb (ascii_of_N (scan_hex [a; b] ii mod 256)) NUL);
        [reflexivity|].
      f_equal. apply IH; [simpl in L; lia|].
      intros Hin. apply H. right. right. right. exact Hin.
Qed.

Lemma c_str_prefix (lit s : wstring) :
  ~ In NUL lit -> std_equal ascii_eqb lit s = true ->
  c_str s = lit ++ c_str (skipn (length lit) s).
Proof.
  revert s. induction lit as [|x lit IH]; intros s H E; [reflexivity|].
  destruct s as [|y s]; [discriminate|]. cbn [std_equal] in E.
  apply andb_true_iff in E. destruct E as [E1 E2].
  apply ascii_eqb_eq in E1. subst y. cbn [c_str length skipn app].
  destruct (ascii_eqb x NUL) eqn:N.
  - exfalso. apply H. left. apply ascii_eqb_eq in N. congruence.
  - f_equal. apply IH; [|exact E2]. intros Hin. apply H. right. exact Hin.
Qed.

Lemma std_equal_c_str (lit s : wstring) :
  ~ In NUL lit ->
  std_equal ascii_eqb lit (c_str s) = std_equal ascii_eqb lit s.
Proof.
  revert s. induction lit as [|x lit IH]; intros s H; [reflexivity|].
  destruct s as [|y s]; [reflexivity|]. cbn [c_str].
  destruct (ascii_eqb y NUL) eqn:N.
  - apply ascii_eqb_eq in N. subst y. cbn [std_equal].
    destruct (ascii_eqb x NUL) eqn:X; [|reflexivity].
    exfalso. apply H. left. apply ascii_eqb_eq in X. congruence.
  - cbn [std_equal]. f_equal. apply IH. intros Hin. apply H. right. exact Hin.
Qed.

Lemma literal_without_NUL (lit : wstring) :
  forallb (fun c => negb (ascii_eqb c NUL)) lit = true -> ~ In NUL lit.
Proof.
  intros F Hin. rewrite forallb_forall in F. specialize (F NUL Hin).
  discriminate.
Qed.

(** [StripFileColonSlash] and [c_str] commute. *)
Lemma c_str_StripFileColonSlash (s : wstring) :
  c_str (StripFileColonSlash s) = StripFileColonSlash (c_str s).
Proof.
  rewrite !StripFileColonSlash_prefixes.
  rewrite !std_equal_c_str by (apply literal_without_NUL; reflexivity).
  destruct (std_equal ascii_eqb "file:\" s) eqn:E1.
  { cbn [orb]. rewrite (c_str_prefix "file:\" s)
      by (try apply literal_without_NUL; try reflexivity; exact E1).
    reflexivity. }
  destruct (std_equal ascii_eqb "file:/" s) eqn:E2.
  { cbn [orb]. rewrite (c_str_prefix "file:/" s)
      by (try apply literal_without_NUL; try reflexivity; exact E2).
    reflexivity. }
  destruct (std_equal ascii_eqb "FILE:\" s) eqn:E3.
  { cbn [orb]. rewrite (c_str_prefix "FILE:\" s)
      by (try apply literal_without_NUL; try reflexivity; exact E3).
    reflexivity. }
  destruct (std_equal ascii_eqb "FILE:/" s) eqn:E4.
  { cbn [orb]. rewrite (c_str_prefix "FILE:/" s)
      by (try apply literal_without_NUL; try reflexivity; exact E4).
    reflexivity. }
  reflexivity.
Qed.

(** The string [NormalizePath] hands to [NormalizePathImpl] is, for every
    C string, the text of the source: [UrlDecode], then
    [StripFileColonSlash], then [c_str()]. *)
Lemma NormalizePath_reads_c_str (os : OS) (p : wstring) :
  ~ In NUL p ->
  StripFileColonSlash (UrlDecode_c_str os p)
  = c_str (StripFileColonSlash (UrlDecode os p)).
Proof.
  intros H. rewrite c_str_StripFileColonSlash. f_equal.
  apply (@UrlDecode_c_str_loop_spec (length p) p (uninit_ii os) (le_n _) H).
Qed.

(** X2: an input that begins with the root-local-device prefix is never
    handed to the canonicalisation facility, but it is percent-decoded, and
    an escape that decodes to NUL ends it: the full path is the prefix
    followed by the decoded rest up to the first such escape, and the
    drive-absolute form is what follows the prefix if that is
    drive-absolute. *)
Theorem root_local_device_decoded_not_canonicalised :
  forall (os : OS) (rest : wstring),
    NormalizePath os (Some ("\\?\" ++ rest))
    = locate_drive_absolute ("\\?\" ++ UrlDecode_c_str os rest) root_local_device
    /\ (~ In NUL rest -> UrlDecode_c_str os rest = c_str (UrlDecode os rest))
    /\ forall a b : wstring,
         ~ In "%"%char a ->
         UrlDecode_c_str os (a ++ "%00" ++ b) = a.
Proof.
  intros os rest. split; [|split].
  - cbn [app list_ascii_of_string NormalizePath].
    assert (G : IsColonColonGuid
                  ("\"%char :: "\"%char :: "?"%char :: "\"%char :: rest) = false).
    { unfold IsColonColonGuid. destruct (39 <? _); reflexivity. }
    assert (B : IsBlobColon
                  ("\"%char :: "\"%char :: "?"%char :: "\"%char :: rest) = false).
    { unfold IsBlobColon. rewrite !found_at_0_find. reflexivity. }
    rewrite G, B. unfold UrlDecode_c_str.
    rewrite !UrlDecode_c_str_loop_head by reflexivity.
    rewrite StripFileColonSlash_prefixes. cbn [std_equal ascii_eqb orb].
    replace (std_equal ascii_eqb "file:\" _) with false by reflexivity.
    replace (std_equal ascii_eqb "file:/" _) with false by reflexivity.
    replace (std_equal ascii_eqb "FILE:\" _) with false by reflexivity.
    replace (std_equal ascii_eqb "FILE:/" _) with false by reflexivity.
    cbn [orb]. reflexivity.
  - intros H.
    apply (@UrlDecode_c_str_loop_spec (length rest) rest (uninit_ii os) (le_n _) H).
  - intros a b H. unfold UrlDecode_c_str. generalize (uninit_ii os).
    induction a as [|c a IH]; intros ii.
    + reflexivity.
    + rewrite <- app_comm_cons, UrlDecode_c_str_loop_head.
      * f_equal. apply IH. intros Hin. apply H. right. exact Hin.
      * destruct (ascii_eqb c "%") eqn:E; [|reflexivity].
        exfalso. apply H. left. apply ascii_eqb_eq in E. congruence.
Qed.

Lemma root_local_device_decoded_not_canonicalised_witness :
  UrlDecode_c_str (demo_os "C:\work") ("C:\a" ++ "%00" ++ "b") = "C:\a".
Proof.
  apply (proj2 (proj2 (root_local_device_decoded_not_canonicalised
                         (demo_os "C:\work") [])) ("C:\a" : wstring) ("b" : wstring)).
  vm_compute. intuition discriminate.
Defined.

(** The NUL that an escape decodes to ends the path. *)
Example decoded_NUL_ends_the_path :
  NormalizePath (demo_os "C:\work") (Some ("\\?\C:\a%00b" : wstring))
  = {| full_path := "\\?\C:\a"; drive_absolute_path := Some 4 |}.
Proof. reflexivity. Qed.

Lemma scan_hex_encoded (upper : bool) (c : ascii) (ii : N) :
  scan_hex [hex_char upper (N_of_ascii c / 16);
            hex_char upper (N_of_ascii c mod 16)] ii
  = N_of_ascii c.
Proof.
  destruct upper; destruct c as [[] [] [] [] [] [] [] []]; reflexivity.
Qed.

Lemma ascii_of_byte_value (c : ascii) : ascii_of_N (N_of_ascii c mod 256) = c.
Proof. destruct c as [[] [] [] [] [] [] [] []]; reflexivity. Qed.

(** X3: [UrlDecode(std::string)] undoes percent-encoding: a string in
    which every byte is written as [%XY], with upper-case or lower-case
    digits, decodes to the original string, whatever the uninitialised
    local starts with.  (For the [wchar_t] overload this is the case of
    code units below 0x80.) *)
Theorem UrlDecode_percent_encode :
  forall (os : OS) (upper : bool) (s : wstring),
    UrlDecode os (percent_encode upper s) = s.
Proof.
  intros os upper s. unfold UrlDecode. generalize (uninit_ii os).
  induction s as [|c s IH]; intros ii; [reflexivity|].
  cbn [percent_encode flat_map app UrlDecode_loop].
  replace (ascii_eqb "%" "%") with true by reflexivity. cbn [negb].
  rewrite scan_hex_encoded, ascii_of_byte_value. f_equal. apply IH.
Qed.

Lemma UrlDecode_loop_length (n : nat) :
  forall (s : wstring) (ii : N),
    length s <= n -> length (UrlDecode_loop ii s) <= length s.
Proof.
  induction n as [|n IH]; intros s ii L.
  - destruct s; [simpl; lia | simpl in L; lia].
  - destruct s as [|c s]; [simpl; lia|]. cbn [UrlDecode_loop].
    destruct (negb (ascii_eqb c "%")).
    + simpl in *. apply le_n_S, IH. lia.
    + destruct s as [|a [|b s]]; simpl in *; try lia.
      apply le_n_S. etransitivity; [apply IH; lia | lia].
Qed.

(** X4: decoding never lengthens a string, leaves a string without a
    percent sign as it is, and shortens by two every string that starts
    with a percent sign and two further characters. *)
Theorem UrlDecode_length :
  forall (os : OS) (s : wstring),
    length (UrlDecode os s) <= length s
    /\ (~ In "%"%char s -> UrlDecode os s = s)
    /\ (forall a b rest,
           s = "%"%char :: a :: b :: rest ->
           length (UrlDecode os s) + 2 <= length s).
Proof.
  intros os s. unfold UrlDecode. split; [|split].
  - apply (@UrlDecode_loop_length (length s)). lia.
  - apply UrlDecode_loop_plain.
  - intros a b rest ->. cbn [UrlDecode_loop].
    replace (ascii_eqb "%" "%") with true by reflexivity. cbn [negb length].
    pose proof (@UrlDecode_loop_length (length rest) rest
                  (scan_hex [a; b] (uninit_ii os)) (le_n _)). lia.
Qed.

(** What follows the percent sign is read as [sscanf] reads [%x]: a sign
    and white space are accepted, and a conversion without a digit leaves
    the value of the escape before it. *)
Example UrlDecode_reads_as_scanf :
  forall os : OS,
    UrlDecode os "%-1" = [ascii_of_N 255]
    /\ UrlDecode os "% 4" = [ascii_of_N 4]
    /\ UrlDecode os "%41%zz" = [ "A"%char; "A"%char ].
Proof. intros os. repeat split. Qed.

(** X5: [StripFileColonSlash] removes the first six characters exactly when
    the string begins with [file:\], [file:/], [FILE:\] or [FILE:/], and
    returns every other string unchanged; a prefix in mixed case such as
    [File:\] is therefore kept, and only one prefix is removed. *)
Theorem StripFileColonSlash_cases :
  forall s : wstring,
    ((exists rest, s = "file:\" ++ rest) \/ (exists rest, s = "file:/" ++ rest)
     \/ (exists rest, s = "FILE:\" ++ rest) \/ (exists rest, s = "FILE:/" ++ rest)
     -> StripFileColonSlash s = skipn 6 s /\ length s = 6 + length (StripFileColonSlash s))
    /\ (~ ((exists rest, s = "file:\" ++ rest) \/ (exists rest, s = "file:/" ++ rest)
           \/ (exists rest, s = "FILE:\" ++ rest) \/ (exists rest, s = "FILE:/" ++ rest))
        -> StripFileColonSlash s = s)
    /\ StripFileColonSlash ("File:\" ++ s) = "File:\" ++ s
    /\ StripFileColonSlash ("file:\" ++ "file:\" ++ s) = "file:\" ++ s.
Proof.
  intros s. rewrite StripFileColonSlash_prefixes.
  split; [|split; [|split]].
  - intros H.
    assert (E : std_equal ascii_eqb "file:\" s || std_equal ascii_eqb "file:/" s
                || std_equal ascii_eqb "FILE:\" s || std_equal ascii_eqb "FILE:/" s
                = true).
    { rewrite !orb_true_iff, !std_equal_eqb_prefix. tauto. }
    rewrite E. split; [reflexivity|].
    destruct H as [[r ->] | [[r ->] | [[r ->] | [r ->]]]]; reflexivity.
  - intros H.
    destruct (std_equal ascii_eqb "file:\" s || std_equal ascii_eqb "file:/" s
              || std_equal ascii_eqb "FILE:\" s || std_equal ascii_eqb "FILE:/" s)
      eqn:E; [|reflexivity].
    exfalso. apply H. rewrite !orb_true_iff, !std_equal_eqb_prefix in E. tauto.
  - rewrite StripFileColonSlash_prefixes. reflexivity.
  - rewrite StripFileColonSlash_prefixes. reflexivity.
Qed.

Lemma UrlDecode_length_witness :
  UrlDecode (demo_os "C:\work") "C:\a b" = "C:\a b"
  /\ length (UrlDecode (demo_os "C:\work") "%41bc") + 2 <= length ("%41bc" : wstring).
Proof.
  split.
  - apply (proj1 (proj2 (UrlDecode_length (demo_os "C:\work") "C:\a b"))).
    vm_compute. intuition discriminate.
  - apply (proj2 (proj2 (UrlDecode_length (demo_os "C:\work") "%41bc"))
             "4"%char "1"%char ("bc" : wstring)).
    reflexivity.
Defined.

Lemma StripFileColonSlash_cases_witness :
  StripFileColonSlash "file:/C:/x" = skipn 6 ("file:/C:/x" : wstring)
  /\ length ("file:/C:/x" : wstring) = 6 + length (StripFileColonSlash "file:/C:/x").
Proof.
  apply (proj1 (StripFileColonSlash_cases "file:/C:/x")).
  right. left. exists ("C:/x" : wstring). reflexivity.
Defined.

(** ** The VFS mapping *)


Section VfsFurther.

Variable gl : Globals.


Hypothesis wf : vfs_table_wf gl = true.

(** The path [VirtualizePath] writes for an entry and a relative
    remainder, and its place under the package root. *)
Lemma virtualized_path_shape (m : vfs_folder_mapping) (r : wstring) :
  In m (g_vfsFolderMappings gl) ->
  plain_relative r = true ->
  g_packageVfsRootPath gl </> package_vfs_relative_path m </> r
  = g_packageRootPath gl ++ "\VFS" ++ "\" ++ package_vfs_relative_path m ++ "\" ++ r.
Proof.
  intros Hin Hr.
  destruct (vfs_table_wf_spec gl wf) as (R & V & T & _).
  destruct (T m Hin) as (_ & Cm & Pm).
  destruct (component_name_spec _ Cm) as (Nm & _ & Em).
  assert (DV : drive_dir (g_packageRootPath gl ++ "\VFS") = true)
    by (apply drive_dir_app; [exact R | discriminate | reflexivity]).
  rewrite V, (path_append_drive_dir _ _ DV Pm).
  rewrite path_append_drive_dir;
    [| apply drive_dir_app;
       [exact DV | discriminate
        | rewrite ends_with_slash_app by exact Nm; exact Em]
     | exact Hr].
  rewrite <- !app_assoc. reflexivity.
Qed.



Lemma VirtualizePath_selected (p : normalized_path) (m : vfs_folder_mapping) :
  in_package_root gl p = false ->
  virtualize_choice gl (full_path p) = Some m ->
  VirtualizePath gl p
  = {| full_path := g_packageVfsRootPath gl </> package_vfs_relative_path m
                      </> vfs_relative_remainder m (full_path p);
       drive_absolute_path := Some 0 |}.
Proof.
  intros Hout Hch. unfold VirtualizePath. rewrite Hout, Virtualize_loop_find.
  unfold virtualize_choice in Hch. rewrite Hch. reflexivity.
Qed.

End VfsFurther.




(** The entries [AppVSystem32Catroot] and [AppVSystem32Catroot2]: the
    shorter shadow name is a prefix of the longer one and precedes it in the
    table, and is passed over. *)
Example catroot2_is_not_catroot :
  DeVirtualizePath demo_globals
    {| full_path := g_packageVfsRootPath demo_globals ++ "\AppVSystem32Catroot2\x.cat";
       drive_absolute_path := Some 0 |}
  = {| full_path := "C:\Windows\System32\catroot2\x.cat";
       drive_absolute_path := Some 0 |}.
Proof. reflexivity. Qed.

(** X7: for a table that satisfies its invariants, and when the remainder
    kept after the selected real path is a relative path, [VirtualizePath]
    either returns its argument or a path under the package root, and
    applying it twice is applying it once. *)
Theorem VirtualizePath_idempotent :
  forall (gl : Globals) (p : normalized_path),
    vfs_table_wf gl = true ->
    (forall m, virtualize_choice gl (full_path p) = Some m ->
               plain_relative (vfs_relative_remainder m (full_path p)) = true) ->
    (VirtualizePath gl p = p \/ in_package_root gl (VirtualizePath gl p) = true)
    /\ VirtualizePath gl (VirtualizePath gl p) = VirtualizePath gl p.
Proof.
  intros gl p wf Hplain.
  destruct (in_package_root gl p) eqn:Hin.
  { assert (E : VirtualizePath gl p = p) by (unfold VirtualizePath; rewrite Hin; reflexivity).
    split; [left; exact E | rewrite !E; reflexivity]. }
  destruct (virtualize_choice gl (full_path p)) as [m|] eqn:Hch.
  - assert (Hm : In m (g_vfsFolderMappings gl)).
    { apply in_rev. unfold virtualize_choice in Hch. apply find_some in Hch. tauto. }
    rewrite (@VirtualizePath_selected gl p m Hin Hch).
    rewrite (@virtualized_path_shape gl wf m _ Hm (Hplain m eq_refl)).
    assert (Hroot : in_package_root gl
                      {| full_path := g_packageRootPath gl ++ "\VFS" ++ "\"
                                        ++ package_vfs_relative_path m ++ "\"
                                        ++ vfs_relative_remainder m (full_path p);
                         drive_absolute_path := Some 0 |} = true).
    { unfold in_package_root, dap.
      cbn [drive_absolute_path full_path option_map skipn].
      apply path_relative_to_app. }
    split; [right; exact Hroot|].
    unfold VirtualizePath at 1. rewrite Hroot. reflexivity.
  - assert (E : VirtualizePath gl p = p).
    { unfold VirtualizePath. rewrite Hin, Virtualize_loop_find.
      unfold virtualize_choice in Hch. rewrite Hch. reflexivity. }
    split; [left; exact E | rewrite !E; reflexivity].
Qed.

Lemma VirtualizePath_idempotent_witness :
  (VirtualizePath demo_globals
     {| full_path := "C:\Windows\win.ini"; drive_absolute_path := Some 0 |}
   = {| full_path := "C:\Windows\win.ini"; drive_absolute_path := Some 0 |}
   \/ in_package_root demo_globals
        (VirtualizePath demo_globals
           {| full_path := "C:\Windows\win.ini"; drive_absolute_path := Some 0 |})
      = true)
  /\ VirtualizePath demo_globals
       (VirtualizePath demo_globals
          {| full_path := "C:\Windows\win.ini"; drive_absolute_path := Some 0 |})
     = VirtualizePath demo_globals
         {| full_path := "C:\Windows\win.ini"; drive_absolute_path := Some 0 |}.
Proof.
  apply (@VirtualizePath_idempotent demo_globals
           {| full_path := "C:\Windows\win.ini"; drive_absolute_path := Some 0 |}
           eq_refl).
  intros m H. vm_compute in H. injection H as <-. reflexivity.
Defined.



(** The table maps the system directory twice; a path under the shadow
    [SystemX64] comes back under the shadow [System], the later entry. *)
Example system_x64_comes_back_as_system :
  VirtualizePath demo_globals
    (DeVirtualizePath demo_globals
       {| full_path := g_packageVfsRootPath demo_globals ++ "\SystemX64\a.dll";
          drive_absolute_path := Some 0 |})
  = {| full_path := g_packageVfsRootPath demo_globals ++ "\System\a.dll";
       drive_absolute_path := Some 0 |}.
Proof. reflexivity. Qed.

(** ** The resolver *)

Lemma std_equal_length (cmp : ascii -> ascii -> bool) (a p : wstring) :
  std_equal cmp a p = true -> length a <= length p.
Proof.
  revert p. induction a as [|x a IH]; intros [|y p]; simpl; try congruence; try lia.
  rewrite andb_true_iff. intros [_ H]. apply IH in H. lia.
Qed.

Lemma find_bound (hay needle : wstring) (n : nat) :
  find hay needle = Some n -> n + length needle <= length hay.
Proof.
  revert n. induction hay as [|c hay IH]; intros n; cbn [find].
  - destruct (std_equal ascii_eqb needle []) eqn:E; [|discriminate].
    intros H. injection H as <-. apply std_equal_length in E. simpl in *. lia.
  - destruct (std_equal ascii_eqb needle (c :: hay)) eqn:E.
    + intros H. injection H as <-. apply std_equal_length in E. simpl in *. lia.
    + destruct (find hay needle) as [k|]; [|discriminate].
      intros H. injection H as <-. specialize (IH k eq_refl). simpl. lia.
Qed.

Lemma find_prefix (needle rest : wstring) : find (needle ++ rest) needle = Some 0.
Proof.
  assert (E : std_equal ascii_eqb needle (needle ++ rest) = true)
    by (apply std_equal_eqb_prefix; exists rest; reflexivity).
  destruct (needle ++ rest); cbn [find]; rewrite E; reflexivity.
Qed.

Lemma redirect_basePath_literal (gl : Globals) (target : wstring) :
  exists rest, redirect_basePath gl target = "\\?\" ++ rest.
Proof.
  unfold redirect_basePath.
  destruct (wcsicmp_eq target (g_writablePackageRootPath gl)); eexists; reflexivity.
Qed.

Section ResolverFurther.

Variable os : OS.
Variable gl : Globals.

Lemma RedirectedPath_returned (w w' : World os) (p : normalized_path)
    (ensure : bool) (target s : wstring) :
  RedirectedPath os gl w p ensure target = Returned (s, w') ->
  (exists relativePath,
      redirect_relativePath gl p target = Returned relativePath
      /\ s = redirect_basePath gl target ++ relativePath)
  /\ (ensure = false -> w' = w).
Proof.
  unfold RedirectedPath.
  destruct (redirect_relativePath gl p target) as [rel|e]; [|discriminate].
  destruct (PathExists os w (redirect_basePath gl target ++ rel)).
  - intros H. injection H as <- <-. split; [exists rel; split; reflexivity | reflexivity].
  - intros H. injection H as H.
    pose proof (GenerateRedirectedPath_value os w rel ensure
                  (redirect_basePath gl target)) as V.
    rewrite H in V. cbn [fst] in V. split.
    + exists rel. split; [reflexivity | exact V].
    + intros ->. unfold GenerateRedirectedPath in H. injection H as _ <-. reflexivity.
Qed.

Variable pattern : Type.
Variable regex_match : wstring -> pattern -> bool.

(** What the rule loop returns: the untouched default, or the redirect of
    one inclusion rule of the list. *)
Lemma redirectSpec_loop_returned (w w1 : World os) (vfspath : normalized_path)
    (flags : redirect_flags) (specs : list (path_redirection_spec pattern))
    (info : path_redirect_info) :
  redirectSpec_loop os gl regex_match w vfspath flags specs default_redirect_info
  = Returned (info, w1) ->
  (info = default_redirect_info /\ w1 = w)
  \/ (should_redirect info = true
      /\ exists spec,
           In spec specs /\ isExclusion spec = false
           /\ shouldReadonly info = isReadOnly spec
           /\ RedirectedPath os gl w vfspath (ensure_directory_structure flags)
                (redirect_targetbase spec)
              = Returned (redirect_path info, w1)).
Proof.
  induction specs as [|spec rest IH]; cbn [redirectSpec_loop].
  - intros H. injection H as <- <-. left. split; reflexivity.
  - assert (Next : redirectSpec_loop os gl regex_match w vfspath flags rest
                     default_redirect_info = Returned (info, w1) ->
                   (info = default_redirect_info /\ w1 = w)
                   \/ (should_redirect info = true
                       /\ exists s,
                            In s (spec :: rest) /\ isExclusion s = false
                            /\ shouldReadonly info = isReadOnly s
                            /\ RedirectedPath os gl w vfspath
                                 (ensure_directory_structure flags)
                                 (redirect_targetbase s)
                               = Returned (redirect_path info, w1))).
    { intros H. destruct (IH H) as [D | (S & s & Hs & R)]; [left; exact D|].
      right. split; [exact S|]. exists s. split; [right; exact Hs | exact R]. }
    assert (Try : forall rel,
               (if regex_match rel (pattern_of spec)
                then
                  if isExclusion spec
                  then Returned ({| should_redirect := false;
                                    redirect_path := redirect_path default_redirect_info;
                                    shouldReadonly := shouldReadonly default_redirect_info |}, w)
                  else
                    match RedirectedPath os gl w vfspath
                            (ensure_directory_structure flags)
                            (redirect_targetbase spec) with
                    | Returned (redirected, w') =>
                        Returned ({| should_redirect := true;
                                     redirect_path := redirected;
                                     shouldReadonly := isReadOnly spec |}, w')
                    | Failed e => Failed e
                    end
                else redirectSpec_loop os gl regex_match w vfspath flags rest
                       default_redirect_info)
               = Returned (info, w1) ->
               (info = default_redirect_info /\ w1 = w)
               \/ (should_redirect info = true
                   /\ exists s,
                        In s (spec :: rest) /\ isExclusion s = false
                        /\ shouldReadonly info = isReadOnly s
                        /\ RedirectedPath os gl w vfspath
                             (ensure_directory_structure flags)
                             (redirect_targetbase s)
                           = Returned (redirect_path info, w1))).
    { intros rel. destruct (regex_match rel (pattern_of spec)); [|exact Next].
      destruct (isExclusion spec) eqn:X.
      - intros H. injection H as <- <-. left. split; reflexivity.
      - destruct (RedirectedPath os gl w vfspath (ensure_directory_structure flags)
                    (redirect_targetbase spec)) as [[redirected w']|e] eqn:R;
          [|discriminate].
        intros H. injection H as <- <-. right. split; [reflexivity|].
        exists spec. split; [left; reflexivity|]. split; [exact X|].
        split; [reflexivity | exact R]. }
    destruct (dap vfspath) as [d|]; [|discriminate].
    destruct (path_relative_to d (base_path spec)); [|exact Next].
    destruct (is_path_separator _); [apply Try|].
    destruct (negb _); [exact Next | apply Try].
Qed.

Variable g_redirectionSpecs : list (path_redirection_spec pattern).

(** What [ShouldRedirectImpl] returns, in terms of the rule loop. *)
Lemma ShouldRedirectImpl_returned (w w' : World os) (path_arg : option wstring)
    (flags : redirect_flags) (r : path_redirect_info) :
  ShouldRedirectImpl os gl regex_match g_redirectionSpecs w path_arg flags
  = Returned (r, w') ->
  (r = default_redirect_info /\ w' = w)
  \/ (exists info w1 vfs_dap norm_dap,
         redirectSpec_loop os gl regex_match w
           (VirtualizePath gl (NormalizePath os path_arg)) flags
           g_redirectionSpecs default_redirect_info
         = Returned (info, w1)
         /\ should_redirect info = true
         /\ ((check_file_presence flags = true
              /\ r = {| should_redirect := false; redirect_path := [];
                        shouldReadonly := shouldReadonly info |}
              /\ w' = w1)
             \/ (r = info
                 /\ w' = if copy_file flags
                         then copy_to_redirected os w1 norm_dap vfs_dap
                                (redirect_path info)
                         else w1))).
Proof.
  unfold ShouldRedirectImpl.
  destruct path_arg as [p|]; [|intros H; injection H as <- <-; left; split; reflexivity].
  destruct (dap (NormalizePath os (Some p)));
    [|intros H; injection H as <- <-; left; split; reflexivity].
  destruct (redirectSpec_loop os gl regex_match w
              (VirtualizePath gl (NormalizePath os (Some p))) flags
              g_redirectionSpecs default_redirect_info)
    as [[info w1]|e] eqn:L; [|discriminate].
  destruct (redirectSpec_loop_returned _ _ _ _ L) as [[-> ->] | (S & _)].
  - cbn [should_redirect default_redirect_info negb].
    intros H. injection H as <- <-. left. split; reflexivity.
  - rewrite S. cbn [negb].
    destruct (dap (VirtualizePath gl (NormalizePath os (Some p)))) as [vd|];
      [|discriminate].
    destruct (dap (DeVirtualizePath gl (NormalizePath os (Some p)))) as [nd|];
      [|discriminate].
    intros H. right. exists info, w1, vd, nd. split; [reflexivity|]. split; [exact S|].
    destruct (check_file_presence flags) eqn:C; cbn [andb] in H.
    + destruct (negb (PathExists os w1 (redirect_path info))
                && negb (PathExists os w1 vd) && negb (PathExists os w1 nd)).
      * injection H as <- <-. left. repeat split; reflexivity.
      * right. destruct (copy_file flags); injection H as <- <-; split; reflexivity.
    + right. destruct (copy_file flags); injection H as <- <-; split; reflexivity.
Qed.

End ResolverFurther.

Lemma lowercase_app (a b : wstring) : lowercase (a ++ b) = lowercase a ++ lowercase b.
Proof. apply map_app. Qed.

Lemma lowercase_length (a : wstring) : length (lowercase a) = length a.
Proof. apply length_map. Qed.

(** X9: a source whose full path is the package root, in any letter case,
    followed by a tail, and that is classified as drive-absolute, is
    redirected to the literal form of the writable root followed by the
    tail when the target is the writable root, and else to the literal form
    of the target without trailing separators, [\PackageCache\], the package
    family name and the tail; no state of the file system changes this
    string, and no exception is thrown. *)
Theorem in_package_destination :
  forall (os : OS) (gl : Globals) (w : World os) (p : normalized_path)
         (ensure : bool) (target pre tail : wstring),
    full_path p = pre ++ tail ->
    lowercase pre = g_packageRootPath gl ->
    path_type (lowercase (full_path p)) = drive_absolute ->
    exists w',
      RedirectedPath os gl w p ensure target
      = Returned
          (if wcsicmp_eq target (g_writablePackageRootPath gl)
           then "\\?\" ++ g_writablePackageRootPath gl ++ tail
           else "\\?\" ++ remove_trailing_path_separators target
                  ++ "\PackageCache\" ++ current_package_family_name gl ++ tail,
           w').
Proof.
  intros os gl w p ensure target pre tail Hfull Hpre Hda.
  assert (Hin : target_in_package gl p = true).
  { unfold target_in_package.
    rewrite Hfull, lowercase_app, Hpre, find_prefix. reflexivity. }
  assert (Hlen : length pre
                 = (if dos_path_type_eqb (path_type (lowercase (full_path p)))
                         drive_absolute
                    then length (g_packageRootPath gl)
                    else length (g_finalPackageRootPath gl))).
  { rewrite Hda. cbn. rewrite <- Hpre. symmetry. apply lowercase_length. }
  pose proof (@redirect_relativePath_in_package gl p target pre tail Hin Hfull Hlen)
    as Hrel.
  destruct (@RedirectedPath_value os gl w p ensure target _ Hrel) as [w' HR].
  exists w'. rewrite HR. unfold redirect_basePath.
  destruct (wcsicmp_eq target (g_writablePackageRootPath gl));
    rewrite <- ?app_assoc; reflexivity.
Qed.

Lemma in_package_destination_witness :
  exists w',
    RedirectedPath (demo_os "C:\work") demo_globals []
      {| full_path := "C:\Program Files\WindowsApps\App\data\x.txt";
         drive_absolute_path := Some 0 |}
      true "H:\Home\"
    = Returned
        (if wcsicmp_eq "H:\Home\" (g_writablePackageRootPath demo_globals)
         then "\\?\" ++ g_writablePackageRootPath demo_globals ++ "\data\x.txt"
         else "\\?\" ++ remove_trailing_path_separators "H:\Home\"
                ++ "\PackageCache\" ++ current_package_family_name demo_globals
                ++ "\data\x.txt",
         w').
Proof.
  apply (@in_package_destination (demo_os "C:\work") demo_globals []
           {| full_path := "C:\Program Files\WindowsApps\App\data\x.txt";
              drive_absolute_path := Some 0 |}
           true "H:\Home\" "C:\Program Files\WindowsApps\App" "\data\x.txt");
    reflexivity.
Defined.

(** X10: a source whose lower-cased full path does not contain the package
    root is redirected to the literal form of the target, a backslash, and
    then either a backslash, the drive letter, a dollar sign and what
    follows the colon (target equal to the redirect root), or
    [PackageCache\], the package family name, [\VFS\PackageDrive\] and the
    same escaped drive path; the second character of the drive-absolute
    form is dropped whatever it is. *)
Theorem outside_package_destination :
  forall (os : OS) (gl : Globals) (w : World os) (p : normalized_path)
         (ensure : bool) (target : wstring) (drive colon : ascii)
         (remaining : wstring),
    target_in_package gl p = false ->
    dap p = Some (drive :: colon :: remaining) ->
    exists w',
      RedirectedPath os gl w p ensure target
      = Returned
          ("\\?\"
             ++ (if wcsicmp_eq target (g_writablePackageRootPath gl)
                 then g_writablePackageRootPath gl
                 else remove_trailing_path_separators target)
             ++ "\"
             ++ (if wcsicmp_eq target (g_redirectRootPath gl)
                 then "\" ++ [drive] ++ "$" ++ remaining
                 else "PackageCache\" ++ current_package_family_name gl
                        ++ "\VFS\PackageDrive\" ++ [drive] ++ "$" ++ remaining),
           w').
Proof.
  intros os gl w p ensure target drive colon remaining Hout Hd.
  pose proof (@redirect_relativePath_outside gl p target drive colon remaining
                Hout Hd) as Hrel.
  destruct (@RedirectedPath_value os gl w p ensure target _ Hrel) as [w' HR].
  exists w'. rewrite HR. unfold redirect_basePath.
  destruct (wcsicmp_eq target (g_writablePackageRootPath gl));
    rewrite <- ?app_assoc; reflexivity.
Qed.

Lemma outside_package_destination_witness :
  exists w',
    RedirectedPath (demo_os "C:\work") demo_globals []
      {| full_path := "D:\Users\me\file.txt"; drive_absolute_path := Some 0 |}
      true (g_redirectRootPath demo_globals)
    = Returned
        ("\\?\"
           ++ (if wcsicmp_eq (g_redirectRootPath demo_globals)
                    (g_writablePackageRootPath demo_globals)
               then g_writablePackageRootPath demo_globals
               else remove_trailing_path_separators (g_redirectRootPath demo_globals))
           ++ "\"
           ++ (if wcsicmp_eq (g_redirectRootPath demo_globals)
                    (g_redirectRootPath demo_globals)
               then "\" ++ ["D"%char] ++ "$" ++ "\Users\me\file.txt"
               else "PackageCache\" ++ current_package_family_name demo_globals
                      ++ "\VFS\PackageDrive\" ++ ["D"%char] ++ "$"
                      ++ "\Users\me\file.txt"),
         w').
Proof.
  apply (@outside_package_destination (demo_os "C:\work") demo_globals []
           {| full_path := "D:\Users\me\file.txt"; drive_absolute_path := Some 0 |}
           true (g_redirectRootPath demo_globals) "D"%char ":"%char
           ("\Users\me\file.txt" : wstring));
    reflexivity.
Defined.

(** X11: [RedirectedPath] returns for every in-package source that is
    classified as drive-absolute; for an in-package source of another kind
    whose full path is shorter than the final package root it throws
    [out_of_range], before any directory is created. *)
Theorem RedirectedPath_out_of_range :
  forall (os : OS) (gl : Globals) (w : World os) (p : normalized_path)
         (ensure : bool) (target : wstring),
    target_in_package gl p = true ->
    (path_type (lowercase (full_path p)) = drive_absolute ->
     exists s w', RedirectedPath os gl w p ensure target = Returned (s, w'))
    /\ (path_type (lowercase (full_path p)) <> drive_absolute ->
        length (full_path p) < length (g_finalPackageRootPath gl) ->
        RedirectedPath os gl w p ensure target = Failed out_of_range).
Proof.
  intros os gl w p ensure target Hin. split.
  - intros Hda.
    assert (L : length (g_packageRootPath gl) <= length (full_path p)).
    { unfold target_in_package in Hin.
      destruct (find (lowercase (full_path p)) (g_packageRootPath gl)) as [n|] eqn:F;
        [|discriminate].
      apply find_bound in F. rewrite lowercase_length in F. lia. }
    assert (exists rel, redirect_relativePath gl p target = Returned rel) as [rel Hrel].
    { unfold redirect_relativePath. rewrite Hin, Hda. cbn [dos_path_type_eqb].
      unfold substr_from.
      destruct (length (full_path p) <? length (g_packageRootPath gl)) eqn:E;
        [apply Nat.ltb_lt in E; lia|].
      destruct (wcsicmp_eq target (g_writablePackageRootPath gl)); eexists; reflexivity. }
    destruct (@RedirectedPath_value os gl w p ensure target _ Hrel) as [w' HR].
    eexists. exists w'. exact HR.
  - intros Hnd Hlen. unfold RedirectedPath, redirect_relativePath. rewrite Hin.
    destruct (dos_path_type_eqb (path_type (lowercase (full_path p))) drive_absolute)
      eqn:D; [apply dos_path_type_eqb_eq in D; congruence|].
    unfold substr_from. apply Nat.ltb_lt in Hlen. rewrite Hlen.
    destruct (wcsicmp_eq target (g_writablePackageRootPath gl)); reflexivity.
Qed.

Lemma RedirectedPath_out_of_range_witness :
  RedirectedPath (demo_os "C:\work") alternate_mount_globals []
    {| full_path := "\\?\C:\Program Files\WindowsApps\App\x";
       drive_absolute_path := Some 4 |}
    true (g_writablePackageRootPath demo_globals)
  = Failed out_of_range.
Proof.
  apply (proj2 (@RedirectedPath_out_of_range (demo_os "C:\work")
                  alternate_mount_globals []
                  {| full_path := "\\?\C:\Program Files\WindowsApps\App\x";
                     drive_absolute_path := Some 4 |}
                  true (g_writablePackageRootPath demo_globals) eq_refl)).
  - vm_compute. discriminate.
  - vm_compute. lia.
Defined.

(** The exception leaves [ShouldRedirect]: a device-form path into a
    package whose final root is longer than the path. *)
Example ShouldRedirect_throws :
  ShouldRedirect (demo_os "C:\work") alternate_mount_globals demo_regex_match
    [package_spec] [] (Some ("\\?\C:\Program Files\WindowsApps\App\x" : wstring))
    no_flags
  = Failed out_of_range.
Proof. vm_compute. reflexivity. Qed.

(** X12: every answer of [ShouldRedirect] has one of two shapes: no
    redirect with an empty path, or a redirect to a path in the literal
    form [\\?\...]; and the read-only flag is only ever set from an
    inclusion rule of the configuration that is marked read-only. *)
Theorem ShouldRedirect_result_shape :
  forall (os : OS) (gl : Globals) (pattern : Type)
         (regex_match : wstring -> pattern -> bool)
         (specs : list (path_redirection_spec pattern))
         (w w' : World os) (path_arg : option wstring) (flags : redirect_flags)
         (r : path_redirect_info),
    ShouldRedirect os gl regex_match specs w path_arg flags = Returned (r, w') ->
    (should_redirect r = false -> redirect_path r = [])
    /\ (should_redirect r = true -> exists rest, redirect_path r = "\\?\" ++ rest)
    /\ (shouldReadonly r = true ->
        exists spec, In spec specs /\ isExclusion spec = false
                     /\ isReadOnly spec = true).
Proof.
  intros os gl pattern regex_match specs w w' path_arg flags r H.
  destruct (@ShouldRedirectImpl_returned os gl pattern regex_match specs
              w w' path_arg flags r H)
    as [[-> _] | (info & w1 & vd & nd & L & S & Hr)].
  { repeat split; intros; try reflexivity; discriminate. }
  destruct (@redirectSpec_loop_returned os gl pattern regex_match w w1 _ flags
              specs info L) as [[-> _] | (_ & spec & Hin & Hx & Hro & HR)];
    [discriminate|].
  destruct (@RedirectedPath_returned os gl w w1 _ _ _ _ HR)
    as [(rel & _ & Hs) _].
  destruct (redirect_basePath_literal gl (redirect_targetbase spec)) as [b Hb].
  assert (Ro : shouldReadonly info = true ->
               exists s, In s specs /\ isExclusion s = false /\ isReadOnly s = true).
  { intros E. exists spec. repeat split; try assumption. congruence. }
  destruct Hr as [(_ & -> & _) | (-> & _)]; cbn [should_redirect redirect_path
                                                   shouldReadonly].
  - split; [reflexivity|]. split; [discriminate | exact Ro].
  - split; [congruence|]. split; [|exact Ro].
    intros _. rewrite Hs, Hb. cbn [app list_ascii_of_string]. eexists. reflexivity.
Qed.

Lemma ShouldRedirect_result_shape_witness :
  (should_redirect {| should_redirect := true; redirect_path := demo_destination;
                      shouldReadonly := false |} = false ->
   redirect_path {| should_redirect := true; redirect_path := demo_destination;
                    shouldReadonly := false |} = [])
  /\ (should_redirect {| should_redirect := true; redirect_path := demo_destination;
                         shouldReadonly := false |} = true ->
      exists rest, redirect_path {| should_redirect := true;
                                    redirect_path := demo_destination;
                                    shouldReadonly := false |} = "\\?\" ++ rest)
  /\ (shouldReadonly {| should_redirect := true; redirect_path := demo_destination;
                        shouldReadonly := false |} = true ->
      exists spec, In spec demo_specs /\ isExclusion spec = false
                   /\ isReadOnly spec = true).
Proof.
  apply (@ShouldRedirect_result_shape (demo_os "C:\work") demo_globals regex
           demo_regex_match demo_specs [] [] (Some ("C:\X\b\data.txt" : wstring))
           no_flags
           {| should_redirect := true; redirect_path := demo_destination;
              shouldReadonly := false |}).
  vm_compute. reflexivity.
Defined.

(** X13: without the flags [ensure_directory_structure] and [copy_file],
    [ShouldRedirect] leaves the file system as it found it, whatever it
    answers. *)
Theorem ShouldRedirect_read_only_without_flags :
  forall (os : OS) (gl : Globals) (pattern : Type)
         (regex_match : wstring -> pattern -> bool)
         (specs : list (path_redirection_spec pattern))
         (w w' : World os) (path_arg : option wstring) (flags : redirect_flags)
         (r : path_redirect_info),
    ensure_directory_structure flags = false ->
    copy_file flags = false ->
    ShouldRedirect os gl regex_match specs w path_arg flags = Returned (r, w') ->
    w' = w.
Proof.
  intros os gl pattern regex_match specs w w' path_arg flags r He Hc H.
  destruct (@ShouldRedirectImpl_returned os gl pattern regex_match specs
              w w' path_arg flags r H)
    as [[_ ->] | (info & w1 & vd & nd & L & S & Hr)]; [reflexivity|].
  destruct (@redirectSpec_loop_returned os gl pattern regex_match w w1 _ flags
              specs info L) as [[_ E] | (_ & spec & _ & _ & _ & HR)].
  - rewrite Hc in Hr. destruct Hr as [(_ & _ & ->) | (_ & ->)]; exact E.
  - rewrite He in HR.
    destruct (@RedirectedPath_returned os gl w w1 _ _ _ _ HR) as [_ E].
    rewrite Hc in Hr. destruct Hr as [(_ & _ & ->) | (_ & ->)]; exact (E eq_refl).
Qed.

Lemma ShouldRedirect_read_only_without_flags_witness :
  ([("C:\X\b\data.txt" : wstring, false)] : demo_world)
  = [("C:\X\b\data.txt" : wstring, false)].
Proof.
  apply (@ShouldRedirect_read_only_without_flags (demo_os "C:\work") demo_globals
           regex demo_regex_match demo_specs
           [("C:\X\b\data.txt" : wstring, false)]
           [("C:\X\b\data.txt" : wstring, false)]
           (Some ("C:\X\b\data.txt" : wstring)) check_only
           {| should_redirect := true; redirect_path := demo_destination;
              shouldReadonly := false |});
    vm_compute; reflexivity.
Defined.

(** X14: when the presence check is not requested, an answer of no
    redirect is the default answer and nothing was created or copied for
    it, whatever the other flags. *)
Theorem no_redirect_leaves_no_trace :
  forall (os : OS) (gl : Globals) (pattern : Type)
         (regex_match : wstring -> pattern -> bool)
         (specs : list (path_redirection_spec pattern))
         (w w' : World os) (path_arg : option wstring) (flags : redirect_flags)
         (r : path_redirect_info),
    check_file_presence flags = false ->
    ShouldRedirect os gl regex_match specs w path_arg flags = Returned (r, w') ->
    should_redirect r = false ->
    r = default_redirect_info /\ w' = w.
Proof.
  intros os gl pattern regex_match specs w w' path_arg flags r Hc H Hr.
  destruct (@ShouldRedirectImpl_returned os gl pattern regex_match specs
              w w' path_arg flags r H)
    as [D | (info & w1 & vd & nd & L & S & [(C & _) | (-> & _)])];
    [exact D | congruence | congruence].
Qed.

Lemma no_redirect_leaves_no_trace_witness :
  default_redirect_info = default_redirect_info
  /\ ([] : demo_world) = [].
Proof.
  apply (@no_redirect_leaves_no_trace (demo_os "C:\work") demo_globals regex
           demo_regex_match demo_specs [] []
           (Some ("C:\X\a\cache.tmp" : wstring))
           {| ensure_directory_structure := true; copy_file := true;
              check_file_presence := false |}
           default_redirect_info);
    vm_compute; reflexivity.
Defined.

(** With the presence check the answer of no redirect can leave a trace:
    the directories towards the destination are created before the check
    retracts the decision. *)
Example retraction_leaves_directories :
  exists w',
    ShouldRedirect (demo_os "C:\work") demo_globals demo_regex_match demo_specs
      [] (Some ("C:\X\b\data.txt" : wstring)) ensure_and_check
    = Returned ({| should_redirect := false; redirect_path := [];
                   shouldReadonly := false |}, w')
    /\ length w' = 5.
Proof. eexists. split; [vm_compute; reflexivity | reflexivity]. Qed.

(** ** The directories [GenerateRedirectedPath] asks for *)










(** A relative path that ends in a separator: the directory it names is
    asked for, the comment in the source notwithstanding. *)
Example trailing_separator_directory_is_created :
  snd (snd (GenerateRedirectedPath (recording (demo_os "C:\work")) ([], [])
              "\logs\" true "\\?\W:\r"))
  = [ ("\\?\W:\r\logs" : wstring); ("\\?\W:\r" : wstring) ].
Proof. reflexivity. Qed.

(** X16: the test that is to ignore a trailing separator never fires:
    [find_first_of] answers an offset below the length or nothing, so the
    next position of the loop is the next separator behind the current
    one, also when that separator is the last character. *)
Theorem trailing_separator_test_is_dead :
  forall (relativePath : wstring) (pos : nat),
    next_pos relativePath pos
    = find_first_sep_from is_path_separator relativePath (pos + 1)
    /\ (forall n, next_pos relativePath pos = Some n ->
                  is_path_separator (at_ relativePath n) = true
                  /\ pos < n < length relativePath).
Proof.
  intros relativePath pos.
  assert (E : next_pos relativePath pos
              = find_first_sep_from is_path_separator relativePath (pos + 1)).
  { unfold next_pos.
    pose proof (find_first_sep_from_bounds relativePath (pos + 1)) as FB.
    destruct (find_first_sep_from is_path_separator relativePath (pos + 1))
      as [n|]; [|reflexivity].
    specialize (FB n eq_refl).
    destruct (n =? length relativePath) eqn:Q; [|reflexivity].
    apply Nat.eqb_eq in Q. lia. }
  split; [exact E|]. intros n H. split; [|exact (next_pos_bounds _ _ H)].
  rewrite E in H. clear E. revert H. generalize (pos + 1). clear pos.
  revert n. induction relativePath as [|c s IH]; intros n [|p] H; simpl in H;
    try discriminate.
  - destruct (is_path_separator c) eqn:C.
    + injection H as <-. exact C.
    + destruct (find_first_sep_from is_path_separator s 0) eqn:F;
        [|discriminate].
      injection H as <-. exact (IH _ _ F).
  - destruct (find_first_sep_from is_path_separator s p) eqn:F; [|discriminate].
    injection H as <-. exact (IH _ _ F).
Qed.

Lemma trailing_separator_test_is_dead_witness :
  is_path_separator (at_ ("\logs\" : wstring) 5) = true
  /\ 0 < 5 < length ("\logs\" : wstring).
Proof.
  apply (proj2 (@trailing_separator_test_is_dead ("\logs\" : wstring) 0) 5).
  reflexivity.
Defined.

(** ** The package shadow of the user's application data *)

Lemma wcslen_le (s : wstring) : wcslen s <= length s.
Proof.
  induction s as [|c s IH]; simpl; [lia|].
  destruct (ascii_eqb c NUL); lia.
Qed.

Lemma path_relative_to_length (p base : wstring) :
  path_relative_to p base = true -> length base <= length p.
Proof.
  unfold path_relative_to, path_relative_toImpl. revert p.
  induction base as [|x base IH]; intros [|y p] H; simpl in *; try lia;
    try discriminate.
  apply andb_true_iff in H. destruct H as [_ H]. apply IH in H. lia.
Qed.

Lemma substr_from_cases (s : wstring) (n : nat) :
  (length s < n -> substr_from s n = Failed out_of_range)
  /\ (n <= length s -> substr_from s n = Returned (skipn n s)).
Proof.
  unfold substr_from. split; intros H.
  - apply Nat.ltb_lt in H. rewrite H. reflexivity.
  - destruct (length s <? n) eqn:E; [apply Nat.ltb_lt in E; lia | reflexivity].
Qed.

(** X17: for a file name under the local application data folder (by the
    prefix test, which looks at no component boundary),
    [GetPackageVFSPath] throws [out_of_range] when the file name is no
    longer than the folder, that is, when it names the folder itself; for
    a longer one it answers the package VFS root, [Local AppData] and the
    file name without the folder and without the one code unit behind it,
    whatever that code unit is.  The roaming folder is treated alike
    ([AppData]) when the local one does not apply, and a file name under
    neither gives the empty path. *)
Theorem GetPackageVFSPath_cases :
  forall (id : Identity) (gl : Globals) (fileName : wstring),
    let lad := known_folder id FOLDERID_LocalAppData in
    let rad := known_folder id FOLDERID_RoamingAppData in
    (IsUnderUserAppDataLocal id fileName = true ->
     wcslen lad <= length fileName
     /\ (length fileName = wcslen lad ->
         GetPackageVFSPath id gl fileName = Failed out_of_range)
     /\ (wcslen lad < length fileName ->
         GetPackageVFSPath id gl fileName
         = Returned (g_packageVfsRootPath gl </> "Local AppData"
                       </> skipn (wcslen lad + 1) fileName)))
    /\ (IsUnderUserAppDataLocal id fileName = false ->
        IsUnderUserAppDataRoaming id fileName = true ->
        wcslen rad <= length fileName
        /\ (length fileName = wcslen rad ->
            GetPackageVFSPath id gl fileName = Failed out_of_range)
        /\ (wcslen rad < length fileName ->
            GetPackageVFSPath id gl fileName
            = Returned (g_packageVfsRootPath gl </> "AppData"
                          </> skipn (wcslen rad + 1) fileName)))
    /\ (IsUnderUserAppDataLocal id fileName = false ->
        IsUnderUserAppDataRoaming id fileName = false ->
        GetPackageVFSPath id gl fileName = Returned []).
Proof.
  intros id gl fileName lad rad. unfold GetPackageVFSPath, GetPackageVFSPathImpl.
  fold lad. fold rad. repeat split.
  - apply path_relative_to_length in H. pose proof (wcslen_le lad). fold lad in H. lia.
  - intros E. rewrite H.
    rewrite (proj1 (substr_from_cases fileName (wcslen lad + 1))) by lia.
    reflexivity.
  - intros E. rewrite H.
    rewrite (proj2 (substr_from_cases fileName (wcslen lad + 1))) by lia.
    reflexivity.
  - apply path_relative_to_length in H0. pose proof (wcslen_le rad).
    fold rad in H0. lia.
  - intros E. rewrite H, H0.
    rewrite (proj1 (substr_from_cases fileName (wcslen rad + 1))) by lia.
    reflexivity.
  - intros E. rewrite H, H0.
    rewrite (proj2 (substr_from_cases fileName (wcslen rad + 1))) by lia.
    reflexivity.
  - intros H H0. rewrite H, H0. reflexivity.
Qed.

Lemma GetPackageVFSPath_cases_witness :
  GetPackageVFSPath demo_identity demo_globals "C:\Users\me\AppData\Local"
  = Failed out_of_range.
Proof.
  apply (proj1 (proj2 (proj1 (@GetPackageVFSPath_cases demo_identity demo_globals
                                ("C:\Users\me\AppData\Local" : wstring))
                             eq_refl))).
  reflexivity.
Defined.

(** The prefix test takes the low-integrity folder for the local one, and
    the code unit behind the prefix is dropped unseen. *)
Example GetPackageVFSPath_of_sibling_folder :
  GetPackageVFSPath demo_identity demo_globals
    "C:\Users\me\AppData\LocalLow\Vendor\x.dat"
  = Returned ("c:\program files\windowsapps\app\VFS\Local AppData\ow\Vendor\x.dat"
              : wstring).
Proof. reflexivity. Qed.

Example GetPackageVFSPath_of_roaming_file :
  GetPackageVFSPath demo_identity demo_globals
    "c:/users/ME/appdata/roaming/Vendor/x.dat"
  = Returned ("c:\program files\windowsapps\app\VFS\AppData\Vendor/x.dat"
              : wstring).
Proof. reflexivity. Qed.

(** ** The globals of [InitializePaths] *)

Lemma towlower_idempotent (c : ascii) : towlower (towlower c) = towlower c.
Proof. destruct c as [[] [] [] [] [] [] [] []]; reflexivity. Qed.

Lemma path_compare_towlower_l (c : ascii) : path_compare (towlower c) c = true.
Proof.
  unfold path_compare. rewrite towlower_idempotent, ascii_eqb_refl. reflexivity.
Qed.

Lemma remove_trailing_path_separators_prefix (s : wstring) :
  exists t, s = remove_trailing_path_separators s ++ t.
Proof.
  induction s as [|c s [t IH]]; [exists []; reflexivity|]. simpl.
  destruct (remove_trailing_path_separators s) as [|x r] eqn:E.
  - destruct (is_path_separator c).
    + exists (c :: s). reflexivity.
    + exists s. reflexivity.
  - exists t. simpl. f_equal. exact IH.
Qed.

Lemma remove_trailing_path_separators_no_trailing (s : wstring) (c : ascii) :
  is_path_separator c = false ->
  remove_trailing_path_separators (s ++ [c]) = s ++ [c].
Proof.
  intros H. induction s as [|x s IH]; simpl.
  - rewrite H. reflexivity.
  - rewrite IH. destruct (s ++ [c]) eqn:E; [|reflexivity].
    destruct s; discriminate.
Qed.

Lemma std_equal_lowercase (s tail : wstring) :
  std_equal path_compare (lowercase s) (s ++ tail) = true.
Proof.
  induction s as [|c s IH]; simpl; [reflexivity|].
  rewrite path_compare_towlower_l. exact IH.
Qed.

Lemma std_equal_respelled (a b tail : wstring) :
  lowercase a = lowercase b ->
  std_equal path_compare (lowercase a) (b ++ tail) = true.
Proof. intros ->. apply std_equal_lowercase. Qed.

Lemma app_eq_length_l (A : Type) (a b c d : list A) :
  length a = length c -> a ++ b = c ++ d -> a = c.
Proof.
  revert c. induction a as [|x a IH]; intros [|y c] L E; simpl in *;
    try reflexivity; try discriminate.
  injection E as -> E. f_equal. apply IH; [lia | exact E].
Qed.

(** X18: when the queried package root is not in a device form, both
    in-package tests of the engine accept every path that spells the
    queried root in any letter case and continues in any way: the prefix
    test of [VirtualizePath] on the drive-absolute form and the substring
    test of [RedirectedPath] on the full path; and the root the engine
    keeps is in lower case. *)
Theorem InitializePaths_root_recognised :
  forall (id : Identity) (p : normalized_path) (root tail : wstring),
    path_type (PSFQueryPackageRootPath id) <> root_local_device ->
    path_type (PSFQueryPackageRootPath id) <> local_device ->
    lowercase root = lowercase (PSFQueryPackageRootPath id) ->
    full_path p = root ++ tail ->
    drive_absolute_path p = Some 0 ->
    in_package_root (InitializePaths id) p = true
    /\ target_in_package (InitializePaths id) p = true
    /\ lowercase (g_packageRootPath (InitializePaths id))
       = g_packageRootPath (InitializePaths id).
Proof.
  intros id p root tail N1 N2 Hl Hf Hd.
  assert (G : g_packageRootPath (InitializePaths id)
              = remove_trailing_path_separators
                  (lowercase (PSFQueryPackageRootPath id))).
  { unfold InitializePaths. cbn [g_packageRootPath].
    destruct (path_type (PSFQueryPackageRootPath id)); try reflexivity;
      congruence. }
  destruct (remove_trailing_path_separators_prefix
              (lowercase (PSFQueryPackageRootPath id))) as [t Ht].
  rewrite <- G in Ht. split; [|split].
  - unfold in_package_root, dap. rewrite Hd, Hf. cbn [option_map skipn].
    unfold path_relative_to, path_relative_toImpl.
    apply std_equal_app_l with (b := t). rewrite <- Ht, <- Hl.
    apply std_equal_lowercase.
  - unfold target_in_package. rewrite Hf, lowercase_app, Hl, Ht, <- app_assoc.
    rewrite find_prefix. reflexivity.
  - assert (L : lowercase (lowercase (PSFQueryPackageRootPath id))
                = lowercase (PSFQueryPackageRootPath id)).
    { unfold lowercase. rewrite map_map. apply map_ext.
      apply towlower_idempotent. }
    rewrite Ht, lowercase_app in L.
    exact (app_eq_length_l _ _ _ _ (lowercase_length _) L).
Qed.

Lemma InitializePaths_root_recognised_witness :
  in_package_root demo_globals
    {| full_path := "C:\PROGRAM FILES\WindowsApps\App\data\x.txt";
       drive_absolute_path := Some 0 |} = true
  /\ target_in_package demo_globals
       {| full_path := "C:\PROGRAM FILES\WindowsApps\App\data\x.txt";
          drive_absolute_path := Some 0 |} = true
  /\ lowercase (g_packageRootPath demo_globals) = g_packageRootPath demo_globals.
Proof.
  apply (@InitializePaths_root_recognised demo_identity
           {| full_path := "C:\PROGRAM FILES\WindowsApps\App\data\x.txt";
              drive_absolute_path := Some 0 |}
           ("C:\PROGRAM FILES\WindowsApps\App" : wstring)
           ("\data\x.txt" : wstring));
    try reflexivity; vm_compute; discriminate.
Defined.

Lemma device_root_starts_with_separator (s : wstring) :
  path_type s = root_local_device \/ path_type s = local_device ->
  exists c rest, s = c :: rest /\ is_path_separator c = true.
Proof.
  intros H. destruct s as [|c rest].
  - destruct H as [H | H]; discriminate.
  - exists c, rest. split; [reflexivity|].
    destruct (is_path_separator c) eqn:S; [reflexivity|]. exfalso.
    assert (A1 : ascii_eqb "\" c = false).
    { clear - S. destruct c as [[] [] [] [] [] [] [] []];
        try reflexivity; discriminate. }
    assert (A2 : path_compare "\" c = false).
    { clear - S. destruct c as [[] [] [] [] [] [] [] []];
        try reflexivity; discriminate. }
    unfold path_type in H.
    change (std_equal ascii_eqb "\\?\" (c :: rest))
      with (ascii_eqb "\" c && std_equal ascii_eqb "\?\" rest) in H.
    change (std_equal path_compare "\\.\" (c :: rest))
      with (path_compare "\" c && std_equal path_compare "\.\" rest) in H.
    rewrite A1, A2 in H. cbn [andb] in H.
    change (at_ (c :: rest) 0) with c in H. rewrite S in H.
    destruct (iswalpha c && ascii_eqb (at_ (c :: rest) 1) ":"%char);
      [destruct (is_path_separator (at_ (c :: rest) 2))|];
      destruct H; discriminate.
Qed.

Lemma drive_absolute_starts_with_letter (d : wstring) :
  path_type d = drive_absolute ->
  exists c rest, d = c :: rest /\ is_path_separator c = false.
Proof.
  intros H. destruct d as [|c rest]; [discriminate|].
  exists c, rest. split; [reflexivity|].
  unfold path_type in H.
  destruct (std_equal ascii_eqb "\\?\" (c :: rest)); [discriminate|].
  destruct (std_equal path_compare "\\.\" (c :: rest)); [discriminate|].
  change (at_ (c :: rest) 0) with c in H.
  destruct (is_path_separator c); [|reflexivity].
  destruct (is_path_separator (at_ (c :: rest) 1)); discriminate.
Qed.

Lemma path_compare_separator (a b : ascii) :
  is_path_separator a = true -> is_path_separator b = false ->
  path_compare (towlower a) b = false.
Proof.
  intros A B. unfold is_path_separator in A. apply orb_true_iff in A.
  destruct A as [A | A]; apply ascii_eqb_eq in A; subst a;
    destruct b as [[] [] [] [] [] [] [] []]; try reflexivity; discriminate.
Qed.

(** X19: when the queried package root is in a device form ([\\?\] or
    [\\.\]), [InitializePaths] does not skip the four characters of the
    prefix: it appends the code unit 4 to the string.  The root the engine
    keeps is the lower-cased queried root followed by that code unit, and
    the in-package test of [VirtualizePath] then fails for every path
    whose drive-absolute form is of the drive-absolute kind, so no path is
    left alone as a package path. *)
Theorem InitializePaths_device_root :
  forall (id : Identity),
    path_type (PSFQueryPackageRootPath id) = root_local_device
    \/ path_type (PSFQueryPackageRootPath id) = local_device ->
    g_packageRootPath (InitializePaths id)
    = lowercase (PSFQueryPackageRootPath id) ++ [ascii_of_nat 4]
    /\ forall (p : normalized_path) (d : wstring),
         dap p = Some d -> path_type d = drive_absolute ->
         in_package_root (InitializePaths id) p = false.
Proof.
  intros id H.
  assert (G : g_packageRootPath (InitializePaths id)
              = lowercase (PSFQueryPackageRootPath id) ++ [ascii_of_nat 4]).
  { unfold InitializePaths. cbn [g_packageRootPath].
    replace (dos_path_type_eqb (path_type (PSFQueryPackageRootPath id))
               root_local_device
             || dos_path_type_eqb (path_type (PSFQueryPackageRootPath id))
                  local_device) with true
      by (destruct H as [-> | ->]; reflexivity).
    rewrite lowercase_app.
    apply remove_trailing_path_separators_no_trailing. reflexivity. }
  split; [exact G|]. intros p d Hd Ht.
  unfold in_package_root. rewrite Hd, G.
  destruct (device_root_starts_with_separator _ H) as (c & rest & -> & C).
  destruct (drive_absolute_starts_with_letter _ Ht) as (x & xs & -> & X).
  unfold path_relative_to, path_relative_toImpl. cbn.
  rewrite (path_compare_separator _ _ C X). reflexivity.
Qed.

Lemma InitializePaths_device_root_witness :
  g_packageRootPath (InitializePaths device_identity)
  = lowercase (PSFQueryPackageRootPath device_identity) ++ [ascii_of_nat 4]
  /\ forall (p : normalized_path) (d : wstring),
       dap p = Some d -> path_type d = drive_absolute ->
       in_package_root (InitializePaths device_identity) p = false.
Proof.
  apply (@InitializePaths_device_root device_identity).
  left. reflexivity.
Defined.

(** A file of such a package is taken for a file of the system folder the
    package is installed in. *)
Example device_root_package_file_is_virtualized :
  VirtualizePath (InitializePaths device_identity)
    {| full_path := "C:\Program Files\WindowsApps\App\data\x.txt";
       drive_absolute_path := Some 0 |}
  = {| full_path :=
         app (lowercase "\\?\C:\Program Files\WindowsApps\App")
             (ascii_of_nat 4
              :: ("\VFS\ProgramFilesX64\WindowsApps\App\data\x.txt" : wstring));
       drive_absolute_path := Some 0 |}.
Proof. vm_compute. reflexivity. Qed.

(** ** The rules of [InitializeConfiguration] *)

Lemma path_from_unknown_folder_id (id : Identity)
    (known_folder_of_guid : wstring -> guid_lookup) (str : wstring) :
  unknown_folder_id str = true ->
  path_from_known_folder_string id known_folder_of_guid str = Some [].
Proof.
  unfold unknown_folder_id, known_folder_names. cbn [existsb].
  rewrite andb_true_iff, !negb_true_iff. intros [N G].
  repeat match type of N with
         | _ || _ = false =>
             apply orb_false_iff in N; let E := fresh "E" in destruct N as [E N]
         end.
  unfold path_from_known_folder_string.
  rewrite E, E0, E1, E2, E3, E4, E5, E6, E7, E8, G.
  rewrite !andb_false_r. reflexivity.
Qed.

Section ConfigurationProperties.

Variable id : Identity.
Variable gl : Globals.
Variable pattern : Type.
Variable regex_assign : wstring -> option pattern.
Variable known_folder_of_guid : wstring -> guid_lookup.

Lemma add_patterns_traceOnly (path target : wstring) (excl ro : bool)
    (patterns : list wstring) (g : list (path_redirection_spec pattern)) :
  add_patterns regex_assign path target excl ro true patterns g = Some g.
Proof. induction patterns as [|ps rest IH]; [reflexivity | exact IH]. Qed.

Lemma initializeRedirection_traceOnly (basePath : wstring)
    (specs : list spec_object) (g : list (path_redirection_spec pattern)) :
  initializeRedirection gl regex_assign basePath specs true g = Some g.
Proof.
  induction specs as [|s rest IH]; [reflexivity|]. simpl.
  rewrite add_patterns_traceOnly. exact IH.
Qed.

(** Every rule [add_patterns] appends carries the base path it was given. *)
Lemma add_patterns_Forall (P : path_redirection_spec pattern -> Prop)
    (path target : wstring) (excl ro traceOnly : bool) :
  (forall compiled, P (mk_path_redirection_spec path compiled target excl ro)) ->
  forall (patterns : list wstring) (g g' : list (path_redirection_spec pattern)),
    Forall P g ->
    add_patterns regex_assign path target excl ro traceOnly patterns g = Some g' ->
    Forall P g'.
Proof.
  intros HP. induction patterns as [|ps rest IH]; intros g g' Hg H; simpl in H.
  - injection H as <-. exact Hg.
  - destruct traceOnly; cbn [negb] in H.
    + exact (IH _ _ Hg H).
    + destruct (regex_assign ps) as [compiled|]; [|discriminate].
      apply (IH _ _ (proj2 (Forall_app _ _ _) (conj Hg (Forall_cons _ (HP compiled) (Forall_nil _)))) H).
Qed.

Lemma initializeRedirection_Forall (P : path_redirection_spec pattern -> Prop)
    (basePath : wstring) (traceOnly : bool) :
  forall (specs : list spec_object) (g g' : list (path_redirection_spec pattern)),
    (forall s compiled target excl ro,
        In s specs ->
        P (mk_path_redirection_spec
             (remove_trailing_path_separators (basePath </> spec_base s))
             compiled target excl ro)) ->
    Forall P g ->
    initializeRedirection gl regex_assign basePath specs traceOnly g = Some g' ->
    Forall P g'.
Proof.
  induction specs as [|s rest IH]; intros g g' HP Hg H; simpl in H.
  - injection H as <-. exact Hg.
  - match type of H with
    | match ?a with _ => _ end = _ => destruct a as [g1|] eqn:A; [|discriminate]
    end.
    apply (IH g1 g').
    + intros s' c t e r Hin. apply HP. right. exact Hin.
    + eapply add_patterns_Forall; [|exact Hg|exact A].
      intros compiled. apply HP. left. reflexivity.
    + exact H.
Qed.

End ConfigurationProperties.

(** X20: known-folder entries whose identifier is none of the ten names
    and cannot be a GUID add no rule to the list, and they never make
    [InitializeConfiguration] throw, not even with patterns the regular
    expression compiler rejects: their patterns are traced, not compiled.
    Such an entry is dropped; it does not become a rule with an empty
    base. *)
Theorem unknown_known_folders_add_no_rule :
  forall (id : Identity) (gl : Globals) (pattern : Type)
         (regex_assign : wstring -> option pattern)
         (known_folder_of_guid : wstring -> guid_lookup)
         (kfs : list known_folder_object)
         (g : list (path_redirection_spec pattern)),
    (forall k, In k kfs -> unknown_folder_id (kf_id k) = true) ->
    InitializeConfiguration id gl regex_assign known_folder_of_guid
      (known_folders_only kfs) g
    = Some g.
Proof.
  intros id gl pattern regex_assign known_folder_of_guid kfs g H.
  unfold InitializeConfiguration, known_folders_only.
  cbn [redirectedPaths packageRelative packageDriveRelative knownFolders].
  induction kfs as [|k rest IH]; [reflexivity|]. simpl.
  rewrite (path_from_unknown_folder_id id known_folder_of_guid (kf_id k))
    by (apply H; left; reflexivity).
  rewrite initializeRedirection_traceOnly. apply IH.
  intros k' Hin. apply H. right. exact Hin.
Qed.

Lemma unknown_known_folders_add_no_rule_witness :
  InitializeConfiguration demo_identity demo_globals demo_regex_assign
    (fun _ => iid_failed)
    (known_folders_only
       [ mk_known_folder_object "Documents"
           [ mk_spec_object "logs" None None None [ "(((" : wstring ] ];
         mk_known_folder_object "windows"
           [ mk_spec_object [] None None None [ ".*" : wstring ] ] ])
    []
  = Some [].
Proof.
  apply (@unknown_known_folders_add_no_rule demo_identity demo_globals regex
           demo_regex_assign (fun _ => iid_failed)).
  intros k [<- | [<- | []]]; reflexivity.
Defined.

Lemma remove_trailing_path_separators_keeps (pre : wstring) (c : ascii)
    (rest : wstring) :
  is_path_separator c = false ->
  exists r, remove_trailing_path_separators (pre ++ c :: rest) = pre ++ c :: r.
Proof.
  intros H. induction pre as [|x pre [r IH]].
  - cbn [app]. simpl.
    destruct (remove_trailing_path_separators rest) as [|y r'].
    + rewrite H. exists []. reflexivity.
    + exists (y :: r'). reflexivity.
  - exists r. cbn [app]. simpl. rewrite IH.
    destruct pre; reflexivity.
Qed.

Lemma path_compare_not_separator (a b : ascii) :
  is_path_separator a = false -> is_path_separator b = true ->
  path_compare a b = false.
Proof.
  intros A B. unfold is_path_separator in B. apply orb_true_iff in B.
  destruct B as [B | B]; apply ascii_eqb_eq in B; subst b;
    destruct a as [[] [] [] [] [] [] [] []]; try reflexivity; discriminate.
Qed.

Lemma root_name_of_drive (root : wstring) :
  has_drive_letter_prefix root = true ->
  exists a0 a1, root_name root = [a0; a1]
                /\ has_drive_letter_prefix [a0; a1] = true.
Proof.
  intros H. unfold root_name, root_name_length.
  destruct root as [|a0 [|a1 rest]]; try discriminate.
  cbn [length Nat.ltb Nat.leb]. rewrite H. exists a0, a1. split; [reflexivity|].
  unfold has_drive_letter_prefix in *. cbn [length Nat.leb at_ nth] in *.
  exact H.
Qed.

Lemma root_name_append_plain (a0 a1 c : ascii) (rest : wstring) :
  has_drive_letter_prefix [a0; a1] = true ->
  plain_relative (c :: rest) = true ->
  [a0; a1] </> (c :: rest) = a0 :: a1 :: c :: rest.
Proof.
  intros D P. apply plain_relative_spec in P. destruct P as (A & R & S).
  unfold path_append. rewrite A, R. cbn [Nat.eqb negb andb]. rewrite S.
  unfold root_name_length. cbn [length Nat.ltb Nat.leb]. rewrite D.
  reflexivity.
Qed.

Lemma redirectSpec_loop_skips (os : OS) (gl : Globals) (pattern : Type)
    (regex_match : wstring -> pattern -> bool) (w : World os)
    (vfspath : normalized_path) (flags : redirect_flags)
    (result : path_redirect_info) (d : wstring) :
  dap vfspath = Some d ->
  forall specs : list (path_redirection_spec pattern),
    Forall (fun spec => path_relative_to d (base_path spec) = false) specs ->
    redirectSpec_loop os gl regex_match w vfspath flags specs result
    = Returned (result, w).
Proof.
  intros Hd. induction specs as [|s rest IH]; intros F; [reflexivity|].
  inversion F as [|? ? Hs Hr]; subst. simpl. rewrite Hd, Hs. exact (IH Hr).
Qed.

(** X21: a [packageDriveRelative] entry is joined to the root name of the
    package root, the bare drive, and the join puts no separator behind a
    bare drive.  So when the base of every entry is not empty and starts
    neither with a separator nor with a drive, the bases of the rules are
    drive-relative ([c:data]), and no rule of the configuration matches a
    path in its drive-absolute form: the rule loop leaves the default
    answer and the file system untouched. *)
Theorem drive_relative_rule_needs_leading_separator :
  forall (id : Identity) (gl : Globals) (pattern : Type)
         (regex_assign : wstring -> option pattern)
         (known_folder_of_guid : wstring -> guid_lookup)
         (entries : list spec_object)
         (specs : list (path_redirection_spec pattern))
         (os : OS) (regex_match : wstring -> pattern -> bool)
         (w : World os) (vfspath : normalized_path) (flags : redirect_flags)
         (result : path_redirect_info) (d : wstring),
    has_drive_letter_prefix (g_packageRootPath gl) = true ->
    (forall e, In e entries ->
               plain_relative (spec_base e) = true /\ spec_base e <> []) ->
    InitializeConfiguration id gl regex_assign known_folder_of_guid
      (drive_relative_only entries) [] = Some specs ->
    dap vfspath = Some d ->
    is_path_separator (at_ d 2) = true ->
    redirectSpec_loop os gl regex_match w vfspath flags specs result
    = Returned (result, w).
Proof.
  intros id gl pattern regex_assign known_folder_of_guid entries specs os
         regex_match w vfspath flags result d Hroot Hent Hcfg Hd Hsep.
  unfold InitializeConfiguration, drive_relative_only in Hcfg.
  cbn [redirectedPaths packageRelative packageDriveRelative knownFolders] in Hcfg.
  destruct (initializeRedirection gl regex_assign (root_name (g_packageRootPath gl))
              entries false []) as [g2|] eqn:E; [|discriminate].
  injection Hcfg as ->.
  destruct (root_name_of_drive _ Hroot) as (a0 & a1 & Hrn & Hdl).
  assert (F : Forall (@base_without_root_directory pattern) specs).
  { eapply initializeRedirection_Forall; [|apply Forall_nil|exact E].
    intros s compiled target excl ro Hin.
    destruct (Hent s Hin) as [Hp Hne].
    destruct (spec_base s) as [|c rest] eqn:B; [congruence|].
    rewrite Hrn, (root_name_append_plain a0 a1 c rest Hdl Hp).
    destruct (remove_trailing_path_separators_keeps [a0; a1] c rest) as [r Hr].
    { apply plain_relative_spec in Hp. exact (proj2 (proj2 Hp)). }
    exists a0, a1, c, r. split.
    - exact Hr.
    - apply plain_relative_spec in Hp. exact (proj2 (proj2 Hp)). }
  apply redirectSpec_loop_skips with (d := d); [exact Hd|].
  eapply Forall_impl; [|exact F].
  intros spec (b0 & b1 & c & r & Hb & Hc). rewrite Hb.
  unfold path_relative_to, path_relative_toImpl.
  destruct d as [|d0 [|d1 [|d2 dr]]]; try reflexivity.
  - simpl. rewrite andb_false_r. reflexivity.
  - simpl. rewrite !andb_false_r. reflexivity.
  - change (at_ (d0 :: d1 :: d2 :: dr) 2) with d2 in Hsep.
    simpl. rewrite (path_compare_not_separator _ _ Hc Hsep).
    rewrite !andb_false_r. reflexivity.
Qed.

Lemma drive_relative_rule_needs_leading_separator_witness :
  redirectSpec_loop (demo_os "C:\work") demo_globals demo_regex_match []
    {| full_path := "C:\data\x.txt"; drive_absolute_path := Some 0 |}
    no_flags
    [ mk_path_redirection_spec "c:data" any_path
        (g_writablePackageRootPath demo_globals) false false ]
    default_redirect_info
  = Returned (default_redirect_info, []).
Proof.
  apply (@drive_relative_rule_needs_leading_separator demo_identity demo_globals
           regex demo_regex_assign (fun _ => iid_failed)
           [ mk_spec_object "data" None None None [ ".*" : wstring ] ]
           [ mk_path_redirection_spec "c:data" any_path
               (g_writablePackageRootPath demo_globals) false false ]
           (demo_os "C:\work") demo_regex_match []
           {| full_path := "C:\data\x.txt"; drive_absolute_path := Some 0 |}
           no_flags default_redirect_info ("C:\data\x.txt" : wstring)).
  - reflexivity.
  - intros e [<- | []]. split; [reflexivity | discriminate].
  - reflexivity.
  - reflexivity.
  - reflexivity.
Defined.

(** With the separator in front the rule has the base [c:\data], and the
    file is redirected. *)
Example drive_relative_rule_with_leading_separator :
  exists specs,
    InitializeConfiguration demo_identity demo_globals demo_regex_assign
      (fun _ => iid_failed)
      (drive_relative_only
         [ mk_spec_object "\data" None None None [ ".*" : wstring ] ]) []
    = Some specs
    /\ map (@base_path regex) specs = [ ("c:\data" : wstring) ]
    /\ exists r w',
         ShouldRedirect (demo_os "C:\work") demo_globals demo_regex_match specs []
           (Some ("C:\data\x.txt" : wstring)) no_flags = Returned (r, w')
         /\ should_redirect r = true.
Proof.
  eexists. split; [reflexivity|]. split; [reflexivity|].
  eexists. eexists. split; [vm_compute; reflexivity | reflexivity].
Qed.

(** ** From the configuration to the destination *)


















(** * Properties of the process launcher *)

Lemma DWORD_idempotent (n : N) : DWORD (DWORD n) = DWORD n.
Proof. unfold DWORD. apply N.Div0.mod_mod. Qed.

Lemma HRESULT_FROM_WIN32_failed (x : N) :
  DWORD x <> 0%N -> FAILED (HRESULT_FROM_WIN32 x) = true.
Proof.
  intros H. unfold HRESULT_FROM_WIN32. cbv zeta.
  destruct (DWORD x =? 0)%N eqn:Z; [apply N.eqb_eq in Z; contradiction|].
  cbn [orb]. destruct (FAILED (DWORD x)) eqn:F; [exact F|].
  unfold FAILED. rewrite N.lor_spec. apply orb_true_r.
Qed.

Lemma GetLastErrorFailHr_failed (a : launch_answers) :
  FAILED (GetLastErrorFailHr a) = true.
Proof.
  unfold GetLastErrorFailHr. cbv zeta.
  destruct (DWORD (GetLastError a) =? 0)%N eqn:Z; [reflexivity|].
  apply HRESULT_FROM_WIN32_failed. rewrite DWORD_idempotent.
  apply N.eqb_neq. exact Z.
Qed.

Lemma failed_is_not_S_OK (hr : N) : FAILED hr = true -> hr <> S_OK.
Proof. intros F ->. discriminate. Qed.

(** Case analysis over the answers of the operating system. *)
Ltac launch_cases :=
  repeat match goal with
         | H : _ /\ _ |- _ => destruct H
         | H : exists _, _ |- _ => destruct H
         | H : Some _ = Some _ |- _ => injection H as ? ?; subst
         | H : _ \/ _ |- _ => destruct H
         | H : False |- _ => contradiction
         | H : call_CloseHandle _ = call_CloseHandle _ |- _ => injection H as ?; subst
         | |- _ /\ _ => split
         | |- _ <-> _ => split; intros
         | |- _ -> _ => intros
         end;
  try congruence; try discriminate; try contradiction; try assumption;
  try reflexivity.

(** X24: [StartProcess] answers [S_OK] exactly when the attribute list is
    there (passed in, or initialised), the process was created with a
    valid handle, and the wait ended with [WAIT_OBJECT_0]; every other
    answer is a failure code.  The handles of the process and its thread
    are closed exactly in the run that answers [S_OK]: when the wait
    fails or times out, the process exists and both handles stay open.
    An attribute list is deleted exactly when the function initialised it
    itself. *)
Theorem StartProcess_outcome :
  forall (a : launch_answers)
         (applicationName commandLine currentDirectory : option wstring)
         (cmdShow timeout : N) (attributeList : bool),
    let r := StartProcess a applicationName commandLine currentDirectory
               cmdShow timeout attributeList in
    (fst r = S_OK <->
     (attributeList = true \/ InitializeProcThreadAttributeList_ok a = true)
     /\ exists hProcess hThread,
          CreateProcessW_result a = Some (hProcess, hThread)
          /\ hProcess <> INVALID_HANDLE_VALUE
          /\ DWORD (WaitForSingleObject_result a) = WAIT_OBJECT_0)
    /\ (fst r <> S_OK -> FAILED (fst r) = true)
    /\ (forall h, In (call_CloseHandle h) (snd r) <->
                  fst r = S_OK
                  /\ exists hProcess hThread,
                       CreateProcessW_result a = Some (hProcess, hThread)
                       /\ (h = hProcess \/ h = hThread))
    /\ (In call_DeleteProcThreadAttributeList (snd r) <->
        attributeList = false /\ InitializeProcThreadAttributeList_ok a = true).
Proof.
  intros a applicationName commandLine currentDirectory cmdShow timeout
         attributeList r.
  pose proof (GetLastErrorFailHr_failed a) as G.
  pose proof (failed_is_not_S_OK G) as G0.
  assert (I6 : FAILED (HRESULT_FROM_WIN32 ERROR_INVALID_HANDLE) = true)
    by reflexivity.
  pose proof (failed_is_not_S_OK I6) as I0.
  subst r. unfold StartProcess.
  destruct attributeList, (InitializeProcThreadAttributeList_ok a);
    cbn [negb andb fst snd app];
    try (destruct (CreateProcessW_result a) as [[hProcess hThread]|];
         [destruct (hProcess =? INVALID_HANDLE_VALUE)%Z eqn:V;
          [apply Z.eqb_eq in V
          |apply Z.eqb_neq in V;
           destruct (DWORD (WaitForSingleObject_result a) =? WAIT_OBJECT_0)%N eqn:W;
           [apply N.eqb_eq in W | apply N.eqb_neq in W]]
         |]);
    cbn [negb fst snd app In];
    launch_cases.
  all: try (left; reflexivity).
  all: try (eexists; eexists; split; [reflexivity|]; split; assumption).
  all: try (eexists; eexists; split; [reflexivity|]; tauto).
  all: try tauto.
  all: subst; auto 10.
Qed.

Lemma StartProcess_outcome_witness :
  In (call_CloseHandle 104%Z)
     (snd (StartProcess launched None (Some ("app.exe" : wstring)) None 1 4294967295 false)).
Proof.
  apply (proj2 (proj1 (proj2 (proj2 (@StartProcess_outcome launched None
                         (Some ("app.exe" : wstring)) None 1%N 4294967295%N false)))
                  104%Z)).
  split; [reflexivity|]. exists 100%Z, 104%Z. split; [reflexivity|].
  right. reflexivity.
Defined.

(** A wait that times out: the failure code is the one of
    [ERROR_ASSERTION_FAILURE], as no call has set a last error, and no
    handle is closed. *)
Example StartProcess_leaks_on_timeout :
  StartProcess timed_out None (Some ("app.exe" : wstring)) None 1 5000 false
  = (2147943068%N,
     [ call_InitializeProcThreadAttributeList true;
       call_InitializeProcThreadAttributeList false;
       call_CreateProcessW None (Some ("app.exe" : wstring)) None 1;
       call_WaitForSingleObject 100%Z 5000;
       call_DeleteProcThreadAttributeList ]).
Proof. vm_compute. reflexivity. Qed.

(** X25: [StartWithShellExecute] passes the answer of
    [GetExitCodeProcess] to [THROW_IF_WIN32_ERROR], so whenever the shell
    started a process and its exit code can be read, the function throws
    with the code of Win32 error 1, whatever the process did.  It returns
    only when the query of the exit code fails and the wait ended with
    [WAIT_OBJECT_0]; every exception carries a failure code, and a run
    that throws leaves the process handle open. *)
Theorem StartWithShellExecute_outcome :
  forall (a : launch_answers) (packageRoot exeName exeArgString : wstring)
         (dirStr : option wstring) (cmdShow timeout : N),
    let r := StartWithShellExecute a packageRoot exeName exeArgString dirStr
               cmdShow timeout in
    (forall hProcess code,
        ShellExecuteEx_result a = Some hProcess ->
        hProcess <> INVALID_HANDLE_VALUE ->
        GetExitCodeProcess_result a = Some code ->
        fst r = thrown 2147942401)
    /\ (fst r = returned <->
        exists hProcess,
          ShellExecuteEx_result a = Some hProcess
          /\ hProcess <> INVALID_HANDLE_VALUE
          /\ GetExitCodeProcess_result a = None
          /\ DWORD (WaitForSingleObject_result a) = WAIT_OBJECT_0)
    /\ (forall hr, fst r = thrown hr ->
                   FAILED hr = true
                   /\ forall h, ~ In (call_CloseHandle h) (snd r)).
Proof.
  intros a packageRoot exeName exeArgString dirStr cmdShow timeout r.
  pose proof (GetLastErrorFailHr_failed a) as G.
  pose proof (@HRESULT_FROM_WIN32_failed (DWORD (WaitForSingleObject_result a))) as Wf.
  rewrite DWORD_idempotent in Wf.
  assert (T1 : HRESULT_FROM_WIN32 TRUE = 2147942401%N) by reflexivity.
  subst r. unfold StartWithShellExecute. cbv zeta.
  destruct (ShellExecuteEx_result a) as [hProcess|];
    [destruct (hProcess =? INVALID_HANDLE_VALUE)%Z eqn:V;
     [apply Z.eqb_eq in V
     |apply Z.eqb_neq in V;
      destruct (GetExitCodeProcess_result a) as [code|];
      [|destruct (DWORD (WaitForSingleObject_result a) =? 0)%N eqn:W;
        [apply N.eqb_eq in W | apply N.eqb_neq in W]]]
    |];
    cbn [negb fst snd app In]; rewrite ?T1;
    launch_cases.
  all: try (eexists; split; [reflexivity|]; split; [assumption|]; split; [reflexivity|assumption]).
  all: try (match goal with H : thrown _ = thrown _ |- _ => injection H as <- end).
  all: try assumption; try reflexivity; try (apply Wf; assumption).
  all: try (intros [E | [E | [E | E]]]; try discriminate; try contradiction).
  all: try (intros [E | E]; try discriminate; try contradiction).
Qed.

Lemma StartWithShellExecute_outcome_witness :
  fst (StartWithShellExecute launched "C:\Program Files\WindowsApps\App"
         "readme.txt" [] None 1 4294967295)
  = thrown 2147942401.
Proof.
  apply (proj1 (@StartWithShellExecute_outcome launched
                  ("C:\Program Files\WindowsApps\App" : wstring)
                  ("readme.txt" : wstring) ([] : wstring) None 1%N 4294967295%N)
               100%Z 0%N).
  - reflexivity.
  - discriminate.
  - reflexivity.
Defined.
